(** * capcut-automate.js: a shallow embedding and its verified properties

    The script is one asynchronous procedure that reads a job payload,
    stages the input assets, drives a browser through a fixed sequence of
    UI steps and fetches the rendered artifact.  It is modelled here as a
    computation in a small monad that records every call the script makes
    to its surroundings (file system, network, browser, console) together
    with the answer it received; the surroundings are an arbitrary oracle. *)

From Stdlib Require Import List String Ascii Bool Arith ZArith QArith Qround Lia.
From Stdlib Require Import DecimalString DecimalNat.
Import ListNotations.

Set Warnings "-register-all".
Local Close Scope Q_scope.
Local Open Scope string_scope.
Local Open Scope list_scope.

(** ** JavaScript values, as far as a JSON payload produces them *)

(** Strings are sequences of 8-bit code units: the model covers payloads in
    the Latin-1 range.  Numbers are exact rationals (the script only tests
    them for truthiness and compares them with loop counters). *)
Inductive value : Type :=
| VUndef
| VNull
| VBool (b : bool)
| VNum (q : Q)
| VStr (s : string)
| VArr (items : list value)
| VObj (fields : list (string * value)).

(** A thrown JavaScript error: its constructor name and its message. *)
Record exn : Type := mkExn { exn_name : string; message : string }.

Definition TypeError (msg : string) : exn := mkExn "TypeError" msg.
Definition SyntaxError (msg : string) : exn := mkExn "SyntaxError" msg.
Definition Error (msg : string) : exn := mkExn "Error" msg.

Module JS.

(** ToBoolean. *)
Definition truthy (v : value) : bool :=
  match v with
  | VUndef | VNull => false
  | VBool b => b
  | VNum q => negb (Qeq_bool q 0%Q)
  | VStr s => negb (String.eqb s EmptyString)
  | VArr _ | VObj _ => true
  end.

(** [a || b] on values. *)
Definition or (a b : value) : value := if truthy a then a else b.

(** Array.isArray. *)
Definition isArray (v : value) : bool :=
  match v with VArr _ => true | _ => false end.

(** Decimal rendering of a non-negative integer (template literals, and the
    property key of an index). *)
Definition dec (n : nat) : string := NilEmpty.string_of_uint (Nat.to_uint n).

(** Own property of an object built by JSON.parse: when a key is repeated the
    last occurrence wins. *)
Fixpoint lookup (k : string) (fields : list (string * value)) : option value :=
  match fields with
  | [] => None
  | (k', v) :: rest =>
      match lookup k rest with
      | Some v' => Some v'
      | None => if String.eqb k k' then Some v else None
      end
  end.

Definition num_of_nat (n : nat) : value := VNum (inject_Z (Z.of_nat n)).

(** [v.length]. Reading a property of undefined or null throws. *)
Definition length (v : value) : exn + value :=
  match v with
  | VUndef => inl (TypeError "Cannot read properties of undefined (reading 'length')")
  | VNull => inl (TypeError "Cannot read properties of null (reading 'length')")
  | VStr s => inr (num_of_nat (String.length s))
  | VArr l => inr (num_of_nat (List.length l))
  | VObj fs => inr (match lookup "length" fs with Some x => x | None => VUndef end)
  | VBool _ | VNum _ => inr VUndef
  end.

(** [v.name] for a property name that is neither an index nor [length] nor
    inherited from a prototype (the script reads [assetUrls], [outputName],
    [scriptText] and [text]): only plain objects can hold one. *)
Definition prop (v : value) (name : string) : exn + value :=
  match v with
  | VUndef => inl (TypeError ("Cannot read properties of undefined (reading '" ++ name ++ "')"))
  | VNull => inl (TypeError ("Cannot read properties of null (reading '" ++ name ++ "')"))
  | VObj fs => inr (match lookup name fs with Some x => x | None => VUndef end)
  | _ => inr VUndef
  end.

(** [v[i]] for a loop counter [i]. *)
Definition index (v : value) (i : nat) : exn + value :=
  match v with
  | VUndef => inl (TypeError ("Cannot read properties of undefined (reading '" ++ dec i ++ "')"))
  | VNull => inl (TypeError ("Cannot read properties of null (reading '" ++ dec i ++ "')"))
  | VArr l => inr (nth i l VUndef)
  | VStr s => inr (match String.get i s with
                   | Some c => VStr (String c EmptyString)
                   | None => VUndef
                   end)
  | VObj fs => inr (match lookup (dec i) fs with Some x => x | None => VUndef end)
  | VBool _ | VNum _ => inr VUndef
  end.

(** A Number as a loop bound: NaN, or a rational. *)
Inductive num : Type := NaN | Num (q : Q).

(** How many counters [i = 0, 1, ...] satisfy [i < bound]. *)
Definition count_below (bound : num) : nat :=
  match bound with
  | NaN => 0
  | Num q => Z.to_nat (Qceiling q)
  end.

(** Math.min(6, n). *)
Definition min6 (n : num) : num :=
  match n with
  | NaN => NaN
  | Num q => if Qle_bool q 6%Q then Num q else Num 6%Q
  end.

(** n / d rounded to the nearest integer, ties to the even one. *)
Definition nearest_even (n d : Z) : Z :=
  let qt := (n / d)%Z in
  let rm := (n mod d)%Z in
  if (2 * rm <? d)%Z then qt
  else if (d <? 2 * rm)%Z then (qt + 1)%Z
  else if Z.even qt then qt else (qt + 1)%Z.

(** The IEEE 754 double nearest to n / d for positive [n] and [d] (round to
    nearest, ties to even, subnormals included), or nothing when that is
    Infinity: with 2^e <= n / d < 2^(e+1), the quotient is rounded to a
    multiple of 2^(e - 52), and of 2^(-1074) at least. *)
Definition double_of_positive (n d : Z) : option Q :=
  let e0 := (Z.log2 n - Z.log2 d)%Z in
  let above :=
    if (0 <=? e0)%Z then (d * Z.pow 2 e0 <=? n)%Z
    else (d <=? n * Z.pow 2 (- e0))%Z in
  let e := if above then e0 else (e0 - 1)%Z in
  let shift := Z.max (e - 52) (-1074) in
  if (0 <=? shift)%Z then
    let m := nearest_even n (d * Z.pow 2 shift) in
    if (Z.pow 2 1024 <=? m * Z.pow 2 shift)%Z then None
    else Some (inject_Z (m * Z.pow 2 shift))
  else
    let m := nearest_even (n * Z.pow 2 (- shift)) d in
    Some (Qred (Qmake m (Z.to_pos (Z.pow 2 (- shift))))).

(** The double that a numeric literal of exact value [q] denotes; nothing
    when it is Infinity or -Infinity. *)
Definition to_double (q : Q) : option Q :=
  match Qnum q with
  | Z0 => Some 0%Q
  | Zpos n => double_of_positive (Zpos n) (Zpos (Qden q))
  | Zneg n => option_map Qopp (double_of_positive (Zpos n) (Zpos (Qden q)))
  end.

End JS.

(** ** Node's [path] module (POSIX flavour), as the script uses it *)

Module Path.

Definition slash : ascii := "/"%char.
Definition dot : ascii := "."%char.

Definition chars := list_ascii_of_string.
Definition str := string_of_list_ascii.

(** The pieces between separators; never the empty list. *)
Fixpoint split_on (c : ascii) (s : list ascii) : list (list ascii) :=
  match s with
  | [] => [[]]
  | x :: r =>
      if Ascii.eqb x c then [] :: split_on c r
      else match split_on c r with
           | h :: t => (x :: h) :: t
           | [] => [[x]]
           end
  end.

Fixpoint join_with (c : ascii) (segs : list (list ascii)) : list ascii :=
  match segs with
  | [] => []
  | [s] => s
  | s :: rest => s ++ c :: join_with c rest
  end.

Definition is_dotdot (seg : list ascii) : bool :=
  match seg with
  | [a; b] => Ascii.eqb a dot && Ascii.eqb b dot
  | _ => false
  end.

Definition is_dot (seg : list ascii) : bool :=
  match seg with
  | [a] => Ascii.eqb a dot
  | _ => false
  end.

(** normalizeString: resolve [.] and [..] segments left to right.  [acc]
    holds the segments kept so far, last one first.  A [..] removes the last
    kept segment unless there is none or it is itself [..]; then it is kept
    when the path is relative and dropped when it is absolute. *)
Fixpoint resolve (allowAboveRoot : bool) (acc : list (list ascii))
         (segs : list (list ascii)) : list (list ascii) :=
  match segs with
  | [] => rev acc
  | seg :: rest =>
      match seg with
      | [] => resolve allowAboveRoot acc rest
      | _ =>
          if is_dot seg then resolve allowAboveRoot acc rest
          else if is_dotdot seg then
            match acc with
            | top :: below =>
                if is_dotdot top
                then resolve allowAboveRoot
                       (if allowAboveRoot then seg :: acc else acc) rest
                else resolve allowAboveRoot below rest
            | [] =>
                resolve allowAboveRoot
                  (if allowAboveRoot then [seg] else []) rest
            end
          else resolve allowAboveRoot (seg :: acc) rest
      end
  end.

Definition starts_with_slash (p : list ascii) : bool :=
  match p with
  | c :: _ => Ascii.eqb c slash
  | [] => false
  end.

Definition ends_with_slash (p : list ascii) : bool :=
  starts_with_slash (rev p).

(** path.normalize. *)
Definition normalize_chars (p : list ascii) : list ascii :=
  match p with
  | [] => [dot]
  | _ =>
      let isAbsolute := starts_with_slash p in
      let trailingSeparator := ends_with_slash p in
      let body := join_with slash (resolve (negb isAbsolute) [] (split_on slash p)) in
      match body with
      | [] =>
          if isAbsolute then [slash]
          else if trailingSeparator then [dot; slash] else [dot]
      | _ =>
          let body := if trailingSeparator then body ++ [slash] else body in
          if isAbsolute then slash :: body else body
      end
  end.

(** path.join(a, b): the non-empty arguments joined by a separator, then
    normalized. *)
Definition join (a b : string) : string :=
  match chars a, chars b with
  | [], [] => "."
  | [], cb => str (normalize_chars cb)
  | ca, [] => str (normalize_chars ca)
  | ca, cb => str (normalize_chars (ca ++ slash :: cb))
  end.

Fixpoint drop_while_slash (s : list ascii) : list ascii :=
  match s with
  | c :: r => if Ascii.eqb c slash then drop_while_slash r else s
  | [] => []
  end.

Fixpoint take_until (c : ascii) (s : list ascii) : list ascii :=
  match s with
  | x :: r => if Ascii.eqb x c then [] else x :: take_until c r
  | [] => []
  end.

(** The last path component, trailing separators ignored. *)
Definition last_component (p : list ascii) : list ascii :=
  rev (take_until slash (drop_while_slash (rev p))).

(** Splits a reversed component at its first dot (the last dot of the
    component): what follows the dot, and what precedes it, both reversed. *)
Fixpoint cut_at_dot (r : list ascii) : option (list ascii * list ascii) :=
  match r with
  | [] => None
  | x :: rest =>
      if Ascii.eqb x dot then Some ([], rest)
      else match cut_at_dot rest with
           | Some (after, before) => Some (x :: after, before)
           | None => None
           end
  end.

(** path.extname: from the last dot of the last component to its end; empty
    when there is no dot, when the component starts with its only dot, or
    when the component is [..]. *)
Definition extname_chars (p : list ascii) : list ascii :=
  let base := last_component p in
  match cut_at_dot (rev base) with
  | None => []
  | Some (after, before) =>
      match before with
      | [] => []
      | _ => if is_dotdot base then [] else dot :: rev after
      end
  end.

Definition extname (p : string) : string := str (extname_chars (chars p)).

End Path.

(** ** JSON.parse (reference reading of ECMA-404 texts) *)

(** The reader follows the grammar of ECMA-404 and builds the value that
    JSON.parse builds.  Three things in a JSON text denote what [value]
    cannot hold: an escape above [\u00ff], a number that is Infinity as a
    double, and a negative number that is -0 as a double.  The reader takes
    a flag for them: without it ([parse]) such a text is not read; with it
    the reader goes on with a stand-in ([?], and 0), which tells whether the
    text is a JSON text at all ([valid]). *)
Module Json.

Local Open Scope nat_scope.

Definition quote : ascii := "034"%char.
Definition backslash : ascii := "092"%char.

Definition is_ws (c : ascii) : bool :=
  let n := nat_of_ascii c in
  (n =? 32) || (n =? 9) || (n =? 10) || (n =? 13).

Fixpoint skip_ws (s : list ascii) : list ascii :=
  match s with
  | c :: r => if is_ws c then skip_ws r else s
  | [] => []
  end.

Definition digit_val (c : ascii) : option Z :=
  let n := nat_of_ascii c in
  if (48 <=? n) && (n <=? 57) then Some (Z.of_nat (n - 48)) else None.

Definition hex_val (c : ascii) : option nat :=
  let n := nat_of_ascii c in
  if (48 <=? n) && (n <=? 57) then Some (n - 48)
  else if (65 <=? n) && (n <=? 70) then Some (n - 55)
  else if (97 <=? n) && (n <=? 102) then Some (n - 87)
  else None.

(** Reads a run of decimal digits: their value continuing [acc], how many
    were read, and the rest of the input. *)
Fixpoint digits (s : list ascii) (acc : Z) (n : nat) : Z * nat * list ascii :=
  match s with
  | c :: r =>
      match digit_val c with
      | Some d => digits r (acc * 10 + d)%Z (S n)
      | None => (acc, n, s)
      end
  | [] => (acc, n, [])
  end.

Definition simple_escape (c : ascii) : option ascii :=
  let n := nat_of_ascii c in
  if n =? 34 then Some quote
  else if n =? 92 then Some backslash
  else if n =? 47 then Some "/"%char
  else if n =? 98 then Some "008"%char
  else if n =? 102 then Some "012"%char
  else if n =? 110 then Some "010"%char
  else if n =? 114 then Some "013"%char
  else if n =? 116 then Some "009"%char
  else None.

(** The characters of a string literal after its opening quote, up to the
    closing one.  An escape above code 255 does not fit the 8-bit alphabet
    of the model: it is read as [?] when [wide] is set, and not at all
    otherwise. *)
Fixpoint string_body (wide : bool) (s : list ascii) : option (list ascii * list ascii) :=
  match s with
  | [] => None
  | c :: r =>
      if Ascii.eqb c quote then Some ([], r)
      else if Ascii.eqb c backslash then
        match r with
        | e :: r1 =>
            if Ascii.eqb e "u"%char then
              match r1 with
              | h1 :: h2 :: h3 :: h4 :: r2 =>
                  match hex_val h1, hex_val h2, hex_val h3, hex_val h4 with
                  | Some 0, Some 0, Some a, Some b =>
                      match string_body wide r2 with
                      | Some (body, rest) =>
                          Some (ascii_of_nat (16 * a + b) :: body, rest)
                      | None => None
                      end
                  | Some _, Some _, Some _, Some _ =>
                      if wide then
                        match string_body wide r2 with
                        | Some (body, rest) => Some ("?"%char :: body, rest)
                        | None => None
                        end
                      else None
                  | _, _, _, _ => None
                  end
              | _ => None
              end
            else
              match simple_escape e with
              | Some ch =>
                  match string_body wide r1 with
                  | Some (body, rest) => Some (ch :: body, rest)
                  | None => None
                  end
              | None => None
              end
        | [] => None
        end
      else if nat_of_ascii c <? 32 then None
      else
        match string_body wide r with
        | Some (body, rest) => Some (c :: body, rest)
        | None => None
        end
  end.

Definition pow10 (n : nat) : Z := Z.pow 10 (Z.of_nat n).

(** m * 10^e as a reduced fraction. *)
Definition scale (m e : Z) : Q :=
  if (0 <=? e)%Z then inject_Z (m * Z.pow 10 e)
  else Qred (Qmake m (Z.to_pos (Z.pow 10 (- e)))).

(** number: [-]int[.frac][(e|E)[+|-]digits]; the integer part is [0] or
    starts with a non-zero digit.  Its value is the double nearest to the
    decimal written.  Infinity and -0 are no rationals: such a number is
    read as 0 when [wide] is set, and not at all otherwise. *)
Definition number (wide : bool) (s : list ascii) : option (Q * list ascii) :=
  let '(neg, s1) :=
    match s with
    | c :: r => if Ascii.eqb c "-"%char then (true, r) else (false, s)
    | [] => (false, s)
    end in
  let int_part :=
    match s1 with
    | c :: r =>
        if Ascii.eqb c "0"%char then Some (0%Z, r)
        else match digits s1 0 0 with
             | (_, O, _) => None
             | (v, _, rest) => Some (v, rest)
             end
    | [] => None
    end in
  match int_part with
  | None => None
  | Some (ip, s2) =>
      let frac_part :=
        match s2 with
        | c :: r =>
            if Ascii.eqb c "."%char then
              match digits r ip 0 with
              | (_, O, _) => None
              | (v, k, rest) => Some (v, k, rest)
              end
            else Some (ip, O, s2)
        | [] => Some (ip, O, s2)
        end in
      match frac_part with
      | None => None
      | Some (m, k, s3) =>
          let exp_part :=
            match s3 with
            | c :: r =>
                if Ascii.eqb c "e"%char || Ascii.eqb c "E"%char then
                  let '(eneg, r1) :=
                    match r with
                    | d :: r' =>
                        if Ascii.eqb d "-"%char then (true, r')
                        else if Ascii.eqb d "+"%char then (false, r')
                        else (false, r)
                    | [] => (false, r)
                    end in
                  match digits r1 0 0 with
                  | (_, O, _) => None
                  | (e, _, rest) => Some ((if eneg then - e else e)%Z, rest)
                  end
                else Some (0%Z, s3)
            | [] => Some (0%Z, s3)
            end in
          match exp_part with
          | None => None
          | Some (e, s4) =>
              let m' := (if neg then - m else m)%Z in
              match JS.to_double (scale m' (e - Z.of_nat k)) with
              | Some d =>
                  if neg && Qeq_bool d 0%Q
                  then (if wide then Some (0%Q, s4) else None)
                  else Some (d, s4)
              | None => if wide then Some (0%Q, s4) else None
              end
          end
      end
  end.

Definition literal (word : string) (s : list ascii) : option (list ascii) :=
  let w := list_ascii_of_string word in
  if list_eq_dec ascii_dec (firstn (List.length w) s) w
  then Some (skipn (List.length w) s) else None.

(** A value, then the rest of the input.  [elements] and [members] read what
    follows the first element of an array or the first member of an object.
    Each call consumes input or moves to a sub-parser, so twice the length
    of the text is fuel enough. *)
Fixpoint parse_value (wide : bool) (fuel : nat) (s : list ascii)
  : option (value * list ascii) :=
  match fuel with
  | O => None
  | S fuel' =>
      match skip_ws s with
      | [] => None
      | c :: r =>
          if Ascii.eqb c quote then
            match string_body wide r with
            | Some (body, rest) => Some (VStr (string_of_list_ascii body), rest)
            | None => None
            end
          else if Ascii.eqb c "["%char then
            match skip_ws r with
            | c' :: r' =>
                if Ascii.eqb c' "]"%char then Some (VArr [], r')
                else
                  match elements wide fuel' r with
                  | Some (items, rest) => Some (VArr items, rest)
                  | None => None
                  end
            | [] => None
            end
          else if Ascii.eqb c "{"%char then
            match skip_ws r with
            | c' :: r' =>
                if Ascii.eqb c' "}"%char then Some (VObj [], r')
                else
                  match members wide fuel' r with
                  | Some (fields, rest) => Some (VObj fields, rest)
                  | None => None
                  end
            | [] => None
            end
          else if Ascii.eqb c "t"%char then
            option_map (fun rest => (VBool true, rest)) (literal "true" (c :: r))
          else if Ascii.eqb c "f"%char then
            option_map (fun rest => (VBool false, rest)) (literal "false" (c :: r))
          else if Ascii.eqb c "n"%char then
            option_map (fun rest => (VNull, rest)) (literal "null" (c :: r))
          else
            match number wide (c :: r) with
            | Some (q, rest) => Some (VNum q, rest)
            | None => None
            end
      end
  end
with elements (wide : bool) (fuel : nat) (s : list ascii)
  : option (list value * list ascii) :=
  match fuel with
  | O => None
  | S fuel' =>
      match parse_value wide fuel' s with
      | Some (v, rest) =>
          match skip_ws rest with
          | c :: r =>
              if Ascii.eqb c "]"%char then Some ([v], r)
              else if Ascii.eqb c ","%char then
                match elements wide fuel' r with
                | Some (vs, rest') => Some (v :: vs, rest')
                | None => None
                end
              else None
          | [] => None
          end
      | None => None
      end
  end
with members (wide : bool) (fuel : nat) (s : list ascii)
  : option (list (string * value) * list ascii) :=
  match fuel with
  | O => None
  | S fuel' =>
      match skip_ws s with
      | c :: r =>
          if Ascii.eqb c quote then
            match string_body wide r with
            | Some (key, rest) =>
                match skip_ws rest with
                | c1 :: r1 =>
                    if Ascii.eqb c1 ":"%char then
                      match parse_value wide fuel' r1 with
                      | Some (v, rest1) =>
                          match skip_ws rest1 with
                          | c2 :: r2 =>
                              if Ascii.eqb c2 "}"%char
                              then Some ([(string_of_list_ascii key, v)], r2)
                              else if Ascii.eqb c2 ","%char then
                                match members wide fuel' r2 with
                                | Some (fs, rest2) =>
                                    Some ((string_of_list_ascii key, v) :: fs, rest2)
                                | None => None
                                end
                              else None
                          | [] => None
                          end
                      | None => None
                      end
                    else None
                | [] => None
                end
            | None => None
            end
          else None
      | [] => None
      end
  end.

(** The whole text must be one value. *)
Definition read (wide : bool) (text : string) : exn + value :=
  let s := list_ascii_of_string text in
  match parse_value wide (2 * List.length s + 2) s with
  | Some (v, rest) =>
      match skip_ws rest with
      | [] => inr v
      | _ => inl (SyntaxError "Unexpected non-whitespace character after JSON")
      end
  | None => inl (SyntaxError "Unexpected token in JSON")
  end.

(** JSON.parse of a text whose value the model holds. *)
Definition parse (text : string) : exn + value := read false text.

(** The text is a JSON text: JSON.parse does not throw on it. *)
Definition valid (text : string) : bool :=
  match read true text with
  | inr _ => true
  | inl _ => false
  end.

(** A double quote, for writing JSON texts. *)
Definition q : string := String quote EmptyString.

End Json.

(** ** The surroundings: calls, answers, and the recorded trace *)

Definition handle := nat.    (* a puppeteer ElementHandle *)
Definition browser := nat.
Definition page := nat.
Definition buffer := string.

(** A node-fetch Response, as far as the script looks at it. *)
Record response : Type := mkResponse { res_id : nat; ok : bool; status : Z }.

Inductive level : Type := LLog | LWarn | LError.

(** Every call the script makes outside itself, indexed by what it answers. *)
Inductive call : Type -> Type :=
| ReadFileSync (p : string) : call string
| ExistsSync (p : string) : call bool
| MkdirSync (p : string) (recursive : bool) : call unit
| WriteFileSync (p : string) (data : buffer) : call unit
| Fetch (url : value) : call response
| ResBuffer (r : response) : call buffer
| Launch (executablePath : string) (args : list string) (headless : bool) : call browser
| NewPage (b : browser) : call page
| SetViewport (p : page) (width height : Z) : call unit
| Goto (p : page) (url waitUntil : string) : call unit
| WaitForSelector (p : page) (sel : string) (timeout : Z) : call unit
| PageClick (p : page) (sel : string) : call unit
| WaitForTimeout (p : page) (ms : Z) : call unit
| Query (p : page) (sel : string) : call (option handle)
| QueryAll (p : page) (sel : string) : call (list handle)
| XPath (p : page) (expr : string) : call (list handle)
| PageType (p : page) (sel text : string) (delay : Z) : call unit
| ElClick (h : handle) (delay : option Z) : call unit
| WaitForNavigation (p : page) (waitUntil : string) (timeout : Z) : call unit
| UploadFile (h : handle) (files : list string) : call unit
| Focus (h : handle) : call unit
| KeyboardType (p : page) (text : value) (delay : Z) : call unit
| EvaluateDownloadRef (p : page) (el : handle) : call (value * value)
| BrowserClose (b : browser) : call unit
| Console (lvl : level) (args : list value) : call unit.

(** One entry of the trace: the call and how it ended (rejected or thrown
    with an error, or answered). *)
Inductive event : Type :=
| Ev {X : Type} (c : call X) (r : exn + X).

Definition trace := list event.

(** The surroundings answer each call knowing everything that happened
    before it. *)
Definition World := forall X : Type, trace -> call X -> exn + X.

(** What the process environment and the JavaScript runtime provide. *)
Record Runtime : Type := mkRuntime {
  GITHUB_EVENT_PATH : option string;
  CAPCUT_EMAIL : option string;
  CAPCUT_PASSWORD : option string;
  CHROME_EXEC : option string;
  (** Date.now() where the default output name is built. *)
  Date_now : N;
  (** ToNumber of a string, an array or an object (StringToNumber and
      ToPrimitive), which the script reaches only through the [length] of
      an array-like object. *)
  ToNumber_object : value -> exn + JS.num;
  (** JSON.parse of a JSON text that denotes what [value] cannot hold (a
      character above [\u00ff], Infinity, -0): the nearest the model has. *)
  JSON_parse_wide : string -> value
}.

(** ** The script monad: history in, outcome and new trace entries out *)

Inductive result (A : Type) : Type :=
| Ok (a : A)
| Throw (e : exn)       (* an exception or rejected promise, propagating *)
| Exit (code : Z).      (* process.exit(code) *)
Arguments Ok {A} a.
Arguments Throw {A} e.
Arguments Exit {A} code.

Definition M (A : Type) : Type := trace -> result A * trace.

Definition ret {A} (a : A) : M A := fun _ => (Ok a, []).

Definition bind {A B} (m : M A) (f : A -> M B) : M B :=
  fun h =>
    let (r, t1) := m h in
    match r with
    | Ok a => let (r2, t2) := f a (h ++ t1) in (r2, t1 ++ t2)
    | Throw e => (Throw e, t1)
    | Exit c => (Exit c, t1)
    end.

Definition throw {A} (e : exn) : M A := fun _ => (Throw e, []).

Definition process_exit {A} (code : Z) : M A := fun _ => (Exit code, []).

(** try { m } catch (err) { handler err }: only a throw is caught. *)
Definition try_catch {A} (m : M A) (handler : exn -> M A) : M A :=
  fun h =>
    let (r, t1) := m h in
    match r with
    | Throw e => let (r2, t2) := handler e (h ++ t1) in (r2, t1 ++ t2)
    | _ => (r, t1)
    end.

Definition lift {A} (x : exn + A) : M A :=
  match x with
  | inl e => throw e
  | inr a => ret a
  end.

Declare Scope script_scope.
Delimit Scope script_scope with script.
Notation "x <- m ;; k" := (bind m (fun x => k))
  (at level 61, m at next level, right associativity) : script_scope.
Notation "' pat <- m ;; k" := (bind m (fun x => match x with pat => k end))
  (at level 61, pat pattern, m at next level, right associativity) : script_scope.
Notation "m ;; k" := (bind m (fun _ => k))
  (at level 61, right associativity) : script_scope.
Local Open Scope script_scope.

(** for (let i = start; i < start + n; i++) body(i) *)
Fixpoint for_range (n start : nat) (body : nat -> M unit) : M unit :=
  match n with
  | O => ret tt
  | S n' => body start ;; for_range n' (S start) body
  end.

Fixpoint for_each {A} (l : list A) (body : A -> M unit) : M unit :=
  match l with
  | [] => ret tt
  | x :: rest => body x ;; for_each rest body
  end.

(** ** capcut-automate.js *)

Definition dq : string := String "034"%char EmptyString.

(** Selectors and XPath expressions, as the script spells them. *)
Definition loginSel : string :=
  "button[data-testid=" ++ dq ++ "login-btn" ++ dq ++ "], a[href*=" ++ dq ++ "login" ++ dq ++ "]".
Definition emailSel : string :=
  "input[type=" ++ dq ++ "email" ++ dq ++ "], input[name=" ++ dq ++ "email" ++ dq ++ "]".
Definition pwSel : string :=
  "input[type=" ++ dq ++ "password" ++ dq ++ "], input[name=" ++ dq ++ "password" ++ dq ++ "]".
Definition submitSel : string :=
  "button[type=" ++ dq ++ "submit" ++ dq ++ "], button[data-testid=" ++ dq ++ "submit" ++ dq ++ "]".
Definition newProjectX : string :=
  "//button[contains(., 'New Project') or contains(., 'Create')]".
Definition fileInputSel : string := "input[type=file]".
Definition uploadX : string :=
  "//button[contains(translate(., 'UPLOAD', 'upload'), 'upload') or contains(., 'Import')]".
Definition thumbSel : string := ".asset-thumb, .media-thumb, .thumbnail".
Definition textBtnX : string :=
  "//button[contains(., 'Text') or contains(., 'Add text')]".
Definition addTextX : string :=
  "//button[contains(., 'Add text') or contains(., 'Add') and contains(., 'Text')]".
Definition activeInputSel : string :=
  "textarea, input[role=" ++ dq ++ "textbox" ++ dq ++ "], div[contenteditable=" ++ dq ++ "true" ++ dq ++ "]".
Definition exportX : string :=
  "//button[contains(., 'Export') or contains(., 'Download')]".
Definition downloadSel : string := "a.download-link, button.download".

Definition tmpDir : string := "/tmp/capcut_assets".
Definition editorUrl : string := "https://www.capcut.com/tools/editor".
Definition launch_args : list string :=
  ["--no-sandbox"; "--disable-setuid-sandbox"; "--disable-dev-shm-usage";
   "--single-process"; "--disable-gpu"; "--window-size=1280,800"].

Definition decN (n : N) : string := NilEmpty.string_of_uint (N.to_uint n).

(** A process.env entry used as a condition. *)
Definition env_truthy (v : option string) : bool :=
  match v with
  | Some s => negb (String.eqb s EmptyString)
  | None => false
  end.

Definition env_string (v : option string) : string :=
  match v with Some s => s | None => EmptyString end.

(** path.extname(url): Node validates that the argument is a string. *)
Definition path_extname (url : value) : exn + string :=
  match url with
  | VStr s => inr (Path.extname s)
  | _ => inl (TypeError "The path argument must be of type string")
  end.

(** path.join('/tmp', name): likewise. *)
Definition path_join (dir : string) (name : value) : exn + string :=
  match name with
  | VStr s => inr (Path.join dir s)
  | _ => inl (TypeError "The path argument must be of type string")
  end.

(** ext.split('?')[0] *)
Definition before_question (ext : string) : string :=
  Path.str (Path.take_until "?"%char (Path.chars ext)).

(** path.join(tmpDir, `asset_${i}${path.extname(url).split('?')[0] || '.mp4'}`) *)
Definition asset_filename (i : nat) (ext : string) : string :=
  let e := before_question ext in
  Path.join tmpDir
    ("asset_" ++ JS.dec i ++ (if String.eqb e EmptyString then ".mp4" else e)).

(** JSON.parse(text): the value read by the reference reader; for a JSON
    text beyond it, what the runtime makes of the text; and a SyntaxError
    for a text that is no JSON text. *)
Definition JSON_parse_text (rt : Runtime) (text : string) : exn + value :=
  match Json.parse text with
  | inr v => inr v
  | inl e => if Json.valid text then inr (JSON_parse_wide rt text) else inl e
  end.

(** JSON.parse(v) for the values the script hands it (never an array: that
    case is taken by Array.isArray first).  The argument is converted to a
    string and read back: a number, a boolean and null come back as they
    are; an object becomes text that is no JSON (or cannot be converted at
    all), so the call throws. *)
Definition JSON_parse (rt : Runtime) (v : value) : exn + value :=
  match v with
  | VStr s => JSON_parse_text rt s
  | VNum _ | VBool _ | VNull => inr v
  | VUndef | VObj _ | VArr _ =>
      inl (SyntaxError "Unexpected token in JSON")
  end.

(** Line 186: Array.isArray(scriptText) ? scriptText
                                       : JSON.parse(scriptText || '[]') *)
Definition scriptObj_of (rt : Runtime) (scriptText : value) : exn + value :=
  if JS.isArray scriptText then inr scriptText
  else JSON_parse rt (JS.or scriptText (VStr "[]")).

Section Script.

Variable rt : Runtime.
Variable world : World.

(** An awaited or synchronous call: answered by the surroundings, recorded. *)
Definition perform {X} (c : call X) : M X :=
  fun h =>
    let r := world X h c in
    (match r with inl e => Throw e | inr x => Ok x end, [Ev c r]).

(** console.log / warn / error: recorded, never failing. *)
Definition console (lvl : level) (args : list value) : M unit :=
  fun _ => (Ok tt, [Ev (Console lvl args) (inr tt)]).

(** ToNumber. *)
Definition to_number (v : value) : exn + JS.num :=
  match v with
  | VUndef => inr JS.NaN
  | VNull => inr (JS.Num 0%Q)
  | VBool b => inr (JS.Num (if b then 1%Q else 0%Q))
  | VNum q => inr (JS.Num q)
  | _ => ToNumber_object rt v
  end.

(** How often [for (let i = 0; i < bound(v.length); i++)] runs its body, or
    the error that reading the bound throws.  The bound is a pure expression
    over the payload, so reading it once is reading it at every turn. *)
Definition turns (bound : JS.num -> JS.num) (v : value) : exn + nat :=
  match JS.length v with
  | inl e => inl e
  | inr len =>
      match to_number len with
      | inl e => inl e
      | inr n => inr (JS.count_below (bound n))
      end
  end.

(** Lines 35-38. *)
Definition validate (payload : value) : M unit :=
  missing <-
    (if negb (JS.truthy payload) then ret true
     else urls <- lift (JS.prop payload "assetUrls") ;;
          ret (negb (JS.truthy urls))) ;;
  if (missing : bool) then
    console LError [VStr "Payload missing required fields. Example: assetUrls[]"] ;;
    process_exit 1%Z
  else ret tt.

(** Line 44. *)
Definition default_output_name : string :=
  "capcut_export_" ++ decN (Date_now rt) ++ ".mp4".

Definition OUTPUT_NAME (payload : value) : exn + value :=
  match JS.prop payload "outputName" with
  | inl e => inl e
  | inr name => inr (JS.or name (VStr default_output_name))
  end.

(** Lines 52-64, one turn per counter [i]; [localFiles] is the array built
    so far. *)
Fixpoint download_assets (assetUrls : value) (n i : nat)
         (localFiles : list string) : M (list string) :=
  match n with
  | O => ret localFiles
  | S n' =>
      url <- lift (JS.index assetUrls i) ;;
      ext <- lift (path_extname url) ;;
      let filename := asset_filename i ext in
      res <- perform (Fetch url) ;;
      if negb (ok res) then
        console LError [VStr "Failed to download asset"; url; VNum (inject_Z (status res))] ;;
        process_exit 1%Z
      else
        data <- perform (ResBuffer res) ;;
        perform (WriteFileSync filename data) ;;
        console LLog [VStr "Saved"; VStr filename] ;;
        download_assets assetUrls n' (S i) (localFiles ++ [filename])
  end.

(** Lines 46-64. *)
Definition stage_assets (payload : value) : M (list string) :=
  present <- perform (ExistsSync tmpDir) ;;
  (if (present : bool) then ret tt else perform (MkdirSync tmpDir true)) ;;
  console LLog [VStr "Downloading assets..."] ;;
  assetUrls <- lift (JS.prop payload "assetUrls") ;;
  n <- lift (turns (fun len => len) assetUrls) ;;
  download_assets assetUrls n 0 [].

(** Lines 67-85. *)
Definition open_editor : M (browser * page) :=
  let exec := if env_truthy (CHROME_EXEC rt) then env_string (CHROME_EXEC rt)
              else "/usr/bin/google-chrome-stable" in
  b <- perform (Launch exec launch_args true) ;;
  p <- perform (NewPage b) ;;
  perform (SetViewport p 1280%Z 800%Z) ;;
  console LLog [VStr "Navigating to CapCut..."] ;;
  perform (Goto p editorUrl "networkidle2") ;;
  ret (b, p).

(** Lines 88-95. *)
Definition login_button (p : page) : M unit :=
  try_catch
    (perform (WaitForSelector p loginSel 8000%Z) ;;
     perform (PageClick p loginSel) ;;
     perform (WaitForTimeout p 2000%Z))
    (fun _ => console LWarn [VStr "Login button not found; continuing if already logged in."]).

(** Lines 98-116. *)
Definition email_login (p : page) : M unit :=
  try_catch
    (emailExists <- perform (Query p emailSel) ;;
     if match emailExists with Some _ => true | None => false end
        && env_truthy (CAPCUT_EMAIL rt) && env_truthy (CAPCUT_PASSWORD rt)
     then
       console LLog [VStr "Performing email login..."] ;;
       perform (PageType p emailSel (env_string (CAPCUT_EMAIL rt)) 50%Z) ;;
       perform (PageType p pwSel (env_string (CAPCUT_PASSWORD rt)) 50%Z) ;;
       submitBtn <- perform (Query p submitSel) ;;
       match submitBtn with
       | Some h => perform (ElClick h None)
       | None => ret tt
       end ;;
       perform (WaitForNavigation p "networkidle2" 20000%Z) ;;
       console LLog [VStr "Login done."]
     else
       console LLog [VStr "Email login not available or credentials missing; ensure account is logged in or provide cookies."])
    (fun _ => console LWarn [VStr "Login attempt failed; continuing — ensure session is active or update selectors."]).

(** Lines 120-132. *)
Definition create_project (p : page) : M unit :=
  try_catch
    (perform (WaitForTimeout p 1500%Z) ;;
     newBtn <- perform (XPath p newProjectX) ;;
     match newBtn with
     | h :: _ =>
         perform (ElClick h None) ;;
         perform (WaitForTimeout p 1200%Z)
     | [] => console LLog [VStr "New Project button not found by XPath; try alternative flows."]
     end)
    (fun _ => console LWarn [VStr "Create project step may require manual setup in UI."]).

(** Lines 136-159. *)
Definition upload (b : browser) (p : page) (localFiles : list string) : M unit :=
  try_catch
    (fileInput <- perform (Query p fileInputSel) ;;
     match fileInput with
     | None =>
         uploadBtn <- perform (XPath p uploadX) ;;
         match uploadBtn with
         | h :: _ =>
             perform (ElClick h None) ;;
             perform (WaitForTimeout p 800%Z)
         | [] => ret tt
         end
     | Some _ => ret tt
     end ;;
     fileInput2 <- perform (Query p fileInputSel) ;;
     match fileInput2 with
     | None =>
         throw (Error "Unable to find file input element on page. Inspect CapCut and update script selector.")
     | Some h =>
         perform (UploadFile h localFiles) ;;
         console LLog [VStr "Uploaded local files to CapCut UI."]
     end)
    (fun err =>
       console LError [VStr "Upload step failed:"; VStr (message err)] ;;
       perform (BrowserClose b) ;;
       process_exit 1%Z).

(** scriptObj[i].text || scriptObj[i] *)
Definition caption_text (entry : value) : exn + value :=
  match JS.prop entry "text" with
  | inl e => inl e
  | inr text => inr (JS.or text entry)
  end.

(** Lines 189-203: the body of the caption loop at counter [i]. *)
Definition add_caption (p : page) (scriptObj : value) (addTextBtn : list handle)
           (i : nat) : M unit :=
  try_catch
    (match addTextBtn with
     | h :: _ =>
         perform (ElClick h None) ;;
         perform (WaitForTimeout p 400%Z) ;;
         activeInput <- perform (Query p activeInputSel) ;;
         match activeInput with
         | Some a =>
             perform (Focus a) ;;
             entry <- lift (JS.index scriptObj i) ;;
             text <- lift (caption_text entry) ;;
             perform (KeyboardType p text 20%Z) ;;
             perform (WaitForTimeout p 300%Z)
         | None => ret tt
         end
     | [] => ret tt
     end)
    (fun err =>
       console LWarn [VStr "Add text failed for caption"; JS.num_of_nat i; VStr (message err)]).

(** Lines 177-208. *)
Definition captions (p : page) (payload : value) : M unit :=
  scriptText <- lift (JS.prop payload "scriptText") ;;
  if JS.truthy scriptText then
    try_catch
      (textBtn <- perform (XPath p textBtnX) ;;
       match textBtn with
       | h :: _ =>
           perform (ElClick h None) ;;
           perform (WaitForTimeout p 600%Z)
       | [] => ret tt
       end ;;
       scriptObj <- lift (scriptObj_of rt scriptText) ;;
       addTextBtn <- perform (XPath p addTextX) ;;
       n <- lift (turns JS.min6 scriptObj) ;;
       for_range n 0 (add_caption p scriptObj addTextBtn))
      (fun _ => console LWarn [VStr "Caption insertion partially failed. You may need to update selectors."])
  else ret tt.

(** Lines 163-211. *)
Definition timeline (p : page) (payload : value) : M unit :=
  try_catch
    (perform (WaitForSelector p thumbSel 10000%Z) ;;
     thumbs <- perform (QueryAll p thumbSel) ;;
     console LLog [VStr "Found thumbnails:"; JS.num_of_nat (List.length thumbs)] ;;
     for_each (firstn 12 thumbs)
       (fun h =>
          try_catch
            (perform (ElClick h (Some 100%Z)) ;;
             perform (WaitForTimeout p 400%Z))
            (fun _ => ret tt)) ;;
     captions p payload)
    (fun err => console LWarn [VStr "Timeline population step had issues:"; VStr (message err)]).

(** Lines 218-228. *)
Definition export (p : page) : M unit :=
  try_catch
    (exportBtn <- perform (XPath p exportX) ;;
     match exportBtn with
     | h :: _ =>
         perform (ElClick h None) ;;
         console LLog [VStr "Clicked Export."]
     | [] => console LWarn [VStr "Export button not found; you may need to manually export or update selector."]
     end)
    (fun err => console LWarn [VStr "Export step failed:"; VStr (message err)]).

(** Lines 231-254. *)
Definition poll_and_download (p : page) (outputName : value) : M unit :=
  try_catch
    (perform (WaitForSelector p downloadSel 120000%Z) ;;
     downloadEl <- perform (Query p downloadSel) ;;
     match downloadEl with
     | Some el =>
         ref <- perform (EvaluateDownloadRef p el) ;;
         let downloadUrl := JS.or (fst ref) (snd ref) in
         console LLog [VStr "Export ready at"; downloadUrl] ;;
         r <- perform (Fetch downloadUrl) ;;
         buff <- perform (ResBuffer r) ;;
         outPath <- lift (path_join "/tmp" outputName) ;;
         perform (WriteFileSync outPath buff) ;;
         console LLog [VStr "Saved output to"; VStr outPath] ;;
         console LLog [VStr "Done."]
     | None => console LWarn [VStr "Download button found but could not extract URL."]
     end)
    (fun err =>
       console LWarn [VStr "Export/download polling failed (timeout or selector mismatch)."; VStr (message err)]).

(** Lines 256-257. *)
Definition finish (b : browser) : M unit :=
  perform (BrowserClose b) ;;
  process_exit 0%Z.

(** Lines 85-257: everything after the editor page is open. *)
Definition drive_editor (b : browser) (p : page) (payload outputName : value)
           (localFiles : list string) : M unit :=
  login_button p ;;
  email_login p ;;
  create_project p ;;
  upload b p localFiles ;;
  timeline p payload ;;
  export p ;;
  poll_and_download p outputName ;;
  finish b.

(** Lines 35-257: the run on a given payload. *)
Definition script (payload : value) : M unit :=
  validate payload ;;
  outputName <- lift (OUTPUT_NAME payload) ;;
  localFiles <- stage_assets payload ;;
  bp <- open_editor ;;
  drive_editor (fst bp) (snd bp) payload outputName localFiles.

(** Lines 28-34: where the payload comes from. *)
Definition main : M unit :=
  if negb (env_truthy (GITHUB_EVENT_PATH rt)) then
    console LError [VStr "GITHUB_EVENT_PATH env var missing. Are you running in GH Actions?"] ;;
    process_exit 1%Z
  else
    text <- perform (ReadFileSync (env_string (GITHUB_EVENT_PATH rt))) ;;
    ev <- lift (JSON_parse_text rt text) ;;
    client_payload <- lift (JS.prop ev "client_payload") ;;
    script (JS.or client_payload (VObj [])).

(** The complete run from an empty history. *)
Definition run (payload : value) : result unit * trace := script payload [].

End Script.

(** ** ToNumber of strings, arrays and objects (ECMA-262, 7.1.4) *)

Module ToNumber.

Local Open Scope nat_scope.

(** White space and line terminators, as far as 8-bit code units go. *)
Definition is_str_ws (c : ascii) : bool :=
  let n := nat_of_ascii c in
  (n =? 9) || (n =? 10) || (n =? 11) || (n =? 12) || (n =? 13) || (n =? 32) || (n =? 160).

Fixpoint trim_left (s : list ascii) : list ascii :=
  match s with
  | c :: r => if is_str_ws c then trim_left r else s
  | [] => []
  end.

Definition trim (s : list ascii) : list ascii := rev (trim_left (rev (trim_left s))).

(** As a loop bound, Infinity is a number that no counter reaches: 2^1024,
    the least power of two above every double, stands for it. *)
Definition unbounded : Q := inject_Z (Z.pow 2 1024).

(** The Number of an exact value. *)
Definition of_exact (q : Q) : JS.num :=
  match JS.to_double q with
  | Some d => JS.Num d
  | None => JS.Num (if Qle_bool q 0%Q then Qopp unbounded else unbounded)
  end.

(** The digits of a literal in base 16, 8 or 2: all of the input, and one
    at least. *)
Fixpoint radix_digits (base : nat) (s : list ascii) (acc : Z) (n : nat) : option Z :=
  match s with
  | [] => if n =? 0 then None else Some acc
  | c :: r =>
      match Json.hex_val c with
      | Some d =>
          if d <? base
          then radix_digits base r (acc * Z.of_nat base + Z.of_nat d)%Z (S n)
          else None
      | None => None
      end
  end.

(** StrUnsignedDecimalLiteral other than Infinity:
    digits [. [digits]] [exponent] or . digits [exponent]. *)
Definition decimal (s : list ascii) : option Q :=
  let '(ip, ni, s1) := Json.digits s 0 0 in
  let '(m, nf, s2) :=
    match s1 with
    | c :: r => if Ascii.eqb c "."%char then Json.digits r ip 0 else (ip, 0, s1)
    | [] => (ip, 0, s1)
    end in
  if ni + nf =? 0 then None
  else
    match s2 with
    | [] => Some (Json.scale m (- Z.of_nat nf))
    | c :: r =>
        if Ascii.eqb c "e"%char || Ascii.eqb c "E"%char then
          let '(eneg, r1) :=
            match r with
            | d :: r' =>
                if Ascii.eqb d "-"%char then (true, r')
                else if Ascii.eqb d "+"%char then (false, r')
                else (false, r)
            | [] => (false, r)
            end in
          match Json.digits r1 0 0 with
          | (_, O, _) => None
          | (e, _, []) => Some (Json.scale m ((if eneg then - e else e) - Z.of_nat nf))
          | (_, _, _ :: _) => None
          end
        else None
    end.

Definition unsigned (neg : bool) (s : list ascii) : JS.num :=
  if list_eq_dec ascii_dec s (list_ascii_of_string "Infinity")
  then JS.Num (if neg then Qopp unbounded else unbounded)
  else
    match decimal s with
    | Some q => of_exact (if neg then Qopp q else q)
    | None => JS.NaN
    end.

Definition signed (s : list ascii) : JS.num :=
  match s with
  | c :: r =>
      if Ascii.eqb c "+"%char then unsigned false r
      else if Ascii.eqb c "-"%char then unsigned true r
      else unsigned false s
  | [] => JS.NaN
  end.

Definition radix_literal (base : nat) (s : list ascii) : JS.num :=
  match radix_digits base s 0 0 with
  | Some v => of_exact (inject_Z v)
  | None => JS.NaN
  end.

(** StringToNumber. *)
Definition of_string (s : string) : JS.num :=
  match trim (list_ascii_of_string s) with
  | [] => JS.Num 0%Q
  | c :: x :: r =>
      if Ascii.eqb c "0"%char && (Ascii.eqb x "x"%char || Ascii.eqb x "X"%char)
      then radix_literal 16 r
      else if Ascii.eqb c "0"%char && (Ascii.eqb x "o"%char || Ascii.eqb x "O"%char)
      then radix_literal 8 r
      else if Ascii.eqb c "0"%char && (Ascii.eqb x "b"%char || Ascii.eqb x "B"%char)
      then radix_literal 2 r
      else signed (c :: x :: r)
  | t => signed t
  end.

(** ToNumber of a value that JSON.parse built.  An array is converted to
    the string that joins its elements with commas, so it is a number only
    when it has one element at most: an empty array, [null] and [undefined]
    give the empty string, a number gives back itself, a string is read as
    a number, a nested array is joined in turn, and an object gives
    [[object Object]]. *)
Fixpoint of_value (v : value) : JS.num :=
  match v with
  | VUndef => JS.NaN
  | VNull => JS.Num 0%Q
  | VBool b => JS.Num (if b then 1%Q else 0%Q)
  | VNum q => JS.Num q
  | VStr s => of_string s
  | VArr [] => JS.Num 0%Q
  | VArr [x] =>
      match x with
      | VUndef | VNull => JS.Num 0%Q
      | VBool _ | VObj _ => JS.NaN
      | VNum q => JS.Num q
      | VStr s => of_string s
      | VArr _ => of_value x
      end
  | VArr _ => JS.NaN
  | VObj _ => JS.NaN
  end.

End ToNumber.

(** ** Reference surroundings for concrete runs *)

(** Node, with no credentials configured.  A JSON text beyond the model is
    given the value it has with [?] for every character above [\u00ff] and
    0 for Infinity and -0. *)
Definition node_runtime : Runtime :=
  {| GITHUB_EVENT_PATH := Some "/github/workflow/event.json";
     CAPCUT_EMAIL := None;
     CAPCUT_PASSWORD := None;
     CHROME_EXEC := None;
     Date_now := 1761004800000%N;
     ToNumber_object := fun v => inr (ToNumber.of_value v);
     JSON_parse_wide :=
       fun text => match Json.read true text with inr v => v | inl _ => VUndef end |}.

(** Every call succeeds: the staging directory exists, every fetch is a
    200, every control the script looks for is on the page. *)
Definition happy_world : World :=
  fun X _ c =>
    match c in call X return exn + X with
    | ReadFileSync _ => inr "{}"
    | ExistsSync _ => inr true
    | MkdirSync _ _ => inr tt
    | WriteFileSync _ _ => inr tt
    | Fetch _ => inr (mkResponse 0 true 200)
    | ResBuffer _ => inr "bytes"
    | Launch _ _ _ => inr 1
    | NewPage _ => inr 1
    | SetViewport _ _ _ => inr tt
    | Goto _ _ _ => inr tt
    | WaitForSelector _ _ _ => inr tt
    | PageClick _ _ => inr tt
    | WaitForTimeout _ _ => inr tt
    | Query _ _ => inr (Some 7)
    | QueryAll _ _ => inr [3; 4]
    | XPath _ _ => inr [5]
    | PageType _ _ _ _ => inr tt
    | ElClick _ _ => inr tt
    | WaitForNavigation _ _ _ => inr tt
    | UploadFile _ _ => inr tt
    | Focus _ => inr tt
    | KeyboardType _ _ _ => inr tt
    | EvaluateDownloadRef _ _ => inr (VStr "https://cdn.example/render.mp4", VNull)
    | BrowserClose _ => inr tt
    | Console _ _ => inr tt
    end.

Definition hook_json : string :=
  "[{" ++ Json.q ++ "text" ++ Json.q ++ ":" ++ Json.q ++ "Hook" ++ Json.q ++ "}]".

(** The job of the spec's end-to-end scenario. *)
Definition demo_payload : value :=
  VObj [("assetUrls", VArr [VStr "http://x/a.mp4"]);
        ("scriptText", VStr hook_json);
        ("outputName", VStr "out.mp4")].

(** The same job with the script given as a list. *)
Definition demo_fields_structured : list (string * value) :=
  [("assetUrls", VArr [VStr "http://x/a.mp4"]);
   ("scriptText", VArr [VObj [("text", VStr "Hook")]]);
   ("outputName", VStr "out.mp4")].

Definition three_assets : value :=
  VObj [("assetUrls",
         VArr [VStr "http://x/a.mp4"; VStr "http://x/b.mp4"; VStr "http://x/c.mov?dl=1"])].

Definition plain_text_payload : value :=
  VObj [("assetUrls", VArr [VStr "http://x/a.mp4"]);
        ("scriptText", VStr "Hook line one")].

Definition traversal_payload : value :=
  VObj [("assetUrls", VArr [VStr "http://x/a.mp4"]);
        ("outputName", VStr "../etc/passwd")].

(** Surroundings that answer some calls in a special way and all others
    like [base]. *)
Definition override (special : forall X : Type, call X -> option (exn + X))
           (base : World) : World :=
  fun X h c =>
    match special X c with
    | Some r => r
    | None => base X h c
    end.

(** The second asset is gone: its fetch answers 404. *)
Definition second_asset_missing (X : Type) (c : call X) : option (exn + X) :=
  match c in call X return option (exn + X) with
  | Fetch url =>
      match url with
      | VStr u =>
          if String.eqb u "http://x/b.mp4"
          then Some (inr (mkResponse 1 false 404))
          else None
      | _ => None
      end
  | _ => None
  end.

(** The page never shows a file input. *)
Definition no_file_input (X : Type) (c : call X) : option (exn + X) :=
  match c in call X return option (exn + X) with
  | Query _ sel => if String.eqb sel fileInputSel then Some (inr None) else None
  | _ => None
  end.

Definition TimeoutError : exn :=
  mkExn "TimeoutError" "Waiting for selector failed: 120000ms exceeded".

(** The download link never appears: the wait for it times out. *)
Definition render_never_finishes (X : Type) (c : call X) : option (exn + X) :=
  match c in call X return option (exn + X) with
  | WaitForSelector _ sel _ =>
      if String.eqb sel downloadSel then Some (inl TimeoutError) else None
  | _ => None
  end.

Definition TargetClosed : exn :=
  mkExn "TargetCloseError" "Protocol error (Browser.close): Target closed".

(** The browser is gone by the time the script closes it: browser.close()
    rejects. *)
Definition close_rejects (X : Type) (c : call X) : option (exn + X) :=
  match c in call X return option (exn + X) with
  | BrowserClose _ => Some (inl TargetClosed)
  | _ => None
  end.

(** ** Reading a trace *)

(** The entries of a trace that [f] recognises, in order. *)
Fixpoint pick {A} (f : event -> option A) (t : trace) : list A :=
  match t with
  | [] => []
  | e :: rest =>
      match f e with
      | Some a => a :: pick f rest
      | None => pick f rest
      end
  end.

(** puppeteer.launch, whatever it answered. *)
Definition launch_of (e : event) : option unit :=
  match e with
  | Ev c _ => match c with Launch _ _ _ => Some tt | _ => None end
  end.

(** The part of a trace before the first puppeteer.launch, and the part
    from it on. *)
Fixpoint before_launch (t : trace) : trace :=
  match t with
  | [] => []
  | e :: rest =>
      match launch_of e with
      | Some _ => []
      | None => e :: before_launch rest
      end
  end.

Fixpoint since_launch (t : trace) : trace :=
  match t with
  | [] => []
  | e :: rest =>
      match launch_of e with
      | Some _ => t
      | None => since_launch rest
      end
  end.

(** fetch(url) and how it ended. *)
Definition fetch_of (e : event) : option (value * (exn + response)) :=
  match e with
  | Ev c r =>
      match c in call X return (exn + X) -> option (value * (exn + response)) with
      | Fetch url => fun r => Some (url, r)
      | _ => fun _ => None
      end r
  end.

(** A fetch answered with a response that is not ok. *)
Definition failed_fetch_of (e : event) : option (value * response) :=
  match fetch_of e with
  | Some (url, inr res) => if ok res then None else Some (url, res)
  | _ => None
  end.

(** fs.writeFileSync(path, data) that returned: the path written. *)
Definition written_of (e : event) : option string :=
  match e with
  | Ev c r =>
      match c with
      | WriteFileSync p _ => match r with inr _ => Some p | inl _ => None end
      | _ => None
      end
  end.

(** fs.writeFileSync(path, data), returned or not: the path. *)
Definition write_of (e : event) : option string :=
  match e with
  | Ev c _ => match c with WriteFileSync p _ => Some p | _ => None end
  end.

(** elementHandle.uploadFile(...files): the files. *)
Definition upload_of (e : event) : option (list string) :=
  match e with
  | Ev c _ => match c with UploadFile _ files => Some files | _ => None end
  end.

(** page.$('input[type=file]') and how it ended. *)
Definition file_input_of (e : event) : option (exn + option handle) :=
  match e with
  | Ev c r =>
      match c in call X return (exn + X) -> option (exn + option handle) with
      | Query _ sel => fun r => if String.eqb sel fileInputSel then Some r else None
      | _ => fun _ => None
      end r
  end.

(** page.waitForSelector('a.download-link, button.download', ...) and how it
    ended. *)
Definition completion_wait_of (e : event) : option (exn + unit) :=
  match e with
  | Ev c r =>
      match c in call X return (exn + X) -> option (exn + unit) with
      | WaitForSelector _ sel _ => fun r => if String.eqb sel downloadSel then Some r else None
      | _ => fun _ => None
      end r
  end.

(** page.keyboard.type(text, ...): the text handed over. *)
Definition typed_of (e : event) : option value :=
  match e with
  | Ev c _ => match c with KeyboardType _ text _ => Some text | _ => None end
  end.

(** console.warn(...): its arguments. *)
Definition warning_of (e : event) : option (list value) :=
  match e with
  | Ev c _ => match c with Console LWarn args => Some args | _ => None end
  end.

(** A call that belongs to a step after the upload (timeline, captions,
    export, polling): a wait for thumbnails or for the download link, a
    query for thumbnails, for the text entry or for the download link, one
    of the three later XPath searches, typing, or reading the download
    reference. *)
Definition later_step_of (e : event) : option unit :=
  match e with
  | Ev c _ =>
      match c with
      | WaitForSelector _ sel _ =>
          if String.eqb sel thumbSel || String.eqb sel downloadSel then Some tt else None
      | QueryAll _ _ => Some tt
      | Query _ sel =>
          if String.eqb sel activeInputSel || String.eqb sel downloadSel then Some tt else None
      | XPath _ x =>
          if String.eqb x textBtnX || String.eqb x addTextX || String.eqb x exportX
          then Some tt else None
      | KeyboardType _ _ _ => Some tt
      | EvaluateDownloadRef _ _ => Some tt
      | _ => None
      end
  end.

(** A path is under /tmp: the directory itself or something below it. *)
Definition under_tmp (p : string) : Prop :=
  p = "/tmp" \/ exists rest : string, p = ("/tmp/" ++ rest)%string.

(** The [..] segments of a name. *)
Definition has_dotdot (name : string) : bool :=
  existsb Path.is_dotdot (Path.split_on Path.slash (Path.chars name)).

(** page.$ for the active text input: one per turn of the caption loop
    that found the add-text control. *)
Definition text_entry_query_of (e : event) : option unit :=
  match e with
  | Ev c _ =>
      match c with
      | Query _ sel => if String.eqb sel activeInputSel then Some tt else None
      | _ => None
      end
  end.

(** The calls asset acquisition can make. *)
Definition staging_call (e : event) : Prop :=
  match e with
  | Ev c _ =>
      match c with
      | ExistsSync _ | MkdirSync _ _ | Console _ _
      | Fetch _ | ResBuffer _ | WriteFileSync _ _ => True
      | _ => False
      end
  end.

(** The local files of a list of URLs: asset_0, asset_1, ... each with the
    extension of its URL. *)
Fixpoint asset_files_from (i : nat) (urls : list string) : list string :=
  match urls with
  | [] => []
  | u :: rest => asset_filename i (Path.extname u) :: asset_files_from (S i) rest
  end.

Definition asset_files (urls : list string) : list string := asset_files_from 0 urls.

(** The extension given to a staged file: what precedes the first [?] of
    the URL's extension, or [.mp4] when that is empty. *)
Definition asset_suffix (ext : string) : string :=
  if String.eqb (before_question ext) EmptyString then ".mp4" else before_question ext.

(** The segments that resolving a path keeps when none of them is [..]. *)
Definition kept (seg : list ascii) : bool :=
  match seg with
  | [] => false
  | _ => negb (Path.is_dot seg)
  end.

(** Asset acquisition goes well: the staging directory can be checked and
    made, every asset URL is fetched with an ok response, every body can be
    read, and every file can be written. *)
Definition staging_succeeds (world : World) (urls : list string) : Prop :=
  forall h,
    (exists present, world bool h (ExistsSync tmpDir) = inr present)
    /\ world unit h (MkdirSync tmpDir true) = inr tt
    /\ (forall u, In u urls ->
                  exists res, world response h (Fetch (VStr u)) = inr res /\ ok res = true)
    /\ (forall res, exists data, world buffer h (ResBuffer res) = inr data)
    /\ (forall p data, world unit h (WriteFileSync p data) = inr tt).

(** ** What a run looks like at its two checkpoints *)

(** What the run looks like when the upload control is not found: the
    trace ends with the second query for the file input, the error log and
    browser.close(); the process exits with status 1 once the browser has
    closed; no call of a later step was made. *)
Definition upload_fatal (p : page) (b : browser) (r : result unit) (t : trace) : Prop :=
  exists closed,
    (exists pre,
       t = pre ++ [Ev (Query p fileInputSel) (inr None);
                   Ev (Console LError
                         [VStr "Upload step failed:";
                          VStr "Unable to find file input element on page. Inspect CapCut and update script selector."])
                      (inr tt);
                   Ev (BrowserClose b) closed])
    /\ r = match closed with inr _ => Exit 1 | inl e => Throw e end
    /\ pick later_step_of t = [].

(** What the run looks like when the wait for the download link fails with
    [err]: the trace ends with that wait, the warning and browser.close();
    the process exits with status 0 once the browser has closed. *)
Definition completion_timed_out (p : page) (b : browser) (err : exn)
           (r : result unit) (t : trace) : Prop :=
  exists closed,
    (exists pre,
       t = pre ++ [Ev (WaitForSelector p downloadSel 120000) (inl err);
                   Ev (Console LWarn
                         [VStr "Export/download polling failed (timeout or selector mismatch).";
                          VStr (message err)])
                      (inr tt);
                   Ev (BrowserClose b) closed])
    /\ r = match closed with inr _ => Exit 0 | inl e => Throw e end.

(** ** Properties of what a step adds to the trace *)

(** Every entry a computation adds to the trace satisfies [P]. *)
Definition emits (P : event -> Prop) {A} (m : M A) : Prop :=
  forall h, Forall P (snd (m h)).

(** A computation adds at most [n] entries that [f] recognises. *)
Definition at_most {O A} (f : event -> option O) (n : nat) (m : M A) : Prop :=
  forall h, List.length (pick f (snd (m h))) <= n.

(** ** Outcomes of steps *)

(** A computation never calls process.exit. *)
Definition never_exits {A} (m : M A) : Prop :=
  forall h c, fst (m h) <> Exit c.

(** A best-effort step: whatever the surroundings answer, it completes. *)
Definition always_completes (m : M unit) : Prop :=
  forall h, fst (m h) = Ok tt.

(** elementHandle.uploadFile(...files) that resolved: the files. *)
Definition uploaded_of (e : event) : option (list string) :=
  match e with
  | Ev c r =>
      match c with
      | UploadFile _ files => match r with inr _ => Some files | inl _ => None end
      | _ => None
      end
  end.

(** browser.close(), whatever it answered: the browser. *)
Definition close_of (e : event) : option browser :=
  match e with
  | Ev c _ => match c with BrowserClose b => Some b | _ => None end
  end.

(** How the process ends after [await browser.close(); process.exit(code)]:
    with that status, or with the rejection of browser.close(). *)
Definition exit_after_close (code : Z) (closed : exn + unit) : result unit :=
  match closed with
  | inr _ => Exit code
  | inl e => Throw e
  end.

(** A run that ends at browser.close(), the only one in its trace, and
    then with status [code]. *)
Definition closes_with (b : browser) (code : Z) (r : result unit) (t : trace) : Prop :=
  exists pre closed,
    t = pre ++ [Ev (BrowserClose b) closed]
    /\ r = exit_after_close code closed
    /\ pick close_of pre = [].

(** How a run ends once the editor page is open: in the catch block of the
    upload step, or at the end of the script. *)
Definition editor_ending (b : browser) (r : result unit) (t : trace) : Prop :=
  (exists pre msg closed,
      t = pre ++ [Ev (Console LError [VStr "Upload step failed:"; VStr msg]) (inr tt);
                  Ev (BrowserClose b) closed]
      /\ r = exit_after_close 1 closed
      /\ pick uploaded_of pre = []
      /\ pick close_of pre = [])
  \/ (exists pre closed,
         t = pre ++ [Ev (BrowserClose b) closed]
         /\ r = exit_after_close 0 closed
         /\ pick uploaded_of pre <> []
         /\ pick close_of pre = []).

(** The ways a run can end, with the end of its trace. *)
Inductive ending : result unit -> trace -> Prop :=
| rejected_payload :
    ending (Exit 1)
           [Ev (Console LError [VStr "Payload missing required fields. Example: assetUrls[]"])
               (inr tt)]
| asset_failed pre url st :
    Forall staging_call pre ->
    ending (Exit 1)
           (pre ++ [Ev (Console LError [VStr "Failed to download asset"; url; st]) (inr tt)])
| upload_failed pre msg b closed :
    pick uploaded_of pre = [] ->
    pick close_of pre = [] ->
    ending (exit_after_close 1 closed)
           (pre ++ [Ev (Console LError [VStr "Upload step failed:"; VStr msg]) (inr tt);
                    Ev (BrowserClose b) closed])
| completed pre b closed :
    pick uploaded_of pre <> [] ->
    pick close_of pre = [] ->
    ending (exit_after_close 0 closed) (pre ++ [Ev (BrowserClose b) closed])
| crashed err t :
    pick close_of t = [] ->
    ending (Throw err) t.

(** puppeteer.launch, browser.newPage, page.setViewport or page.goto that
    failed: the error. *)
Definition bootstrap_failure_of (e : event) : option exn :=
  match e with
  | Ev c r =>
      match c with
      | Launch _ _ _ | NewPage _ | SetViewport _ _ _ | Goto _ _ _ =>
          match r with inl err => Some err | inr _ => None end
      | _ => None
      end
  end.

Definition NavigationTimeout : exn :=
  mkExn "TimeoutError" "Navigation timeout of 30000 ms exceeded".

(** The editor page never settles: page.goto times out. *)
Definition editor_unreachable (X : Type) (c : call X) : option (exn + X) :=
  match c in call X return option (exn + X) with
  | Goto _ _ _ => Some (inl NavigationTimeout)
  | _ => None
  end.

(** page.type(selector, text, ...): where, what, and how it ended. *)
Definition page_type_of (e : event) : option (string * string * (exn + unit)) :=
  match e with
  | Ev c r =>
      match c in call X return (exn + X) -> option (string * string * (exn + unit)) with
      | PageType _ sel text _ => fun r => Some (sel, text, r)
      | _ => fun _ => None
      end r
  end.

(** page.$ for the email field (line 101) and how it ended. *)
Definition email_query_of (e : event) : option (exn + option handle) :=
  match e with
  | Ev c r =>
      match c in call X return (exn + X) -> option (exn + option handle) with
      | Query _ sel => fun r => if String.eqb sel emailSel then Some r else None
      | _ => fun _ => None
      end r
  end.

(** What a run may type with page.type: nothing; or, with both credentials
    configured and not empty, the email into the email field and, only when
    that call resolved, the password into the password field next. *)
Definition credentials_typed (rt : Runtime)
           (typed : list (string * string * (exn + unit))) : Prop :=
  typed = []
  \/ exists email password,
      CAPCUT_EMAIL rt = Some email /\ email <> EmptyString
      /\ CAPCUT_PASSWORD rt = Some password /\ password <> EmptyString
      /\ ((exists err, typed = [(emailSel, email, inl err)])
          \/ (exists r, typed = [(emailSel, email, inr tt); (pwSel, password, r)])).

Definition with_credentials : Runtime :=
  {| GITHUB_EVENT_PATH := Some "/github/workflow/event.json";
     CAPCUT_EMAIL := Some "render@toonvibes.example";
     CAPCUT_PASSWORD := Some "s3cret";
     CHROME_EXEC := None;
     Date_now := 1761004800000%N;
     ToNumber_object := ToNumber_object node_runtime;
     JSON_parse_wide := JSON_parse_wide node_runtime |}.

(** page.$$('.asset-thumb, .media-thumb, .thumbnail') that resolved: the
    thumbnails found. *)
Definition thumbs_found_of (e : event) : option (list handle) :=
  match e with
  | Ev c r =>
      match c in call X return (exn + X) -> option (list handle) with
      | QueryAll _ sel =>
          fun r => match r with
                   | inr thumbs => if String.eqb sel thumbSel then Some thumbs else None
                   | inl _ => None
                   end
      | _ => fun _ => None
      end r
  end.

(** elementHandle.click({ delay: 100 }), whatever it answered: the element.
    Only thumbnails are clicked with a delay. *)
Definition thumb_click_of (e : event) : option handle :=
  match e with
  | Ev c _ => match c with ElClick h (Some _) => Some h | _ => None end
  end.

(** Waiting for the thumbnails or querying them failed: the error. *)
Definition thumbs_failure_of (e : event) : option exn :=
  match e with
  | Ev c r =>
      match c with
      | WaitForSelector _ sel _ | QueryAll _ sel =>
          if String.eqb sel thumbSel
          then match r with inl err => Some err | inr _ => None end
          else None
      | _ => None
      end
  end.

(** A call of the caption part of the timeline step: one of its two XPath
    searches, the query for the text entry, focusing it, or typing. *)
Definition caption_call_of (e : event) : option unit :=
  match e with
  | Ev c _ =>
      match c with
      | XPath _ x => if String.eqb x textBtnX || String.eqb x addTextX then Some tt else None
      | Query _ sel => if String.eqb sel activeInputSel then Some tt else None
      | Focus _ => Some tt
      | KeyboardType _ _ _ => Some tt
      | _ => None
      end
  end.

(** The thumbnails never show up: the wait for them times out. *)
Definition thumbnails_never_show (X : Type) (c : call X) : option (exn + X) :=
  match c in call X return option (exn + X) with
  | WaitForSelector _ sel _ =>
      if String.eqb sel thumbSel then Some (inl TimeoutError) else None
  | _ => None
  end.

(** The paths of staged files, counted from [i]: the file of turn [k] is
    asset_k with a dotted extension, directly in the staging directory
    (nothing after [asset_] contains a slash). *)
Fixpoint staged_names (i : nat) (paths : list string) : Prop :=
  match paths with
  | [] => True
  | p :: rest =>
      (exists ext,
          p = (tmpDir ++ "/asset_" ++ JS.dec i ++ "." ++ ext)%string
          /\ Forall (fun c => c <> Path.slash) (Path.chars ext))
      /\ staged_names (S i) rest
  end.

(** elementHandle.click() without options, whatever it answered: the
    element. *)
Definition plain_click_of (e : event) : option handle :=
  match e with
  | Ev c _ => match c with ElClick h None => Some h | _ => None end
  end.

(** puppeteer.launch(options), whatever it answered: the options. *)
Definition launch_config_of (e : event) : option (string * list string * bool) :=
  match e with
  | Ev c _ =>
      match c with
      | Launch exec args headless => Some (exec, args, headless)
      | _ => None
      end
  end.

(** A file-system or network call of asset acquisition that failed: the
    error. *)
Definition staging_failure_of (e : event) : option exn :=
  match e with
  | Ev c r =>
      match c with
      | ExistsSync _ | MkdirSync _ _ | Fetch _ | ResBuffer _ | WriteFileSync _ _ =>
          match r with inl err => Some err | inr _ => None end
      | _ => None
      end
  end.

Definition NetworkError : exn :=
  mkExn "FetchError" "request to http://x/b.mp4 failed, reason: getaddrinfo ENOTFOUND x".

(** The host of the second asset cannot be resolved: its fetch rejects. *)
Definition second_asset_unreachable (X : Type) (c : call X) : option (exn + X) :=
  match c in call X return option (exn + X) with
  | Fetch url =>
      match url with
      | VStr u =>
          if String.eqb u "http://x/b.mp4" then Some (inl NetworkError) else None
      | _ => None
      end
  | _ => None
  end.

(** page.evaluate(el => el.href || el.getAttribute('data-url'), el) that
    resolved: the [href] and the [data-url] it read. *)
Definition download_ref_of (e : event) : option (value * value) :=
  match e with
  | Ev c r =>
      match c in call X return (exn + X) -> option (value * value) with
      | EvaluateDownloadRef _ _ =>
          fun r => match r with inr ref => Some ref | inl _ => None end
      | _ => fun _ => None
      end r
  end.

(** fetch(url), whatever it answered: the URL. *)
Definition fetched_url_of (e : event) : option value :=
  match e with
  | Ev c _ => match c with Fetch url => Some url | _ => None end
  end.

(** fetch(url) that resolved: the response. *)
Definition fetch_response_of (e : event) : option response :=
  match e with
  | Ev c r =>
      match c in call X return (exn + X) -> option response with
      | Fetch _ => fun r => match r with inr res => Some res | inl _ => None end
      | _ => fun _ => None
      end r
  end.

(** res.buffer(), whatever it answered: the response it was called on. *)
Definition body_request_of (e : event) : option response :=
  match e with
  | Ev c _ => match c with ResBuffer res => Some res | _ => None end
  end.

(** res.buffer() that resolved: the response and its body. *)
Definition body_of (e : event) : option (response * buffer) :=
  match e with
  | Ev c r =>
      match c in call X return (exn + X) -> option (response * buffer) with
      | ResBuffer res =>
          fun r => match r with inr data => Some (res, data) | inl _ => None end
      | _ => fun _ => None
      end r
  end.

(** fs.writeFileSync(path, data), returned or not: the path and the data. *)
Definition write_attempt_of (e : event) : option (string * buffer) :=
  match e with
  | Ev c _ => match c with WriteFileSync p data => Some (p, data) | _ => None end
  end.

(** The render service answers the artifact request with an error page. *)
Definition artifact_gone (X : Type) (c : call X) : option (exn + X) :=
  match c in call X return option (exn + X) with
  | Fetch url =>
      match url with
      | VStr u =>
          if String.eqb u "https://cdn.example/render.mp4"
          then Some (inr (mkResponse 9 false 404))
          else None
      | _ => None
      end
  | _ => None
  end.

(** The URLs fetched by the download loop, counted from [i]: the fetch of
    turn [k] is of [assetUrls[k]]. *)
Fixpoint fetched_in_order (assetUrls : value) (i : nat) (urls : list value) : Prop :=
  match urls with
  | [] => True
  | u :: rest => JS.index assetUrls i = inr u /\ fetched_in_order assetUrls (S i) rest
  end.

(** A job whose asset list is a single URL given as a string. *)
Definition string_assets_payload : value :=
  VObj [("assetUrls", VStr "http://x/a.mp4")].

(** The steps of the script once the editor page is open. *)
Inductive step : Type :=
| SLogin | SEmail | SProject | SUpload | STimeline | SExport | SPoll | SClose.

(** The call a step opens with, whatever it answered: the wait for the
    login button (line 90), the query for the email field (101), the pause
    of 1500 ms (122), a query for the file input (138, and again 148), the
    wait for the thumbnails (165), the search for the export button (219),
    the wait for the download link (233), browser.close() (157 and 256). *)
Definition step_of (e : event) : option step :=
  match e with
  | Ev c _ =>
      match c with
      | WaitForSelector _ sel _ =>
          if String.eqb sel loginSel then Some SLogin
          else if String.eqb sel thumbSel then Some STimeline
          else if String.eqb sel downloadSel then Some SPoll
          else None
      | Query _ sel =>
          if String.eqb sel emailSel then Some SEmail
          else if String.eqb sel fileInputSel then Some SUpload
          else None
      | WaitForTimeout _ ms => if Z.eqb ms 1500 then Some SProject else None
      | XPath _ x => if String.eqb x exportX then Some SExport else None
      | BrowserClose _ => Some SClose
      | _ => None
      end
  end.

(** elementHandle.uploadFile(...files), whatever it answered: the element
    and the files. *)
Definition upload_call_of (e : event) : option (handle * list string) :=
  match e with
  | Ev c _ => match c with UploadFile h files => Some (h, files) | _ => None end
  end.

(** ** What the caption loop types *)

(** What handing an entry to the typing call types: its text; nothing
    when the entry cannot be read (reading [text] off null or undefined
    throws before keyboard.type is called). *)
Definition entry_text (entry : value) : list value :=
  match caption_text entry with
  | inr text => [text]
  | inl _ => []
  end.

(** What turn [i] of the caption loop hands to keyboard.type: the text of
    [scriptObj[i]]. *)
Definition turn_text (scriptObj : value) (i : nat) : list value :=
  match JS.index scriptObj i with
  | inr entry => entry_text entry
  | inl _ => []
  end.

(** The texts of turns [i], ..., [i + n - 1], in order. *)
Fixpoint texts_from (scriptObj : value) (i n : nat) : list value :=
  match n with
  | O => []
  | S n' => turn_text scriptObj i ++ texts_from scriptObj (S i) n'
  end.

(** The values typed over [n] turns from counter [i] on: each turn types
    nothing or the text of its own entry. *)
Inductive typed_in_turns (scriptObj : value) : nat -> nat -> list value -> Prop :=
| turns_over i : typed_in_turns scriptObj i 0 []
| turn_silent i n typed :
    typed_in_turns scriptObj (S i) n typed ->
    typed_in_turns scriptObj i (S n) typed
| turn_types i n entry text typed :
    JS.index scriptObj i = inr entry ->
    caption_text entry = inr text ->
    typed_in_turns scriptObj (S i) n typed ->
    typed_in_turns scriptObj i (S n) (text :: typed).

(** page.$x for the add-text control (line 187) and how it ended. *)
Definition add_text_search_of (e : event) : option (exn + list handle) :=
  match e with
  | Ev c r =>
      match c in call X return (exn + X) -> option (exn + list handle) with
      | XPath _ x => fun r => if String.eqb x addTextX then Some r else None
      | _ => fun _ => None
      end r
  end.

(** The answer of the first search for the add-text control, and what
    follows it in the trace. *)
Fixpoint after_add_text_search (t : trace) : option ((exn + list handle) * trace) :=
  match t with
  | [] => None
  | e :: rest =>
      match add_text_search_of e with
      | Some r => Some (r, rest)
      | None => after_add_text_search rest
      end
  end.

(** page.$x for the export button (line 219). *)
Definition export_search_of (e : event) : option unit :=
  match e with
  | Ev c _ =>
      match c with
      | XPath _ x => if String.eqb x exportX then Some tt else None
      | _ => None
      end
  end.

(** The part of a trace before the first search for the export button. *)
Fixpoint before_export_search (t : trace) : trace :=
  match t with
  | [] => []
  | e :: rest =>
      match export_search_of e with
      | Some _ => []
      | None => e :: before_export_search rest
      end
  end.

(** The call resolved, and if it was a page.$ query it found an element. *)
Definition went_well (e : event) : bool :=
  match e with
  | Ev c r =>
      match c in call X return (exn + X) -> bool with
      | Query _ _ =>
          fun r => match r with inr (Some _) => true | _ => false end
      | _ => fun r => match r with inr _ => true | inl _ => false end
      end r
  end.

(** A job with three kinds of caption entry: a plain string, an object
    with a text, and an object without one. *)
Definition mixed_captions_payload : value :=
  VObj [("assetUrls", VArr [VStr "http://x/a.mp4"]);
        ("scriptText",
         VArr [VStr "Plain line";
               VObj [("time", VNum 0%Q); ("text", VStr "Hook")];
               VObj [("time", VNum 3%Q)]])].

(** A step that gets to the caption loop: when its trace holds a search
    for the add-text control that found one, what follows the search is the
    trace of the loop over [n] turns, nothing else is typed, and the step
    completes. *)
Definition caption_loop_follows (world : World) (p : page) (scriptObj : value) (n : nat)
           (r : result unit) (t : trace) : Prop :=
  forall btn rest calls,
    after_add_text_search t = Some (inr (btn :: rest), calls) ->
    r = Ok tt
    /\ (exists h, calls = snd (for_range n 0 (add_caption world p scriptObj (btn :: rest)) h))
    /\ pick typed_of t = pick typed_of calls.

(** ** Facts about traces and the script monad *)

Lemma pick_app {A} (f : event -> option A) (t1 t2 : trace) :
  pick f (t1 ++ t2) = pick f t1 ++ pick f t2.
Proof.
  induction t1 as [|e t1 IH]; simpl; [reflexivity|].
  destruct (f e); simpl; now rewrite IH.
Qed.

Lemma pick_silent {A} (f : event -> option A) (t : trace) :
  Forall (fun e => f e = None) t -> pick f t = [].
Proof.
  induction 1 as [|e t He _ IH]; simpl; [reflexivity|].
  now rewrite He.
Qed.

Lemma bind_run {A B} (m : M A) (f : A -> M B) h r t :
  bind m f h = (r, t) ->
  exists r1 t1, m h = (r1, t1) /\
    match r1 with
    | Ok a => exists t2, f a (h ++ t1) = (r, t2) /\ t = t1 ++ t2
    | Throw e => r = Throw e /\ t = t1
    | Exit c => r = Exit c /\ t = t1
    end.
Proof.
  unfold bind. destruct (m h) as [r1 t1]. intros H.
  exists r1, t1. split; [reflexivity|].
  destruct r1 as [a|e|c].
  - destruct (f a (h ++ t1)) as [r2 t2]. inversion H; subst. now exists t2.
  - inversion H; subst. now split.
  - inversion H; subst. now split.
Qed.

Lemma try_catch_run {A} (m : M A) (handler : exn -> M A) h r t :
  try_catch m handler h = (r, t) ->
  exists r1 t1, m h = (r1, t1) /\
    match r1 with
    | Throw e => exists t2, handler e (h ++ t1) = (r, t2) /\ t = t1 ++ t2
    | _ => r = r1 /\ t = t1
    end.
Proof.
  unfold try_catch. destruct (m h) as [r1 t1]. intros H.
  exists r1, t1. split; [reflexivity|].
  destruct r1 as [a|e|c].
  - inversion H; subst. now split.
  - destruct (handler e (h ++ t1)) as [r2 t2]. inversion H; subst. now exists t2.
  - inversion H; subst. now split.
Qed.

Lemma bind_eq {A B} (m : M A) (f : A -> M B) h :
  bind m f h =
  match fst (m h) with
  | Ok a => (fst (f a (h ++ snd (m h))), snd (m h) ++ snd (f a (h ++ snd (m h))))
  | Throw e => (Throw e, snd (m h))
  | Exit c => (Exit c, snd (m h))
  end.
Proof.
  unfold bind. destruct (m h) as [[a|e|c] t1]; cbn [fst snd]; try reflexivity.
  now destruct (f a (h ++ t1)).
Qed.

Lemma try_catch_eq {A} (m : M A) (handler : exn -> M A) h :
  try_catch m handler h =
  match fst (m h) with
  | Throw e =>
      (fst (handler e (h ++ snd (m h))), snd (m h) ++ snd (handler e (h ++ snd (m h))))
  | r => (r, snd (m h))
  end.
Proof.
  unfold try_catch. destruct (m h) as [[a|e|c] t1]; cbn [fst snd]; try reflexivity.
  now destruct (handler e (h ++ t1)).
Qed.

Lemma lift_bind {A B} (x : exn + A) (f : A -> M B) h :
  bind (lift x) f h =
  match x with
  | inl e => (Throw e, [])
  | inr a => f a h
  end.
Proof.
  destruct x as [e|a]; [reflexivity|].
  unfold bind, lift, ret. rewrite app_nil_r.
  now destruct (f a h).
Qed.

Lemma ret_bind {A B} (a : A) (f : A -> M B) h : bind (ret a) f h = f a h.
Proof. apply (lift_bind (inr a)). Qed.

Lemma emits_ret P {A} (a : A) : emits P (ret a).
Proof. intros h. constructor. Qed.

Lemma emits_throw P {A} (e : exn) : emits P (@throw A e).
Proof. intros h. constructor. Qed.

Lemma emits_exit P {A} (c : Z) : emits P (@process_exit A c).
Proof. intros h. constructor. Qed.

Lemma emits_lift P {A} (x : exn + A) : emits P (lift x).
Proof. destruct x; [apply emits_throw | apply emits_ret]. Qed.

Lemma emits_lift_bind P {A B} (x : exn + A) (f : A -> M B) :
  (forall a, x = inr a -> emits P (f a)) -> emits P (bind (lift x) f).
Proof.
  intros Hf h. rewrite lift_bind. destruct x as [e|a]; [constructor|].
  now apply Hf.
Qed.

Lemma emits_bind P {A B} (m : M A) (f : A -> M B) :
  emits P m -> (forall a, emits P (f a)) -> emits P (bind m f).
Proof.
  intros Hm Hf h. unfold bind.
  specialize (Hm h). destruct (m h) as [r1 t1]. simpl in Hm.
  destruct r1 as [a|e|c]; simpl; try assumption.
  specialize (Hf a (h ++ t1)). destruct (f a (h ++ t1)) as [r2 t2]. simpl in *.
  apply Forall_app. now split.
Qed.

Lemma emits_try_catch P {A} (m : M A) (handler : exn -> M A) :
  emits P m -> (forall e, emits P (handler e)) -> emits P (try_catch m handler).
Proof.
  intros Hm Hf h. unfold try_catch.
  specialize (Hm h). destruct (m h) as [r1 t1]. simpl in Hm.
  destruct r1 as [a|e|c]; simpl; try assumption.
  specialize (Hf e (h ++ t1)). destruct (handler e (h ++ t1)) as [r2 t2]. simpl in *.
  apply Forall_app. now split.
Qed.

Lemma emits_for_range P n start (body : nat -> M unit) :
  (forall i, emits P (body i)) -> emits P (for_range n start body).
Proof.
  intros Hb. revert start.
  induction n as [|n IH]; intros start; simpl.
  - apply emits_ret.
  - apply emits_bind; [apply Hb | intros _; apply IH].
Qed.

Lemma emits_for_each P {A} (l : list A) (body : A -> M unit) :
  (forall x, emits P (body x)) -> emits P (for_each l body).
Proof.
  intros Hb. induction l as [|x l IH]; simpl.
  - apply emits_ret.
  - apply emits_bind; [apply Hb | intros _; apply IH].
Qed.

Lemma emits_weaken (P Q : event -> Prop) {A} (m : M A) :
  (forall e, P e -> Q e) -> emits P m -> emits Q m.
Proof.
  intros HPQ Hm h. eapply Forall_impl; [exact HPQ | apply Hm].
Qed.

Section Calls.

Variable rt : Runtime.
Variable world : World.

Lemma emits_perform P {X} (c : call X) :
  (forall r, P (Ev c r)) -> emits P (perform world c).
Proof. intros H h. simpl. constructor; [apply H | constructor]. Qed.

Lemma emits_console P lvl args :
  P (Ev (Console lvl args) (inr tt)) -> emits P (console lvl args).
Proof. intros H h. simpl. constructor; [exact H | constructor]. Qed.

Lemma perform_run {X} (c : call X) h :
  perform world c h =
  (match world X h c with inl e => Throw e | inr x => Ok x end,
   [Ev c (world X h c)]).
Proof. reflexivity. Qed.

End Calls.

(** Goes through a step of the script, leaving one goal for each entry it
    can add to the trace. *)
Ltac emits_step :=
  lazymatch goal with
  | |- emits _ (bind (lift _) _) => apply emits_lift_bind; intros
  | |- emits _ (bind _ _) => apply emits_bind; [| intros]
  | |- emits _ (try_catch _ _) => apply emits_try_catch; [| intros]
  | |- emits _ (perform _ _) => apply emits_perform; intro
  | |- emits _ (console _ _) => apply emits_console
  | |- emits _ (ret _) => apply emits_ret
  | |- emits _ (throw _) => apply emits_throw
  | |- emits _ (process_exit _) => apply emits_exit
  | |- emits _ (lift _) => apply emits_lift
  | |- emits _ (for_range _ _ _) => apply emits_for_range; intros
  | |- emits _ (for_each _ _) => apply emits_for_each; intros
  | |- emits _ (match ?x with _ => _ end) => destruct x eqn:?
  end.

Ltac emits_steps := repeat emits_step.

(** ** Payload validation (lines 34-38) *)

Section Validation.

Variable rt : Runtime.
Variable world : World.

(** The check of line 35 never throws and either lets the run go on without
    a trace entry or logs the error and exits with status 1. *)
Lemma validate_run payload h :
  validate payload h =
  match JS.prop payload "assetUrls" with
  | inr urls =>
      if JS.truthy payload && JS.truthy urls then (Ok tt, [])
      else (Exit 1,
            [Ev (Console LError [VStr "Payload missing required fields. Example: assetUrls[]"])
                (inr tt)])
  | inl _ =>
      (Exit 1,
       [Ev (Console LError [VStr "Payload missing required fields. Example: assetUrls[]"])
           (inr tt)])
  end.
Proof.
  destruct payload as [| |b|q|s|l|fs]; try reflexivity.
  - destruct b; reflexivity.
  - unfold validate, bind. simpl. destruct (negb (Qeq_bool q 0)); reflexivity.
  - unfold validate, bind. simpl. destruct (negb (String.eqb s "")); reflexivity.
  - unfold validate, bind. simpl.
    destruct (JS.truthy match JS.lookup "assetUrls" fs with Some x => x | None => VUndef end);
      reflexivity.
Qed.

End Validation.

(** C1 (amended): a payload whose [assetUrls] is missing, or holds a falsy
    value (null, false, 0, the empty string), makes the run log the error and
    exit with status 1; nothing else happens, so puppeteer.launch is never
    called. *)
Theorem missing_assetUrls_exits_before_launch
        (rt : Runtime) (world : World) (payload : value) :
  match JS.prop payload "assetUrls" with
  | inr urls => JS.truthy urls = false
  | inl _ => True
  end ->
  run rt world payload =
    (Exit 1,
     [Ev (Console LError [VStr "Payload missing required fields. Example: assetUrls[]"])
         (inr tt)])
  /\ pick launch_of (snd (run rt world payload)) = [].
Proof.
  intros Hmissing.
  assert (Hrun : run rt world payload =
    (Exit 1,
     [Ev (Console LError [VStr "Payload missing required fields. Example: assetUrls[]"])
         (inr tt)])).
  { unfold run, script, bind at 1. rewrite validate_run.
    destruct (JS.prop payload "assetUrls") as [e|urls]; [reflexivity|].
    rewrite Hmissing, andb_false_r. reflexivity. }
  rewrite Hrun. split; reflexivity.
Qed.

Lemma missing_assetUrls_exits_before_launch_witness :
  run node_runtime happy_world (VObj [("scriptText", VStr "Hook")]) =
    (Exit 1,
     [Ev (Console LError [VStr "Payload missing required fields. Example: assetUrls[]"])
         (inr tt)])
  /\ pick launch_of (snd (run node_runtime happy_world (VObj [("scriptText", VStr "Hook")]))) = [].
Proof.
  apply (missing_assetUrls_exits_before_launch
           node_runtime happy_world (VObj [("scriptText", VStr "Hook")])).
  reflexivity.
Defined.

(** C1 (as stated) fails for the empty list: an empty array is truthy, the
    check of line 35 lets it through, no asset is fetched, and the run goes
    on to puppeteer.launch and ends with status 0. *)
Lemma empty_assetUrls_reaches_launch :
  fst (run node_runtime happy_world (VObj [("assetUrls", VArr [])])) = Exit 0
  /\ pick launch_of (snd (run node_runtime happy_world (VObj [("assetUrls", VArr [])]))) = [tt].
Proof. split; vm_compute; reflexivity. Qed.

(** ** The fields the script reads *)

(** C9: the run reads the payload only through [assetUrls], [outputName]
    and [scriptText].  Two payloads that agree on every field other than
    [sfx] and [template] give the same run against the same surroundings:
    the same outcome and the same trace, call for call. *)
Theorem sfx_and_template_are_inert
        (rt : Runtime) (world : World) (fields1 fields2 : list (string * value)) :
  (forall k, k <> "sfx" -> k <> "template" -> JS.lookup k fields1 = JS.lookup k fields2) ->
  run rt world (VObj fields1) = run rt world (VObj fields2).
Proof.
  intros Hsame.
  assert (Ha : JS.lookup "assetUrls" fields1 = JS.lookup "assetUrls" fields2)
    by (apply Hsame; discriminate).
  assert (Ho : JS.lookup "outputName" fields1 = JS.lookup "outputName" fields2)
    by (apply Hsame; discriminate).
  assert (Hs : JS.lookup "scriptText" fields1 = JS.lookup "scriptText" fields2)
    by (apply Hsame; discriminate).
  unfold run, script, validate, OUTPUT_NAME, stage_assets, drive_editor,
    timeline, captions.
  cbn [JS.prop JS.truthy].
  rewrite Ha, Ho, Hs.
  reflexivity.
Qed.

Lemma sfx_and_template_are_inert_witness :
  run node_runtime happy_world
      (VObj [("assetUrls", VArr [VStr "http://x/a.mp4"]);
             ("sfx", VArr [VStr "boing.mp3"]); ("template", VStr "hybrid_action_meme_v2")])
  = run node_runtime happy_world
      (VObj [("assetUrls", VArr [VStr "http://x/a.mp4"]); ("sfx", VNull)]).
Proof.
  apply sfx_and_template_are_inert.
  intros k Hsfx Htemplate. simpl.
  destruct (String.eqb_spec k "sfx") as [->|_]; [now elim Hsfx|].
  destruct (String.eqb_spec k "template") as [->|_]; [now elim Htemplate|].
  reflexivity.
Defined.

(** ** Running the calls of the script *)

Section Execution.

Variable rt : Runtime.
Variable world : World.

Lemma perform_bind {X B} (c : call X) (f : X -> M B) h :
  bind (perform world c) f h =
  match world X h c with
  | inl e => (Throw e, [Ev c (inl e)])
  | inr x =>
      (fst (f x (h ++ [Ev c (inr x)])),
       Ev c (inr x) :: snd (f x (h ++ [Ev c (inr x)])))
  end.
Proof.
  unfold bind, perform.
  destruct (world X h c) as [e|x]; [reflexivity|].
  now destruct (f x (h ++ [Ev c (inr x)])).
Qed.

Lemma console_bind {B} lvl args (f : unit -> M B) h :
  bind (console lvl args) f h =
  (fst (f tt (h ++ [Ev (Console lvl args) (inr tt)])),
   Ev (Console lvl args) (inr tt) :: snd (f tt (h ++ [Ev (Console lvl args) (inr tt)]))).
Proof.
  unfold bind, console.
  now destruct (f tt (h ++ [Ev (Console lvl args) (inr tt)])).
Qed.

End Execution.

(** ** Asset acquisition (lines 46-64) *)

Section Staging.

Variable rt : Runtime.
Variable world : World.

Lemma download_assets_calls assetUrls n :
  forall i localFiles,
    emits staging_call (download_assets world assetUrls n i localFiles).
Proof.
  induction n as [|n IH]; intros i localFiles; cbn [download_assets].
  - apply emits_ret.
  - emits_steps; try exact I. apply IH.
Qed.

Lemma stage_assets_calls payload :
  emits staging_call (stage_assets rt world payload).
Proof.
  unfold stage_assets. emits_steps; try exact I. apply download_assets_calls.
Qed.

(** Lines 52-64: a fetch answered with a response that is not ok is the
    last call of the loop; the error is logged and the process exits. *)
Lemma download_assets_failed_fetch assetUrls e url res :
  failed_fetch_of e = Some (url, res) ->
  forall n i localFiles h,
    In e (snd (download_assets world assetUrls n i localFiles h)) ->
    fst (download_assets world assetUrls n i localFiles h) = Exit 1
    /\ exists pre,
        snd (download_assets world assetUrls n i localFiles h) =
        pre ++ [e; Ev (Console LError [VStr "Failed to download asset"; url;
                                       VNum (inject_Z (status res))]) (inr tt)].
Proof.
  intros Hfail.
  induction n as [|n IH]; intros i localFiles h; [intros []|].
  cbn [download_assets].
  rewrite lift_bind. destruct (JS.index assetUrls i) as [err|u]; [intros []|].
  rewrite lift_bind. destruct (path_extname u) as [err|ext]; [intros []|].
  rewrite perform_bind. destruct (world response h (Fetch u)) as [err|res'] eqn:Hw.
  - intros [<-|[]]. discriminate Hfail.
  - destruct (ok res') eqn:Hok; cbn [negb].
    + rewrite perform_bind.
      destruct (world _ _ (ResBuffer res')) as [err|data].
      { cbn [fst snd]. intros [<-|[<-|[]]]; [|discriminate Hfail].
        cbn in Hfail. now rewrite Hok in Hfail. }
      rewrite perform_bind.
      destruct (world _ _ (WriteFileSync _ _)) as [err|[]].
      { cbn [fst snd]. intros [<-|[<-|[<-|[]]]]; try discriminate Hfail.
        cbn in Hfail. now rewrite Hok in Hfail. }
      rewrite console_bind. cbn [fst snd].
      intros [<-|[<-|[<-|[<-|Hin]]]]; try discriminate Hfail.
      { cbn in Hfail. now rewrite Hok in Hfail. }
      destruct (IH _ _ _ Hin) as [Hexit [pre Hpre]].
      split; [exact Hexit|].
      rewrite Hpre.
      eexists (_ :: _ :: _ :: _ :: pre). reflexivity.
    + rewrite console_bind. cbn [fst snd].
      intros [<-|[<-|[]]]; [|discriminate Hfail].
      cbn in Hfail. rewrite Hok in Hfail. injection Hfail as <- <-.
      split; [reflexivity|]. now exists [].
Qed.

Lemma stage_assets_failed_fetch payload e url res h :
  failed_fetch_of e = Some (url, res) ->
  In e (snd (stage_assets rt world payload h)) ->
  fst (stage_assets rt world payload h) = Exit 1
  /\ exists pre,
      snd (stage_assets rt world payload h) =
      pre ++ [e; Ev (Console LError [VStr "Failed to download asset"; url;
                                     VNum (inject_Z (status res))]) (inr tt)].
Proof.
  intros Hfail. unfold stage_assets.
  rewrite perform_bind. destruct (world bool h (ExistsSync tmpDir)) as [err|present].
  { intros [<-|[]]. discriminate Hfail. }
  assert (Hloop : forall h' (pre0 : trace),
    Forall (fun e' => failed_fetch_of e' = None) pre0 ->
    let m := (console LLog [VStr "Downloading assets..."] ;;
              assetUrls <- lift (JS.prop payload "assetUrls") ;;
              n <- lift (turns rt (fun len => len) assetUrls) ;;
              download_assets world assetUrls n 0 []) in
    In e (pre0 ++ snd (m h')) ->
    fst (m h') = Exit 1
    /\ exists pre, pre0 ++ snd (m h') =
         pre ++ [e; Ev (Console LError [VStr "Failed to download asset"; url;
                                        VNum (inject_Z (status res))]) (inr tt)]).
  { intros h' pre0 Hpre0 m Hin. subst m.
    rewrite console_bind in *. cbn [fst snd] in *.
    rewrite lift_bind in *.
    apply in_app_or in Hin. destruct Hin as [Hin|[<-|Hin]].
    - rewrite Forall_forall in Hpre0. rewrite (Hpre0 _ Hin) in Hfail. discriminate.
    - discriminate Hfail.
    - destruct (JS.prop payload "assetUrls") as [err|assetUrls]; [destruct Hin|].
      rewrite lift_bind in *.
      destruct (turns rt (fun len => len) assetUrls) as [err|n]; [destruct Hin|].
      destruct (download_assets_failed_fetch assetUrls e url res Hfail _ _ _ _ Hin)
        as [Hexit [pre Hpre]].
      split; [exact Hexit|]. rewrite Hpre.
      exists (pre0 ++ Ev (Console LLog [VStr "Downloading assets..."]) (inr tt) :: pre).
      rewrite <- app_assoc. reflexivity. }
  destruct present.
  - rewrite ret_bind. cbn [fst snd]. intros Hin.
    apply (Hloop _ [Ev (ExistsSync tmpDir) (inr true)]); [|exact Hin].
    repeat constructor.
  - rewrite perform_bind.
    destruct (world unit _ (MkdirSync tmpDir true)) as [err|[]].
    { cbn [fst snd]. intros [<-|[<-|[]]]; discriminate Hfail. }
    cbn [fst snd]. intros Hin.
    apply (Hloop _ [Ev (ExistsSync tmpDir) (inr false); Ev (MkdirSync tmpDir true) (inr tt)]);
      [|exact Hin].
    repeat constructor.
Qed.

End Staging.

Lemma staging_call_no_launch e : staging_call e -> launch_of e = None.
Proof. destruct e as [X c r]. destruct c; simpl; intros H; try reflexivity; destruct H. Qed.

Lemma before_launch_silent t1 t2 :
  Forall (fun e => launch_of e = None) t1 ->
  before_launch (t1 ++ t2) = t1 ++ before_launch t2.
Proof.
  induction 1 as [|e t1 He _ IH]; simpl; [reflexivity|].
  now rewrite He, IH.
Qed.

Lemma since_launch_silent t1 t2 :
  Forall (fun e => launch_of e = None) t1 ->
  since_launch (t1 ++ t2) = since_launch t2.
Proof.
  induction 1 as [|e t1 He _ IH]; simpl; [reflexivity|].
  now rewrite He, IH.
Qed.

Lemma before_launch_quiet t :
  Forall (fun e => launch_of e = None) t -> before_launch t = t.
Proof.
  intros H. rewrite <- (app_nil_r t) at 1.
  rewrite before_launch_silent by exact H. apply app_nil_r.
Qed.

Section Launching.

Variable rt : Runtime.
Variable world : World.

(** Whatever follows, the first call after asset acquisition is
    puppeteer.launch. *)
Lemma open_editor_launches_first {B} (f : browser * page -> M B) h :
  exists c r rest,
    snd (bind (open_editor rt world) f h) = @Ev browser c r :: rest
    /\ launch_of (Ev c r) = Some tt.
Proof.
  unfold open_editor. rewrite bind_eq, perform_bind.
  destruct (world browser h _) as [err|b]; cbn [fst snd].
  - now eexists _, _, _.
  - destruct (fst _); cbn [snd]; now eexists _, _, _.
Qed.

(** C5: when, during asset acquisition (before any puppeteer.launch), a
    fetch is answered with a response that is not ok, the process exits
    with status 1; the only thing recorded after that fetch is the error
    log, so no later URL is fetched; and puppeteer.launch is never
    called. *)
Theorem failed_asset_fetch_is_fatal (payload : value) e url res :
  In e (before_launch (snd (run rt world payload))) ->
  failed_fetch_of e = Some (url, res) ->
  fst (run rt world payload) = Exit 1
  /\ (exists pre,
        snd (run rt world payload) =
        pre ++ [e; Ev (Console LError [VStr "Failed to download asset"; url;
                                       VNum (inject_Z (status res))]) (inr tt)])
  /\ pick launch_of (snd (run rt world payload)) = [].
Proof.
  intros Hin Hfail. unfold run, script in *.
  rewrite bind_eq, validate_run in *.
  destruct (JS.prop payload "assetUrls") as [err|urls];
    [destruct Hin as [<-|[]]; discriminate Hfail|].
  destruct (JS.truthy payload && JS.truthy urls);
    [|destruct Hin as [<-|[]]; discriminate Hfail].
  cbn [fst snd app] in *. rewrite lift_bind in *.
  destruct (OUTPUT_NAME rt payload) as [err|outputName]; [destruct Hin|].
  rewrite bind_eq in *.
  pose proof (stage_assets_calls rt world payload []) as Hcalls.
  assert (Hquiet : Forall (fun e => launch_of e = None)
                          (snd (stage_assets rt world payload [])))
    by (eapply Forall_impl; [apply staging_call_no_launch | exact Hcalls]).
  assert (Hstage : In e (snd (stage_assets rt world payload []))).
  { destruct (fst (stage_assets rt world payload [])) as [files|err|code];
      cbn [snd] in Hin.
    - rewrite before_launch_silent in Hin by exact Hquiet.
      destruct (open_editor_launches_first
                  (fun bp => drive_editor rt world (fst bp) (snd bp) payload outputName files)
                  ([] ++ snd (stage_assets rt world payload [])))
        as (c & r & rest & Hrest & Hlaunch).
      rewrite Hrest in Hin. cbn [before_launch] in Hin. rewrite Hlaunch in Hin.
      now rewrite app_nil_r in Hin.
    - now rewrite before_launch_quiet in Hin.
    - now rewrite before_launch_quiet in Hin. }
  destruct (stage_assets_failed_fetch rt world payload e url res [] Hfail Hstage)
    as [Hexit [pre Hpre]].
  rewrite Hexit. cbn [fst snd]. split; [reflexivity|]. split.
  - now exists pre.
  - apply pick_silent. exact Hquiet.
Qed.

End Launching.

Lemma asset_files_from_length i urls : List.length (asset_files_from i urls) = List.length urls.
Proof. revert i. induction urls as [|u urls IH]; intros i; simpl; [reflexivity|]. now rewrite IH. Qed.

Lemma turns_array rt (l : list value) :
  turns rt (fun len => len) (VArr l) = inr (List.length l).
Proof.
  unfold turns. cbn. now rewrite Qceiling_Z, Nat2Z.id.
Qed.

Section StagingArrays.

Variable rt : Runtime.
Variable world : World.

(** Lines 52-64 over an array: when the loop completes, every element was
    a string, and the files written and collected are those of the
    elements, in their order. *)
Lemma download_assets_array (todo : list value) :
  forall (done : list value) localFiles h files,
    fst (download_assets world (VArr (done ++ todo)) (List.length todo)
                         (List.length done) localFiles h) = Ok files ->
    exists urls,
      todo = map VStr urls
      /\ files = localFiles ++ asset_files_from (List.length done) urls
      /\ pick written_of
              (snd (download_assets world (VArr (done ++ todo)) (List.length todo)
                                    (List.length done) localFiles h))
         = asset_files_from (List.length done) urls.
Proof.
  induction todo as [|u todo IH]; intros done localFiles h files.
  - cbn. intros [= <-]. exists []. now rewrite app_nil_r.
  - cbn [List.length download_assets].
    rewrite lift_bind. cbn [JS.index]. rewrite nth_middle.
    rewrite lift_bind.
    destruct u as [| | | |s| |]; cbn [path_extname]; try discriminate.
    rewrite perform_bind. destruct (world response h _) as [err|res]; [discriminate|].
    destruct (ok res); cbn [negb]; [|rewrite console_bind; discriminate].
    rewrite perform_bind. destruct (world _ _ (ResBuffer res)) as [err|data]; [discriminate|].
    rewrite perform_bind. destruct (world _ _ (WriteFileSync _ _)) as [err|[]]; [discriminate|].
    rewrite console_bind. cbn [fst snd].
    assert (Hlen : List.length (done ++ [VStr s]) = S (List.length done))
      by (rewrite length_app; simpl; lia).
    pose proof (IH (done ++ [VStr s])) as IH'.
    rewrite Hlen, <- app_assoc in IH'. cbn [app] in IH'.
    intros Hok. destruct (IH' _ _ _ Hok) as (urls & -> & -> & Hw).
    exists (s :: urls). split; [reflexivity|]. split.
    + now rewrite <- app_assoc.
    + cbn [pick written_of asset_files_from]. now rewrite Hw.
Qed.

End StagingArrays.

Section Uploading.

Variable rt : Runtime.
Variable world : World.

(** The only files ever handed to uploadFile are the staged ones. *)
Lemma drive_editor_uploads b p payload outputName localFiles :
  emits (fun e => forall files, upload_of e = Some files -> files = localFiles)
        (drive_editor rt world b p payload outputName localFiles).
Proof.
  unfold drive_editor, login_button, email_login, create_project, upload,
    timeline, captions, add_caption, export, poll_and_download, finish.
  emits_steps;
    try (intros files Hfiles; cbn in Hfiles;
         first [discriminate Hfiles | now injection Hfiles as <-]).
Qed.

End Uploading.

(** ** File names of staged assets *)

Module PathFacts.

Import Path.

Lemma chars_app (a b : string) : chars (a ++ b) = chars a ++ chars b.
Proof. induction a as [|c a IH]; simpl; [reflexivity|]. now rewrite IH. Qed.

Lemma str_chars (s : string) : str (chars s) = s.
Proof. apply string_of_list_ascii_of_string. Qed.

Lemma chars_str (l : list ascii) : chars (str l) = l.
Proof. apply list_ascii_of_string_of_list_ascii. Qed.

Lemma chars_inj (a b : string) : chars a = chars b -> a = b.
Proof. intros H. rewrite <- (str_chars a), <- (str_chars b). now rewrite H. Qed.

Lemma split_on_plain c (l : list ascii) :
  Forall (fun x => x <> c) l -> split_on c l = [l].
Proof.
  induction 1 as [|x l Hx _ IH]; simpl; [reflexivity|].
  apply Ascii.eqb_neq in Hx. now rewrite Hx, IH.
Qed.

Lemma split_on_app c (l1 l2 : list ascii) :
  Forall (fun x => x <> c) l1 ->
  split_on c (l1 ++ c :: l2) = l1 :: split_on c l2.
Proof.
  induction 1 as [|x l Hx _ IH]; simpl.
  - now rewrite Ascii.eqb_refl.
  - apply Ascii.eqb_neq in Hx. now rewrite Hx, IH.
Qed.

Lemma take_until_keeps (P : ascii -> Prop) c (l : list ascii) :
  Forall P l -> Forall P (take_until c l).
Proof.
  induction 1 as [|x l Hx _ IH]; simpl; [constructor|].
  destruct (Ascii.eqb x c); constructor; assumption.
Qed.

Lemma take_until_free c (l : list ascii) : Forall (fun x => x <> c) (take_until c l).
Proof.
  induction l as [|x l IH]; simpl; [constructor|].
  destruct (Ascii.eqb_spec x c); constructor; assumption.
Qed.

Lemma cut_at_dot_keeps (P : ascii -> Prop) (r after before : list ascii) :
  Forall P r -> cut_at_dot r = Some (after, before) -> Forall P after.
Proof.
  intros H. revert after before.
  induction H as [|x r Hx _ IH]; simpl; intros after before; [discriminate|].
  destruct (Ascii.eqb x dot).
  - intros [= <- _]. constructor.
  - destruct (cut_at_dot r) as [[a b]|]; [|discriminate].
    intros [= <- _]. constructor; [assumption | now apply (IH a b)].
Qed.

(** An extension holds no separator, and is empty or starts with a dot. *)
Lemma extname_chars_plain (p : list ascii) :
  Forall (fun x => x <> slash) (extname_chars p).
Proof.
  unfold extname_chars, last_component. rewrite rev_involutive.
  destruct (cut_at_dot _) as [[after before]|] eqn:Hcut; [|constructor].
  destruct before; [constructor|].
  destruct (is_dotdot _); constructor; [discriminate|].
  apply Forall_rev. eapply cut_at_dot_keeps; [|exact Hcut].
  apply take_until_free.
Qed.

Lemma extname_chars_dot (p : list ascii) :
  extname_chars p = [] \/ exists rest, extname_chars p = dot :: rest.
Proof.
  unfold extname_chars.
  destruct (cut_at_dot _) as [[after before]|]; [|now left].
  destruct before; [now left|].
  destruct (is_dotdot _); [now left | right; now eexists].
Qed.

Lemma ends_with_slash_plain (l : list ascii) :
  Forall (fun x => x <> slash) l -> ends_with_slash l = false.
Proof.
  intros H. unfold ends_with_slash.
  apply Forall_rev in H. destruct (rev l) as [|x r]; [reflexivity|].
  simpl. inversion H; subst. now apply Ascii.eqb_neq.
Qed.

Lemma ends_with_slash_app (a b : list ascii) :
  b <> [] -> ends_with_slash (a ++ b) = ends_with_slash b.
Proof.
  intros Hb. unfold ends_with_slash. rewrite rev_app_distr.
  destruct (rev b) as [|x r] eqn:Hr; [|reflexivity].
  apply (f_equal (@rev ascii)) in Hr. rewrite rev_involutive in Hr. now elim Hb.
Qed.

Lemma normalize_chars_absolute (p : list ascii) :
  starts_with_slash p = true -> ends_with_slash p = false ->
  normalize_chars p = slash :: join_with slash (resolve false [] (split_on slash p)).
Proof.
  intros Hs He. unfold normalize_chars.
  destruct p as [|c p]; [discriminate|].
  rewrite Hs, He. cbn [negb].
  now destruct (join_with slash _).
Qed.

(** Joining the staging directory with a name that starts with [asset_] and
    holds no separator only puts a separator between them. *)
Lemma join_tmpDir_asset (rest : string) :
  Forall (fun x => x <> slash) (chars rest) ->
  join tmpDir ("asset_" ++ rest) = (tmpDir ++ "/asset_" ++ rest)%string.
Proof.
  intros Hrest.
  set (name := chars "asset_" ++ chars rest).
  assert (Hname : Forall (fun x => x <> slash) name).
  { apply Forall_app. split; [|exact Hrest]. repeat constructor; discriminate. }
  assert (Hjoin : join tmpDir ("asset_" ++ rest) =
                  str (normalize_chars (chars tmpDir ++ slash :: name))).
  { unfold join. rewrite chars_app. reflexivity. }
  rewrite Hjoin. apply chars_inj. rewrite chars_str.
  rewrite normalize_chars_absolute.
  - change (chars tmpDir ++ slash :: name) with
      ([] ++ slash :: chars "tmp" ++ slash :: chars "capcut_assets" ++ slash :: name).
    rewrite split_on_app by constructor.
    rewrite split_on_app by (repeat constructor; discriminate).
    rewrite split_on_app by (repeat constructor; discriminate).
    rewrite split_on_plain by exact Hname.
    rewrite !chars_app. reflexivity.
  - reflexivity.
  - change (chars tmpDir ++ slash :: name) with ((chars tmpDir ++ [slash]) ++ name).
    rewrite ends_with_slash_app by discriminate.
    apply ends_with_slash_plain, Hname.
Qed.

Lemma dec_chars (i : nat) :
  Forall (fun x => x <> slash /\ x <> dot) (chars (JS.dec i)).
Proof.
  unfold JS.dec. induction (Nat.to_uint i) as [|d IH|d IH|d IH|d IH|d IH|d IH|d IH|d IH|d IH|d IH];
    simpl; constructor; try assumption; split; discriminate.
Qed.

Lemma dec_inj (i j : nat) : JS.dec i = JS.dec j -> i = j.
Proof.
  unfold JS.dec. intros H.
  apply DecimalNat.Unsigned.to_uint_inj.
  apply (f_equal NilEmpty.uint_of_string) in H.
  rewrite !NilEmpty.usu in H. now injection H.
Qed.

Lemma asset_suffix_chars (u : string) :
  Forall (fun x => x <> slash) (chars (asset_suffix (extname u)))
  /\ exists rest, chars (asset_suffix (extname u)) = dot :: rest.
Proof.
  unfold asset_suffix.
  destruct (String.eqb_spec (before_question (extname u)) EmptyString) as [_|Hne].
  - split; [repeat constructor; discriminate | now eexists].
  - unfold before_question, extname in *. rewrite chars_str in *.
    rewrite chars_str. split.
    + apply take_until_keeps, extname_chars_plain.
    + destruct (extname_chars_dot (chars u)) as [Hnil|[rest Hrest]].
      * rewrite Hnil in Hne. now elim Hne.
      * rewrite Hrest. cbn. now eexists.
Qed.

Lemma asset_filename_eq (i : nat) (u : string) :
  asset_filename i (extname u) =
  (tmpDir ++ "/asset_" ++ JS.dec i ++ asset_suffix (extname u))%string.
Proof.
  unfold asset_filename. fold (asset_suffix (extname u)).
  apply join_tmpDir_asset. rewrite chars_app. apply Forall_app. split.
  - eapply Forall_impl; [|apply dec_chars]. now intros x [Hx _].
  - apply asset_suffix_chars.
Qed.

Lemma digits_before_dot (d1 d2 r1 r2 : list ascii) :
  Forall (fun x => x <> dot) d1 -> Forall (fun x => x <> dot) d2 ->
  d1 ++ dot :: r1 = d2 ++ dot :: r2 -> d1 = d2.
Proof.
  intros H1. revert d2.
  induction H1 as [|x d1 Hx _ IH]; intros d2 H2 Heq.
  - destruct H2 as [|y d2 Hy _]; [reflexivity|].
    injection Heq as <- _. now elim Hy.
  - destruct H2 as [|y d2 Hy H2].
    + injection Heq as -> _. now elim Hx.
    + injection Heq as <- Heq. f_equal. now apply IH.
Qed.

(** Files staged under different counters have different names. *)
Lemma asset_filename_inj (i j : nat) (u v : string) :
  asset_filename i (extname u) = asset_filename j (extname v) -> i = j.
Proof.
  rewrite !asset_filename_eq. intros H.
  apply (f_equal chars) in H. rewrite !chars_app in H.
  apply app_inv_head in H. apply app_inv_head in H.
  destruct (asset_suffix_chars u) as [_ [ru Hu]].
  destruct (asset_suffix_chars v) as [_ [rv Hv]].
  rewrite Hu, Hv in H.
  apply dec_inj, chars_inj.
  eapply digits_before_dot; [| |exact H];
    (eapply Forall_impl; [|apply dec_chars]; now intros x [_ Hx]).
Qed.

Lemma asset_files_from_counters (i : nat) (urls : list string) (f : string) :
  In f (asset_files_from i urls) ->
  exists j u, i <= j /\ f = asset_filename j (extname u).
Proof.
  revert i. induction urls as [|u urls IH]; intros i; simpl; [intros []|].
  intros [<-|Hin].
  - now exists i, u.
  - destruct (IH _ Hin) as (j & v & Hj & ->). exists j, v. split; [lia | reflexivity].
Qed.

Lemma asset_files_from_NoDup (i : nat) (urls : list string) :
  NoDup (asset_files_from i urls).
Proof.
  revert i. induction urls as [|u urls IH]; intros i; simpl; constructor.
  - intros Hin. apply asset_files_from_counters in Hin.
    destruct Hin as (j & v & Hj & Heq).
    apply asset_filename_inj in Heq. lia.
  - apply IH.
Qed.

End PathFacts.

Lemma pick_Forall {A} (f : event -> option A) (Q : A -> Prop) (t : trace) :
  Forall (fun e => forall a, f e = Some a -> Q a) t -> Forall Q (pick f t).
Proof.
  induction 1 as [|e t He _ IH]; simpl; [constructor|].
  destruct (f e) as [a|]; [constructor; auto | exact IH].
Qed.

Lemma staging_call_no_upload e : staging_call e -> upload_of e = None.
Proof. destruct e as [X c r]. destruct c; simpl; intros H; try reflexivity; destruct H. Qed.

Section StagedFiles.

Variable rt : Runtime.
Variable world : World.

Lemma stage_assets_array payload urls h files :
  JS.prop payload "assetUrls" = inr (VArr urls) ->
  fst (stage_assets rt world payload h) = Ok files ->
  exists strs,
    urls = map VStr strs
    /\ files = asset_files strs
    /\ pick written_of (snd (stage_assets rt world payload h)) = asset_files strs.
Proof.
  intros Hurls. unfold stage_assets.
  rewrite perform_bind. destruct (world bool h (ExistsSync tmpDir)) as [err|present];
    [discriminate|].
  assert (Hloop : forall h',
    let m := (console LLog [VStr "Downloading assets..."] ;;
              assetUrls <- lift (JS.prop payload "assetUrls") ;;
              n <- lift (turns rt (fun len => len) assetUrls) ;;
              download_assets world assetUrls n 0 []) in
    fst (m h') = Ok files ->
    exists strs,
      urls = map VStr strs /\ files = asset_files strs
      /\ pick written_of (snd (m h')) = asset_files strs).
  { intros h' m. subst m. rewrite console_bind, lift_bind, Hurls, lift_bind, turns_array.
    cbn [fst snd pick written_of].
    intros Hok.
    destruct (download_assets_array world urls [] [] _ files Hok) as (strs & H1 & H2 & H3).
    exists strs. auto. }
  destruct present.
  - rewrite ret_bind. cbn [fst snd pick written_of]. apply Hloop.
  - rewrite perform_bind.
    destruct (world unit _ (MkdirSync tmpDir true)) as [err|[]]; [discriminate|].
    cbn [fst snd pick written_of]. apply Hloop.
Qed.

(** A run that got as far as puppeteer.launch staged one file per URL, in
    order, under different names, and uploads exactly those. *)
Lemma launched_run_staged_files (payload : value) (urls : list value) :
  JS.prop payload "assetUrls" = inr (VArr urls) ->
  pick launch_of (snd (run rt world payload)) <> [] ->
  exists strs,
    urls = map VStr strs
    /\ pick written_of (before_launch (snd (run rt world payload))) = asset_files strs
    /\ List.length (asset_files strs) = List.length urls
    /\ NoDup (asset_files strs)
    /\ pick upload_of (before_launch (snd (run rt world payload))) = []
    /\ Forall (fun files => files = asset_files strs)
              (pick upload_of (snd (run rt world payload))).
Proof.
  intros Hurls Hlaunched. unfold run, script in *.
  rewrite bind_eq, validate_run, Hurls in *.
  cbn [JS.truthy] in *. rewrite andb_true_r in *.
  destruct (JS.truthy payload); [|now elim Hlaunched].
  cbn [fst snd app] in *. rewrite lift_bind in *.
  destruct (OUTPUT_NAME rt payload) as [err|outputName]; [now elim Hlaunched|].
  rewrite bind_eq in *.
  pose proof (stage_assets_calls rt world payload []) as Hcalls.
  assert (Hquiet : Forall (fun e => launch_of e = None)
                          (snd (stage_assets rt world payload [])))
    by (eapply Forall_impl; [apply staging_call_no_launch | exact Hcalls]).
  assert (Hnoup : pick upload_of (snd (stage_assets rt world payload [])) = []).
  { apply pick_silent. eapply Forall_impl; [apply staging_call_no_upload | exact Hcalls]. }
  destruct (fst (stage_assets rt world payload [])) as [files|err|code] eqn:Hstage;
    cbn [fst snd] in *;
    try (elim Hlaunched; now apply pick_silent).
  destruct (stage_assets_array payload urls [] files Hurls Hstage) as (strs & -> & -> & Hw).
  exists strs. split; [reflexivity|].
  rewrite before_launch_silent by exact Hquiet.
  destruct (open_editor_launches_first rt world
              (fun bp => drive_editor rt world (fst bp) (snd bp) payload outputName
                                      (asset_files strs))
              ([] ++ snd (stage_assets rt world payload [])))
    as (c & r & rest & Hrest & Hfirst).
  assert (Hbefore : before_launch
            (snd (bind (open_editor rt world)
                       (fun bp => drive_editor rt world (fst bp) (snd bp) payload outputName
                                               (asset_files strs))
                       ([] ++ snd (stage_assets rt world payload [])))) = []).
  { rewrite Hrest. cbn [before_launch]. now rewrite Hfirst. }
  rewrite Hbefore, app_nil_r.
  split; [exact Hw|].
  split; [unfold asset_files; now rewrite asset_files_from_length, length_map|].
  split; [apply PathFacts.asset_files_from_NoDup|].
  split; [exact Hnoup|].
  rewrite pick_app, Hnoup. cbn [app].
  apply pick_Forall.
  apply (emits_bind (fun e => forall a, upload_of e = Some a -> a = asset_files strs)).
  - unfold open_editor. emits_steps; intros fs Hfs; discriminate Hfs.
  - intros bp. apply drive_editor_uploads.
Qed.

Lemma download_assets_completes (urls : list string) (Hgood : staging_succeeds world urls)
      (todo : list string) :
  forall (done : list string) localFiles h,
    urls = done ++ todo ->
    fst (download_assets world (VArr (map VStr urls)) (List.length todo)
                         (List.length done) localFiles h)
    = Ok (localFiles ++ asset_files_from (List.length done) todo).
Proof.
  induction todo as [|u todo IH]; intros done localFiles h Hurls.
  - cbn. now rewrite app_nil_r.
  - cbn [List.length download_assets].
    rewrite lift_bind. cbn [JS.index].
    assert (Hnth : nth (List.length done) (map VStr urls) VUndef = VStr u).
    { rewrite Hurls, map_app. cbn [map].
      rewrite <- (length_map VStr done). apply nth_middle. }
    rewrite Hnth, lift_bind. cbn [path_extname].
    destruct (Hgood h) as (_ & _ & Hfetch & _).
    destruct (Hfetch u) as (res & Hres & Hok).
    { rewrite Hurls. apply in_or_app. right. now left. }
    rewrite perform_bind, Hres, Hok. cbn [negb].
    destruct (Hgood (h ++ [Ev (Fetch (VStr u)) (inr res)])) as (_ & _ & _ & Hbuf & _).
    destruct (Hbuf res) as (data & Hdata).
    rewrite perform_bind, Hdata.
    rewrite perform_bind.
    match goal with
    | |- context [world unit ?h' (WriteFileSync ?p ?d)] =>
        destruct (Hgood h') as (_ & _ & _ & _ & Hwrite); rewrite (Hwrite p d)
    end.
    rewrite console_bind. cbn [fst snd].
    assert (Hlen : List.length (done ++ [u]) = S (List.length done))
      by (rewrite length_app; simpl; lia).
    rewrite <- Hlen. rewrite IH by (now rewrite <- app_assoc).
    rewrite Hlen. cbn [asset_files_from]. now rewrite <- app_assoc.
Qed.

Lemma stage_assets_completes payload (urls : list string) h :
  staging_succeeds world urls ->
  JS.prop payload "assetUrls" = inr (VArr (map VStr urls)) ->
  fst (stage_assets rt world payload h) = Ok (asset_files urls).
Proof.
  intros Hgood Hprop. unfold stage_assets.
  assert (Hloop : forall h',
    fst ((console LLog [VStr "Downloading assets..."] ;;
          assetUrls <- lift (JS.prop payload "assetUrls") ;;
          n <- lift (turns rt (fun len => len) assetUrls) ;;
          download_assets world assetUrls n 0 []) h') = Ok (asset_files urls)).
  { intros h'. rewrite console_bind, lift_bind, Hprop, lift_bind, turns_array.
    cbn [fst]. rewrite length_map.
    apply (download_assets_completes urls Hgood urls [] []). reflexivity. }
  destruct (Hgood h) as ([present Hpresent] & _).
  rewrite perform_bind, Hpresent. destruct present.
  - rewrite ret_bind. cbn [fst]. apply Hloop.
  - rewrite perform_bind.
    destruct (Hgood (h ++ [Ev (ExistsSync tmpDir) (inr false)])) as (_ & Hmk & _).
    rewrite Hmk. cbn [fst]. apply Hloop.
Qed.

(** When asset acquisition goes well the run goes on to puppeteer.launch. *)
Lemma staging_reaches_launch payload (urls : list string) :
  staging_succeeds world urls ->
  JS.prop payload "assetUrls" = inr (VArr (map VStr urls)) ->
  pick launch_of (snd (run rt world payload)) <> [].
Proof.
  intros Hgood Hprop. unfold run, script.
  rewrite bind_eq, validate_run, Hprop.
  destruct payload as [| | | | | |fields]; try discriminate Hprop.
  cbn [JS.truthy andb fst snd app]. rewrite lift_bind.
  cbn [OUTPUT_NAME JS.prop]. rewrite bind_eq.
  rewrite (stage_assets_completes _ urls [] Hgood Hprop). cbn [fst snd].
  rewrite pick_app.
  destruct (open_editor_launches_first rt world
              (fun bp => drive_editor rt world (fst bp) (snd bp) (VObj fields)
                           (JS.or match JS.lookup "outputName" fields with
                                  | Some x => x | None => VUndef end
                                  (VStr (default_output_name rt)))
                           (asset_files urls))
              ([] ++ snd (stage_assets rt world (VObj fields) [])))
    as (c & r & rest & Hrest & Hfirst).
  rewrite Hrest. cbn [pick]. rewrite Hfirst.
  intros H. apply app_eq_nil in H. destruct H as [_ H]. discriminate H.
Qed.

(** C6: for a payload whose [assetUrls] is a list of N URLs,
    (1) a run that gets past asset acquisition (it calls puppeteer.launch,
        which precedes the upload step) has by then written exactly N
        files, asset_0 ... asset_(N-1) with the extension of their URL, one
        per URL and in the order of the URLs, all under different names;
        the list handed to uploadFile is that list; nothing is uploaded
        before the launch;
    (2) when every asset is fetched with an ok response, read and written
        without error, the run does get that far. *)
Theorem staged_files_follow_urls (payload : value) (urls : list value) :
  JS.prop payload "assetUrls" = inr (VArr urls) ->
  (pick launch_of (snd (run rt world payload)) <> [] ->
   exists strs,
     urls = map VStr strs
     /\ pick written_of (before_launch (snd (run rt world payload))) = asset_files strs
     /\ List.length (asset_files strs) = List.length urls
     /\ NoDup (asset_files strs)
     /\ pick upload_of (before_launch (snd (run rt world payload))) = []
     /\ Forall (fun files => files = asset_files strs)
               (pick upload_of (snd (run rt world payload))))
  /\ (forall strs,
        urls = map VStr strs ->
        staging_succeeds world strs ->
        pick launch_of (snd (run rt world payload)) <> []).
Proof.
  intros Hurls. split.
  - now apply launched_run_staged_files.
  - intros strs -> Hgood. now apply staging_reaches_launch with (urls := strs).
Qed.

End StagedFiles.

(** ** Stepping over the steps that cannot matter *)

(** If the step [m] adds nothing that [f] recognises, a run of [m ;; k]
    in which [f] recognises something went through [m] into [k]; a property
    of the run of [k] that survives a prefix of entries satisfying [Q] then
    holds of the whole. *)
Lemma step_over {A B} (Q : event -> Prop) (Post : result B -> trace -> Prop)
      (m : M A) (k : A -> M B) h :
  emits Q m ->
  (forall r t1, Forall Q t1 -> Post r t1) ->
  (forall t1 r t2, Forall Q t1 -> Post r t2 -> Post r (t1 ++ t2)) ->
  (forall a h', Post (fst (k a h')) (snd (k a h'))) ->
  Post (fst (bind m k h)) (snd (bind m k h)).
Proof.
  intros Hm Hquiet Hclosed Hk. rewrite bind_eq.
  specialize (Hm h).
  destruct (fst (m h)) as [a|e|c]; cbn [fst snd]; try now apply Hquiet.
  apply Hclosed; [exact Hm | apply Hk].
Qed.

Lemma suffix_intro {A} (t s : list A) :
  skipn (List.length t - List.length s) t = s -> exists pre, t = pre ++ s.
Proof.
  intros H. exists (firstn (List.length t - List.length s) t).
  pose proof (firstn_skipn (List.length t - List.length s) t) as Hsplit.
  rewrite H in Hsplit. now symmetry.
Qed.

Section Inversion.

Variable world : World.

Lemma perform_bind_inv {X B} (c : call X) (f : X -> M B) h r t :
  bind (perform world c) f h = (r, t) ->
  match world X h c with
  | inl e => r = Throw e /\ t = [Ev c (inl e)]
  | inr x => exists t', f x (h ++ [Ev c (inr x)]) = (r, t') /\ t = Ev c (inr x) :: t'
  end.
Proof.
  rewrite perform_bind. destruct (world X h c) as [e|x].
  - intros [= <- <-]. now split.
  - destruct (f x _) as [r' t']. cbn [fst snd]. intros [= <- <-]. now exists t'.
Qed.

Lemma perform_inv {X} (c : call X) h r t :
  perform world c h = (r, t) ->
  match world X h c with
  | inl e => r = Throw e /\ t = [Ev c (inl e)]
  | inr x => r = Ok x /\ t = [Ev c (inr x)]
  end.
Proof.
  rewrite perform_run. destruct (world X h c); intros [= <- <-]; now split.
Qed.

Lemma console_bind_inv {B} lvl args (f : unit -> M B) h r t :
  bind (console lvl args) f h = (r, t) ->
  exists t', f tt (h ++ [Ev (Console lvl args) (inr tt)]) = (r, t')
             /\ t = Ev (Console lvl args) (inr tt) :: t'.
Proof.
  rewrite console_bind. destruct (f tt _) as [r' t']. cbn [fst snd].
  intros [= <- <-]. now exists t'.
Qed.

Lemma console_inv lvl args h (r : result unit) t :
  console lvl args h = (r, t) ->
  r = Ok tt /\ t = [Ev (Console lvl args) (inr tt)].
Proof. intros [= <- <-]. now split. Qed.

End Inversion.

Lemma ret_inv {A} (a : A) h r t : ret a h = (r, t) -> r = Ok a /\ t = [].
Proof. intros [= <- <-]. now split. Qed.

Lemma throw_inv {A} (e : exn) h (r : result A) t : throw e h = (r, t) -> r = Throw e /\ t = [].
Proof. intros [= <- <-]. now split. Qed.

Lemma exit_inv {A} (c : Z) h (r : result A) t :
  process_exit c h = (r, t) -> r = Exit c /\ t = [].
Proof. intros [= <- <-]. now split. Qed.

(** Takes apart one hypothesis that says how a step of the script ran,
    splitting on the answer of the surroundings where there is one. *)
Ltac run_inv world :=
  match goal with
  | H : bind (perform world ?c) _ ?h = (_, _) |- _ =>
      apply perform_bind_inv in H;
      let a := fresh "answer" in
      destruct (world _ h c) as [?err|a]
  | H : perform world ?c ?h = (_, _) |- _ =>
      apply perform_inv in H;
      let a := fresh "answer" in
      destruct (world _ h c) as [?err|a]
  | H : bind (console _ _) _ _ = (_, _) |- _ => apply console_bind_inv in H
  | H : console _ _ _ = (_, _) |- _ => apply console_inv in H
  | H : bind (lift ?x) _ _ = (_, _) |- _ =>
      rewrite lift_bind in H;
      let a := fresh "value" in
      destruct x as [?err|a] eqn:?
  | H : bind (ret _) _ _ = (_, _) |- _ => rewrite ret_bind in H
  | H : ret _ _ = (_, _) |- _ => apply ret_inv in H
  | H : throw _ _ = (_, _) |- _ => apply throw_inv in H
  | H : process_exit _ _ = (_, _) |- _ => apply exit_inv in H
  | H : try_catch _ _ _ = (_, _) |- _ => apply try_catch_run in H
  | H : bind _ _ _ = (_, _) |- _ => apply bind_run in H
  | H : (match ?x with _ => _ end) _ = (_, _) |- _ => is_var x; destruct x
  | H : (if ?x then _ else _) _ = (_, _) |- _ => destruct x eqn:?
  | H : exists _, _ |- _ => destruct H as (? & H)
  | H : _ /\ _ |- _ => destruct H as [? ?]
  | H : (_, _) = (_, _) |- _ => injection H as ? ?
  | H : ?x = _ |- _ => is_var x; subst x
  | H : _ = ?x |- _ => is_var x; subst x
  | H : match ?r with Ok _ => _ | Throw _ => _ | Exit _ => _ end |- _ =>
      progress cbn beta iota in H
  end.

Section UploadStep.

Variable rt : Runtime.
Variable world : World.

Lemma upload_fatal_prefix p b t1 r t2 :
  Forall (fun e => later_step_of e = None) t1 ->
  upload_fatal p b r t2 -> upload_fatal p b r (t1 ++ t2).
Proof.
  intros Hq (closed & [pre ->] & -> & Hlater). exists closed. split; [|split].
  - exists (t1 ++ pre). now rewrite app_assoc.
  - reflexivity.
  - rewrite pick_app, Hlater, app_nil_r. now apply pick_silent.
Qed.

Lemma upload_not_found b p localFiles (k : unit -> M unit) h :
  pick file_input_of (snd ((upload world b p localFiles ;; k tt) h))
    = [inr None; inr None] ->
  upload_fatal p b (fst ((upload world b p localFiles ;; k tt) h))
               (snd ((upload world b p localFiles ;; k tt) h)).
Proof.
  destruct ((upload world b p localFiles ;; k tt) h) as [r t] eqn:Hrun.
  cbn [fst snd]. unfold upload in Hrun.
  repeat run_inv world.
  all: intros Hpick; cbn [pick file_input_of app] in Hpick.
  all: try discriminate Hpick.
  all: eexists; (split; [apply suffix_intro; reflexivity | split; reflexivity]).
Qed.

Lemma staging_call_before_upload e :
  staging_call e -> file_input_of e = None /\ later_step_of e = None.
Proof. destruct e as [X c r]. destruct c; simpl; intros H; try (now split); destruct H. Qed.

(** C7: when both queries for the file input (the direct one and the one
    after the fallback click) find nothing, the run is fatal: what follows
    the second query is only the error log and browser.close(), the process
    exits with status 1 (unless browser.close() itself rejects, which ends
    the run with that rejection), and no call of the timeline, caption,
    export or polling steps is ever made. *)
Theorem missing_upload_control_is_fatal (payload : value) :
  pick file_input_of (snd (run rt world payload)) = [inr None; inr None] ->
  exists p b, upload_fatal p b (fst (run rt world payload)) (snd (run rt world payload)).
Proof.
  set (Q := fun e => file_input_of e = None /\ later_step_of e = None).
  set (Post := fun (r : result unit) (t : trace) =>
                 pick file_input_of t = [inr None; inr None] ->
                 exists p b, upload_fatal p b r t).
  assert (Hquiet : forall r t1, Forall Q t1 -> Post r t1).
  { intros r t1 Ht1 Hpick. rewrite pick_silent in Hpick; [discriminate|].
    eapply Forall_impl; [|exact Ht1]. now intros e [He _]. }
  assert (Hclosed : forall t1 r t2, Forall Q t1 -> Post r t2 -> Post r (t1 ++ t2)).
  { intros t1 r t2 Ht1 Hpost Hpick. rewrite pick_app, pick_silent in Hpick.
    - destruct (Hpost Hpick) as (p & b & Hfatal). exists p, b.
      apply upload_fatal_prefix; [|exact Hfatal].
      eapply Forall_impl; [|exact Ht1]. now intros e [_ He].
    - eapply Forall_impl; [|exact Ht1]. now intros e [He _]. }
  change (Post (fst (run rt world payload)) (snd (run rt world payload))).
  unfold run, script.
  apply step_over with (Q := Q); [|exact Hquiet|exact Hclosed|intros _ h1].
  { unfold validate. emits_steps; now split. }
  apply step_over with (Q := Q); [|exact Hquiet|exact Hclosed|intros outputName h2].
  { emits_steps. }
  apply step_over with (Q := Q); [|exact Hquiet|exact Hclosed|intros localFiles h3].
  { eapply emits_weaken; [apply staging_call_before_upload | apply stage_assets_calls]. }
  apply step_over with (Q := Q); [|exact Hquiet|exact Hclosed|intros [b p] h4].
  { unfold open_editor. emits_steps; now split. }
  unfold drive_editor. cbn [fst snd].
  apply step_over with (Q := Q); [|exact Hquiet|exact Hclosed|intros _ h5].
  { unfold login_button. emits_steps; now split. }
  apply step_over with (Q := Q); [|exact Hquiet|exact Hclosed|intros _ h6].
  { unfold email_login. emits_steps; now split. }
  apply step_over with (Q := Q); [|exact Hquiet|exact Hclosed|intros _ h7].
  { unfold create_project. emits_steps; now split. }
  intros Hpick. exists p, b.
  apply (upload_not_found b p localFiles
           (fun _ => timeline rt world p payload ;; export world p ;;
                     poll_and_download world p outputName ;; finish world b)).
  exact Hpick.
Qed.

End UploadStep.

(** ** Completion poll and artifact retrieval (lines 231-257) *)

Section PollStep.

Variable rt : Runtime.
Variable world : World.

Lemma completion_timed_out_prefix p b err t1 r t2 :
  completion_timed_out p b err r t2 -> completion_timed_out p b err r (t1 ++ t2).
Proof.
  intros (closed & [pre ->] & ->). exists closed. split; [|reflexivity].
  exists (t1 ++ pre). now rewrite app_assoc.
Qed.

Lemma poll_times_out p b outputName err h :
  pick completion_wait_of
       (snd ((poll_and_download world p outputName ;; finish world b) h)) = [inl err] ->
  completion_timed_out p b err
    (fst ((poll_and_download world p outputName ;; finish world b) h))
    (snd ((poll_and_download world p outputName ;; finish world b) h))
  /\ pick write_of
          (snd ((poll_and_download world p outputName ;; finish world b) h)) = [].
Proof.
  destruct ((poll_and_download world p outputName ;; finish world b) h) as [r t] eqn:Hrun.
  cbn [fst snd]. unfold poll_and_download, finish in Hrun.
  repeat run_inv world.
  all: intros Hpick; cbn in Hpick.
  all: try discriminate Hpick.
  all: injection Hpick as ->.
  all: split; [eexists; split; [apply suffix_intro|]|]; reflexivity.
Qed.

Lemma staging_call_no_wait e :
  staging_call e -> completion_wait_of e = None /\ launch_of e = None.
Proof. destruct e as [X c r]. destruct c; simpl; intros H; try (now split); destruct H. Qed.

Lemma since_launch_quiet t :
  Forall (fun e => launch_of e = None) t -> since_launch t = [].
Proof.
  intros H. rewrite <- (app_nil_r t). now rewrite since_launch_silent.
Qed.

Lemma open_editor_since_launch {B} (f : browser * page -> M B) h :
  since_launch (snd (bind (open_editor rt world) f h))
  = snd (bind (open_editor rt world) f h).
Proof.
  destruct (open_editor_launches_first rt world f h) as (c & r & rest & -> & Hfirst).
  cbn [since_launch]. now rewrite Hfirst.
Qed.

(** C8 (amended): when the bounded wait (120 s) for the download link
    fails, the run logs the warning and calls browser.close(); nothing is
    written after the launch, so there is no output artifact.  The process
    then exits with status 0 if browser.close() resolves; if it rejects,
    the run ends with that rejection, uncaught, and not with status 0. *)
Theorem completion_timeout_is_soft (payload : value) (err : exn) :
  pick completion_wait_of (snd (run rt world payload)) = [inl err] ->
  (exists p b,
      completion_timed_out p b err (fst (run rt world payload)) (snd (run rt world payload)))
  /\ pick write_of (since_launch (snd (run rt world payload))) = [].
Proof.
  set (Q1 := fun e => completion_wait_of e = None /\ launch_of e = None).
  set (Q2 := fun e => completion_wait_of e = None /\ write_of e = None).
  set (Pre := fun (r : result unit) (t : trace) =>
                pick completion_wait_of t = [inl err] ->
                (exists p b, completion_timed_out p b err r t)
                /\ pick write_of (since_launch t) = []).
  set (Post := fun (r : result unit) (t : trace) =>
                 pick completion_wait_of t = [inl err] ->
                 (exists p b, completion_timed_out p b err r t)
                 /\ pick write_of t = []).
  assert (Hwait1 : forall t1, Forall Q1 t1 -> pick completion_wait_of t1 = []).
  { intros t1 Ht1. apply pick_silent. eapply Forall_impl; [|exact Ht1]. now intros e [He _]. }
  assert (Hwait2 : forall t1, Forall Q2 t1 -> pick completion_wait_of t1 = []).
  { intros t1 Ht1. apply pick_silent. eapply Forall_impl; [|exact Ht1]. now intros e [He _]. }
  assert (Hquiet1 : forall r t1, Forall Q1 t1 -> Pre r t1).
  { intros r t1 Ht1 Hpick. rewrite (Hwait1 _ Ht1) in Hpick. discriminate. }
  assert (Hquiet2 : forall r t1, Forall Q2 t1 -> Post r t1).
  { intros r t1 Ht1 Hpick. rewrite (Hwait2 _ Ht1) in Hpick. discriminate. }
  assert (Hclosed1 : forall t1 r t2, Forall Q1 t1 -> Pre r t2 -> Pre r (t1 ++ t2)).
  { intros t1 r t2 Ht1 Hpost Hpick. rewrite pick_app, (Hwait1 _ Ht1) in Hpick.
    destruct (Hpost Hpick) as [(p & b & Hshape) Hnone]. split.
    - exists p, b. now apply completion_timed_out_prefix.
    - rewrite since_launch_silent; [exact Hnone|].
      eapply Forall_impl; [|exact Ht1]. now intros e [_ He]. }
  assert (Hclosed2 : forall t1 r t2, Forall Q2 t1 -> Post r t2 -> Post r (t1 ++ t2)).
  { intros t1 r t2 Ht1 Hpost Hpick. rewrite pick_app, (Hwait2 _ Ht1) in Hpick.
    destruct (Hpost Hpick) as [(p & b & Hshape) Hnone]. split.
    - exists p, b. now apply completion_timed_out_prefix.
    - rewrite pick_app, Hnone, app_nil_r. apply pick_silent.
      eapply Forall_impl; [|exact Ht1]. now intros e [_ He]. }
  change (Pre (fst (run rt world payload)) (snd (run rt world payload))).
  unfold run, script.
  apply step_over with (Q := Q1); [|exact Hquiet1|exact Hclosed1|intros _ h1].
  { unfold validate. emits_steps; now split. }
  apply step_over with (Q := Q1); [|exact Hquiet1|exact Hclosed1|intros outputName h2].
  { emits_steps. }
  apply step_over with (Q := Q1); [|exact Hquiet1|exact Hclosed1|intros localFiles h3].
  { eapply emits_weaken; [apply staging_call_no_wait | apply stage_assets_calls]. }
  unfold Pre. rewrite open_editor_since_launch.
  change (Post (fst (bind (open_editor rt world)
                          (fun bp => drive_editor rt world (fst bp) (snd bp) payload
                                                  outputName localFiles) h3))
               (snd (bind (open_editor rt world)
                          (fun bp => drive_editor rt world (fst bp) (snd bp) payload
                                                  outputName localFiles) h3))).
  apply step_over with (Q := Q2); [|exact Hquiet2|exact Hclosed2|intros [b p] h4].
  { unfold open_editor. emits_steps; now split. }
  unfold drive_editor. cbn [fst snd].
  apply step_over with (Q := Q2); [|exact Hquiet2|exact Hclosed2|intros _ h5].
  { unfold login_button. emits_steps; now split. }
  apply step_over with (Q := Q2); [|exact Hquiet2|exact Hclosed2|intros _ h6].
  { unfold email_login. emits_steps; now split. }
  apply step_over with (Q := Q2); [|exact Hquiet2|exact Hclosed2|intros _ h7].
  { unfold create_project. emits_steps; now split. }
  apply step_over with (Q := Q2); [|exact Hquiet2|exact Hclosed2|intros _ h8].
  { unfold upload. emits_steps; now split. }
  apply step_over with (Q := Q2); [|exact Hquiet2|exact Hclosed2|intros _ h9].
  { unfold timeline, captions, add_caption. emits_steps; now split. }
  apply step_over with (Q := Q2); [|exact Hquiet2|exact Hclosed2|intros _ h10].
  { unfold export. emits_steps; now split. }
  intros Hpick.
  destruct (poll_times_out p b outputName err h10 Hpick) as [Hshape Hnone].
  split; [now exists p, b | exact Hnone].
Qed.

End PollStep.

(** ** Where the artifact is written *)

Module ArtifactPath.

Import Path PathFacts.

(** Without [..] segments, resolving only drops the empty and [.] ones. *)
Lemma resolve_without_dotdot (allowAboveRoot : bool) (segs acc : list (list ascii)) :
  existsb is_dotdot segs = false ->
  resolve allowAboveRoot acc segs = rev acc ++ filter kept segs.
Proof.
  revert acc. induction segs as [|seg segs IH]; intros acc Hno.
  - cbn. now rewrite app_nil_r.
  - cbn [existsb] in Hno. apply orb_false_iff in Hno. destruct Hno as [Hseg Hsegs].
    cbn [resolve filter].
    destruct seg as [|c seg]; [now apply IH|].
    unfold kept. destruct (is_dot (c :: seg)); cbn [negb]; [now apply IH|].
    rewrite Hseg. rewrite IH by exact Hsegs. cbn [rev].
    now rewrite <- app_assoc.
Qed.

(** path.join('/tmp', name) stays under /tmp when [name] has no [..]
    segment. *)
Lemma join_tmp_under (name : string) :
  has_dotdot name = false -> under_tmp (join "/tmp" name).
Proof.
  unfold has_dotdot, join. intros Hno.
  change (chars "/tmp") with ([] ++ slash :: chars "tmp").
  destruct (chars name) as [|c cs] eqn:Hname.
  - left. reflexivity.
  - cbn [app]. set (p := slash :: chars "tmp" ++ slash :: c :: cs).
    assert (Hp : split_on slash p = [] :: chars "tmp" :: split_on slash (c :: cs)).
    { unfold p. change (slash :: chars "tmp" ++ slash :: c :: cs)
        with ([] ++ slash :: chars "tmp" ++ slash :: c :: cs).
      rewrite split_on_app by constructor.
      rewrite split_on_app by (repeat constructor; discriminate).
      reflexivity. }
    assert (Hbody : exists rest,
               join_with slash (resolve false [] (split_on slash p))
               = chars "tmp" ++ rest
               /\ (rest = [] \/ exists rest', rest = slash :: rest')).
    { rewrite Hp.
      change (resolve false [] ([] :: chars "tmp" :: split_on slash (c :: cs)))
        with (resolve false [chars "tmp"] (split_on slash (c :: cs))).
      rewrite resolve_without_dotdot by exact Hno. cbn [rev app].
      destruct (filter kept (split_on slash (c :: cs))) as [|seg segs].
      - exists []. split; [now rewrite app_nil_r | now left].
      - exists (slash :: join_with slash (seg :: segs)). split; [reflexivity|].
        right. now eexists. }
    destruct Hbody as (rest & Hbody & Hrest).
    unfold normalize_chars. fold p.
    change (starts_with_slash p) with true. cbn [negb]. rewrite Hbody.
    cbn [chars list_ascii_of_string app].
    destruct (ends_with_slash p); cbn [str string_of_list_ascii app].
    + right. destruct Hrest as [->|[rest' ->]]; cbn; now eexists.
    + destruct Hrest as [->|[rest' ->]]; [now left | right; cbn; now eexists].
Qed.

Lemma uint_chars (d : Decimal.uint) :
  Forall (fun x => x <> slash) (chars (NilEmpty.string_of_uint d)).
Proof.
  induction d; simpl; constructor; try assumption; discriminate.
Qed.

(** The default output name is a single path segment. *)
Lemma default_name_has_no_dotdot (rt : Runtime) :
  has_dotdot (default_output_name rt) = false.
Proof.
  unfold has_dotdot, default_output_name, decN.
  set (digits := NilEmpty.string_of_uint (N.to_uint (Date_now rt))).
  rewrite !chars_app.
  assert (Hplain : Forall (fun x => x <> slash)
                          (chars "capcut_export_" ++ chars digits ++ chars ".mp4")).
  { apply Forall_app. split; [repeat constructor; discriminate|].
    apply Forall_app. split; [apply uint_chars | repeat constructor; discriminate]. }
  rewrite (split_on_plain slash _ Hplain).
  reflexivity.
Qed.

End ArtifactPath.

Section Artifact.

Variable rt : Runtime.
Variable world : World.

(** C3 (amended): every file written after the launch, that is the
    artifact, is written at path.join('/tmp', name), where [name] is the
    string [payload.outputName || `capcut_export_${Date.now()}.mp4`]; the
    path lies under /tmp whenever [name] has no [..] segment, and the
    default name never has one. *)
Theorem artifact_path_follows_output_name (payload : value) :
  Forall (fun path =>
            exists name,
              OUTPUT_NAME rt payload = inr (VStr name)
              /\ path = Path.join "/tmp" name
              /\ (has_dotdot name = false -> under_tmp path))
         (pick write_of (since_launch (snd (run rt world payload))))
  /\ has_dotdot (default_output_name rt) = false.
Proof.
  split; [|apply ArtifactPath.default_name_has_no_dotdot].
  unfold run, script.
  rewrite bind_eq, validate_run.
  destruct (JS.prop payload "assetUrls") as [err|urls]; [constructor|].
  destruct (JS.truthy payload && JS.truthy urls); [|constructor].
  cbn [fst snd app]. rewrite lift_bind.
  destruct (OUTPUT_NAME rt payload) as [err|outputName] eqn:Hname; [constructor|].
  rewrite bind_eq.
  pose proof (stage_assets_calls rt world payload []) as Hcalls.
  assert (Hquiet : Forall (fun e => launch_of e = None)
                          (snd (stage_assets rt world payload [])))
    by (eapply Forall_impl; [apply staging_call_no_launch | exact Hcalls]).
  destruct (fst (stage_assets rt world payload [])) as [files|err|code];
    cbn [fst snd]; try (rewrite since_launch_quiet by exact Hquiet; constructor).
  rewrite since_launch_silent by exact Hquiet.
  rewrite open_editor_since_launch.
  apply pick_Forall.
  apply emits_bind.
  - unfold open_editor. emits_steps; intros path Hpath; discriminate Hpath.
  - intros bp.
    unfold drive_editor, login_button, email_login, create_project, upload,
      timeline, captions, add_caption, export, poll_and_download, finish.
    emits_steps; intros path Hpath; try discriminate Hpath.
    injection Hpath as <-.
    match goal with
    | Hjoin : path_join _ outputName = inr _ |- _ =>
        destruct outputName as [| | | |name| |]; try discriminate Hjoin;
        injection Hjoin as <-
    end.
    exists name. split; [reflexivity|]. split; [reflexivity|].
    apply ArtifactPath.join_tmp_under.
Qed.

End Artifact.

(** ** Caption insertion (lines 176-208) *)

Lemma staging_call_no_typing e : staging_call e -> typed_of e = None.
Proof. destruct e as [X c r]. destruct c; simpl; intros H; try reflexivity; destruct H. Qed.

Section Captions.

Variable rt : Runtime.
Variable world : World.

(** Everything the run types comes out of the caption loop. *)
Lemma script_typing (P : value -> Prop) (payload : value) :
  (forall p b outputName localFiles,
      emits (fun e => forall text, typed_of e = Some text -> P text)
            (drive_editor rt world b p payload outputName localFiles)) ->
  Forall P (pick typed_of (snd (run rt world payload))).
Proof.
  intros Hdrive. apply pick_Forall. unfold run, script.
  apply emits_bind.
  { unfold validate. emits_steps; intros text Htext; discriminate Htext. }
  intros _. apply emits_bind; [emits_steps|]. intros outputName.
  apply emits_bind.
  { eapply emits_weaken; [|apply stage_assets_calls].
    intros e He text Htext. rewrite (staging_call_no_typing e He) in Htext. discriminate. }
  intros localFiles. apply emits_bind.
  { unfold open_editor. emits_steps; intros text Htext; discriminate Htext. }
  intros bp. apply Hdrive.
Qed.

(** X1: whatever the surroundings answer, a [scriptText] string on which
    JSON.parse throws (a string that is no JSON text) leads to no
    keyboard.type call at all. *)
Lemma unparsable_script_types_nothing (payload : value) (s : string) (e : exn) :
  JS.prop payload "scriptText" = inr (VStr s) ->
  JSON_parse rt (VStr s) = inl e ->
  pick typed_of (snd (run rt world payload)) = [].
Proof.
  intros Hprop Hparse.
  assert (H : Forall (fun _ : value => False) (pick typed_of (snd (run rt world payload)))).
  { apply script_typing. intros p b outputName localFiles.
    unfold drive_editor, login_button, email_login, create_project, upload,
      timeline, captions, add_caption, export, poll_and_download, finish.
    emits_steps; intros typed Htyped; try discriminate Htyped.
    all: match goal with
         | H1 : JS.prop _ "scriptText" = inr ?st |- _ =>
             is_var st; rewrite Hprop in H1; injection H1 as ?; subst st
         end.
    all: match goal with
         | H2 : scriptObj_of _ (VStr _) = inr _ |- _ =>
             unfold scriptObj_of, JS.or in H2; cbn [JS.isArray] in H2
         end.
    all: match goal with
         | Htruthy : JS.truthy (VStr _) = true, H2 : JSON_parse _ _ = inr _ |- _ =>
             rewrite Htruthy, Hparse in H2; discriminate H2
         end. }
  destruct (pick typed_of (snd (run rt world payload))); [reflexivity|].
  now inversion H.
Qed.

End Captions.

(** ** Counting what a step adds to the trace *)

Lemma at_most_silent {O A} (f : event -> option O) (m : M A) n :
  emits (fun e => f e = None) m -> at_most f n m.
Proof. intros Hm h. rewrite pick_silent by apply Hm. simpl. lia. Qed.

Lemma at_most_bind {O A B} (f : event -> option O) n1 n2 (m : M A) (k : A -> M B) :
  at_most f n1 m -> (forall a, at_most f n2 (k a)) -> at_most f (n1 + n2) (bind m k).
Proof.
  intros Hm Hk h. rewrite bind_eq. specialize (Hm h).
  destruct (fst (m h)) as [a|e|c]; cbn [fst snd]; try lia.
  rewrite pick_app, length_app. specialize (Hk a (h ++ snd (m h))). lia.
Qed.

Lemma at_most_try_catch {O A} (f : event -> option O) n1 n2 (m : M A)
      (handler : exn -> M A) :
  at_most f n1 m -> (forall e, at_most f n2 (handler e)) ->
  at_most f (n1 + n2) (try_catch m handler).
Proof.
  intros Hm Hk h. rewrite try_catch_eq. specialize (Hm h).
  destruct (fst (m h)) as [a|e|c]; cbn [fst snd]; try lia.
  rewrite pick_app, length_app. specialize (Hk e (h ++ snd (m h))). lia.
Qed.

Lemma at_most_after {O A B} (f : event -> option O) n (m : M A) (k : A -> M B) :
  emits (fun e => f e = None) m -> (forall a, at_most f n (k a)) -> at_most f n (bind m k).
Proof.
  intros Hm Hk. change n with (0 + n).
  apply at_most_bind; [now apply at_most_silent | exact Hk].
Qed.

Lemma at_most_before {O A B} (f : event -> option O) n (m : M A) (k : A -> M B) :
  at_most f n m -> (forall a, emits (fun e => f e = None) (k a)) -> at_most f n (bind m k).
Proof.
  intros Hm Hk. rewrite <- (Nat.add_0_r n).
  apply at_most_bind; [exact Hm | intros a; now apply at_most_silent].
Qed.

Lemma at_most_guarded {O A} (f : event -> option O) n (m : M A) (handler : exn -> M A) :
  at_most f n m -> (forall e, emits (fun e' => f e' = None) (handler e)) ->
  at_most f n (try_catch m handler).
Proof.
  intros Hm Hk. rewrite <- (Nat.add_0_r n).
  apply at_most_try_catch; [exact Hm | intros e; now apply at_most_silent].
Qed.

Lemma at_most_for_range {O} (f : event -> option O) n start (body : nat -> M unit) :
  (forall i, at_most f 1 (body i)) -> at_most f n (for_range n start body).
Proof.
  intros Hb. revert start. induction n as [|n IH]; intros start; cbn [for_range].
  - intros h. simpl. lia.
  - change (S n) with (1 + n). apply at_most_bind; [apply Hb | intros _; apply IH].
Qed.

Lemma turns_min6_array rt (l : list value) :
  turns rt JS.min6 (VArr l) = inr (Nat.min 6 (List.length l)).
Proof.
  unfold turns. cbn [JS.length JS.num_of_nat to_number JS.min6].
  destruct (Qle_bool (inject_Z (Z.of_nat (List.length l))) 6) eqn:Hle; cbn [JS.count_below].
  - apply Qle_bool_iff in Hle. change 6%Q with (inject_Z 6) in Hle.
    rewrite <- Zle_Qle in Hle. rewrite Qceiling_Z, Nat2Z.id. f_equal. lia.
  - assert (Hgt : ~ (inject_Z (Z.of_nat (List.length l)) <= 6)%Q).
    { intros H. apply Qle_bool_iff in H. congruence. }
    change 6%Q with (inject_Z 6) in Hgt. rewrite <- Zle_Qle in Hgt.
    change 6%Q with (inject_Z 6). rewrite Qceiling_Z. f_equal.
    change (Z.to_nat 6) with 6. lia.
Qed.

Lemma staging_call_no_text_entry e : staging_call e -> text_entry_query_of e = None.
Proof. destruct e as [X c r]. destruct c; simpl; intros H; try reflexivity; destruct H. Qed.

Ltac quiet := emits_steps; reflexivity.

Section CaptionCount.

Variable rt : Runtime.
Variable world : World.

(** One turn of the caption loop types at most once. *)
Lemma add_caption_types_once p scriptObj addTextBtn i :
  at_most typed_of 1 (add_caption world p scriptObj addTextBtn i).
Proof.
  unfold add_caption. apply at_most_guarded; [|intros e; quiet].
  destruct addTextBtn as [|h rest]; [apply at_most_silent; emits_steps|].
  apply at_most_after; [quiet|]. intros _.
  apply at_most_after; [quiet|]. intros _.
  apply at_most_after; [quiet|]. intros [a|];
    [|apply at_most_silent; emits_steps].
  apply at_most_after; [quiet|]. intros _.
  apply at_most_after; [emits_steps|]. intros entry.
  apply at_most_after; [emits_steps|]. intros text.
  apply at_most_before; [|intros _; quiet].
  intros h0. rewrite perform_run. simpl. lia.
Qed.

(** One turn of the caption loop looks for the text input at most once. *)
Lemma add_caption_queries_once p scriptObj addTextBtn i :
  at_most text_entry_query_of 1 (add_caption world p scriptObj addTextBtn i).
Proof.
  unfold add_caption. apply at_most_guarded; [|intros e; quiet].
  destruct addTextBtn as [|h rest]; [apply at_most_silent; emits_steps|].
  apply at_most_after; [quiet|]. intros _.
  apply at_most_after; [quiet|]. intros _.
  apply at_most_before.
  - intros h0. rewrite perform_run. simpl. lia.
  - intros [a|]; quiet.
Qed.

Lemma staging_quiet {O} (f : event -> option O) payload :
  (forall e, staging_call e -> f e = None) ->
  emits (fun e => f e = None) (stage_assets rt world payload).
Proof. intros H. eapply emits_weaken; [exact H | apply stage_assets_calls]. Qed.

(** The caption loop is the only place where [f] recognises anything, and
    there at most once a turn: over an array of entries the run has at most
    min(6, N) such calls. *)
Ltac count_captions Hprop staging once :=
  unfold run;
  match goal with
  | |- List.length (pick ?f (snd (script ?rt ?world ?payload []))) <= ?n =>
      assert (H : at_most f n (script rt world payload)); [|apply H]
  end;
  unfold script;
  apply at_most_after; [unfold validate; quiet|]; intros _;
  apply at_most_after; [emits_steps|]; intros outputName;
  apply at_most_after; [apply staging_quiet, staging|]; intros localFiles;
  apply at_most_after; [unfold open_editor; quiet|]; intros [b p];
  unfold drive_editor; cbn [fst snd];
  apply at_most_after; [unfold login_button; quiet|]; intros _;
  apply at_most_after; [unfold email_login; quiet|]; intros _;
  apply at_most_after; [unfold create_project; quiet|]; intros _;
  apply at_most_after; [unfold upload; quiet|]; intros _;
  apply at_most_before;
    [|intros _; unfold export, poll_and_download, finish; quiet];
  unfold timeline; apply at_most_guarded; [|intros e; quiet];
  apply at_most_after; [quiet|]; intros _;
  apply at_most_after; [quiet|]; intros thumbs;
  apply at_most_after; [quiet|]; intros _;
  apply at_most_after; [quiet|]; intros _;
  unfold captions; intros h; rewrite lift_bind, Hprop; cbn [JS.truthy];
  revert h; apply at_most_guarded; [|intros e; quiet];
  apply at_most_after; [quiet|]; intros textBtn;
  apply at_most_after; [quiet|]; intros _;
  intros h; rewrite lift_bind; cbn [scriptObj_of JS.isArray];
  revert h; apply at_most_after; [quiet|]; intros addTextBtn;
  intros h; rewrite lift_bind, turns_min6_array;
  revert h; apply at_most_for_range; intros i; apply once.

Lemma run_types_at_most (payload : value) (entries : list value) :
  JS.prop payload "scriptText" = inr (VArr entries) ->
  List.length (pick typed_of (snd (run rt world payload)))
  <= Nat.min 6 (List.length entries).
Proof.
  intros Hprop.
  count_captions Hprop staging_call_no_typing add_caption_types_once.
Qed.

Lemma run_queries_at_most (payload : value) (entries : list value) :
  JS.prop payload "scriptText" = inr (VArr entries) ->
  List.length (pick text_entry_query_of (snd (run rt world payload)))
  <= Nat.min 6 (List.length entries).
Proof.
  intros Hprop.
  count_captions Hprop staging_call_no_text_entry add_caption_queries_once.
Qed.

End CaptionCount.

(** ** A script given as JSON text (line 186) *)

Lemma bind_ext {A B} (m : M A) (f g : A -> M B) :
  (forall a h, f a h = g a h) -> forall h, bind m f h = bind m g h.
Proof.
  intros Hfg h. rewrite !bind_eq. destruct (fst (m h)); try reflexivity.
  now rewrite Hfg.
Qed.

Lemma bind_ext_step {A B} (m m' : M A) (k : A -> M B) :
  (forall h, m h = m' h) -> forall h, bind m k h = bind m' k h.
Proof. intros Hm h. rewrite !bind_eq. now rewrite Hm. Qed.

Lemma try_catch_ext {A} (m m' : M A) (handler : exn -> M A) :
  (forall h, m h = m' h) -> forall h, try_catch m handler h = try_catch m' handler h.
Proof. intros Hm h. rewrite !try_catch_eq. now rewrite Hm. Qed.

Section RoundTrip.

Variable rt : Runtime.
Variable world : World.

Variables fields1 fields2 : list (string * value).
Variable s : string.
Variable entries : list value.

Hypothesis same_elsewhere :
  forall k, k <> "scriptText" -> JS.lookup k fields1 = JS.lookup k fields2.
Hypothesis raw : JS.lookup "scriptText" fields1 = Some (VStr s).
Hypothesis structured : JS.lookup "scriptText" fields2 = Some (VArr entries).
Hypothesis parsed : Json.parse s = inr (VArr entries).

Lemma raw_script_is_truthy : JS.truthy (VStr s) = true.
Proof.
  destruct s; [|reflexivity].
  vm_compute in parsed. discriminate parsed.
Qed.

Lemma raw_script_parses : scriptObj_of rt (VStr s) = inr (VArr entries).
Proof.
  unfold scriptObj_of, JS.or. cbn [JS.isArray]. rewrite raw_script_is_truthy.
  cbn [JSON_parse]. unfold JSON_parse_text. now rewrite parsed.
Qed.

Lemma captions_round_trip p h :
  captions rt world p (VObj fields1) h = captions rt world p (VObj fields2) h.
Proof.
  unfold captions. cbn [JS.prop]. rewrite raw, structured, !lift_bind.
  rewrite raw_script_is_truthy. cbn [JS.truthy].
  revert h. apply try_catch_ext.
  apply bind_ext. intros textBtn. apply bind_ext. intros _ h.
  rewrite !lift_bind, raw_script_parses. reflexivity.
Qed.

Lemma timeline_round_trip p h :
  timeline rt world p (VObj fields1) h = timeline rt world p (VObj fields2) h.
Proof.
  unfold timeline. revert h. apply try_catch_ext.
  do 4 (apply bind_ext; intro). apply captions_round_trip.
Qed.

Lemma run_round_trip : run rt world (VObj fields1) = run rt world (VObj fields2).
Proof.
  assert (Ha : JS.lookup "assetUrls" fields1 = JS.lookup "assetUrls" fields2)
    by (apply same_elsewhere; discriminate).
  assert (Ho : JS.lookup "outputName" fields1 = JS.lookup "outputName" fields2)
    by (apply same_elsewhere; discriminate).
  unfold run, script, validate, OUTPUT_NAME, stage_assets.
  cbn [JS.prop JS.truthy]. rewrite Ha, Ho.
  generalize (@nil event).
  do 4 (apply bind_ext; intro).
  unfold drive_editor.
  do 4 (apply bind_ext; intro).
  apply bind_ext_step. apply timeline_round_trip.
Qed.

End RoundTrip.

Section RawScript.

Variable rt : Runtime.
Variable world : World.

(** C4: a payload whose [scriptText] is JSON text for a list of entries runs
    exactly like the payload that carries the list itself: same outcome,
    same trace.  And over a list of N entries the caption loop makes
    min(6, N) turns, so the run looks for the text input and types at most
    min(6, N) times. *)
Theorem raw_script_round_trip :
  (forall (fields1 fields2 : list (string * value)) (s : string) (entries : list value),
      (forall k, k <> "scriptText" -> JS.lookup k fields1 = JS.lookup k fields2) ->
      JS.lookup "scriptText" fields1 = Some (VStr s) ->
      JS.lookup "scriptText" fields2 = Some (VArr entries) ->
      Json.parse s = inr (VArr entries) ->
      run rt world (VObj fields1) = run rt world (VObj fields2))
  /\ (forall (payload : value) (entries : list value),
        JS.prop payload "scriptText" = inr (VArr entries) ->
        turns rt JS.min6 (VArr entries) = inr (Nat.min 6 (List.length entries))
        /\ List.length (pick text_entry_query_of (snd (run rt world payload)))
           <= Nat.min 6 (List.length entries)
        /\ List.length (pick typed_of (snd (run rt world payload)))
           <= Nat.min 6 (List.length entries)).
Proof.
  split.
  - intros fields1 fields2 s entries Hsame Hraw Hstructured Hparsed.
    now apply run_round_trip with (s := s) (entries := entries).
  - intros payload entries Hprop. split; [apply turns_min6_array|]. split.
    + now apply run_queries_at_most.
    + now apply run_types_at_most.
Qed.

End RawScript.

(** ** Best-effort steps (lines 88-132, 163-254) *)

Lemma never_exits_ret {A} (a : A) : never_exits (ret a).
Proof. intros h c. discriminate. Qed.

Lemma never_exits_throw {A} (e : exn) : never_exits (@throw A e).
Proof. intros h c. discriminate. Qed.

Lemma never_exits_lift {A} (x : exn + A) : never_exits (lift x).
Proof. destruct x; [apply never_exits_throw | apply never_exits_ret]. Qed.

Lemma never_exits_bind {A B} (m : M A) (k : A -> M B) :
  never_exits m -> (forall a, never_exits (k a)) -> never_exits (bind m k).
Proof.
  intros Hm Hk h c. rewrite bind_eq. specialize (Hm h).
  destruct (fst (m h)) as [a|e|c']; cbn [fst]; try discriminate.
  - apply Hk.
  - now elim (Hm c').
Qed.

Lemma never_exits_try_catch {A} (m : M A) (handler : exn -> M A) :
  never_exits m -> (forall e, never_exits (handler e)) -> never_exits (try_catch m handler).
Proof.
  intros Hm Hk h c. rewrite try_catch_eq. specialize (Hm h).
  destruct (fst (m h)) as [a|e|c']; cbn [fst]; try discriminate.
  - apply Hk.
  - now elim (Hm c').
Qed.

Lemma never_exits_for_range n start (body : nat -> M unit) :
  (forall i, never_exits (body i)) -> never_exits (for_range n start body).
Proof.
  intros Hb. revert start. induction n as [|n IH]; intros start; cbn [for_range].
  - apply never_exits_ret.
  - apply never_exits_bind; [apply Hb | intros _; apply IH].
Qed.

Lemma never_exits_for_each {A} (l : list A) (body : A -> M unit) :
  (forall x, never_exits (body x)) -> never_exits (for_each l body).
Proof.
  intros Hb. induction l as [|x l IH]; cbn [for_each].
  - apply never_exits_ret.
  - apply never_exits_bind; [apply Hb | intros _; apply IH].
Qed.

Section Outcomes.

Variable rt : Runtime.
Variable world : World.

Lemma never_exits_perform {X} (c : call X) : never_exits (perform world c).
Proof. intros h code. rewrite perform_run. destruct (world X h c); discriminate. Qed.

Lemma never_exits_console lvl args : never_exits (console lvl args).
Proof. intros h c. discriminate. Qed.

(** try { m } catch { log }: completes when [m] cannot exit the process. *)
Lemma guarded_completes (m : M unit) (handler : exn -> M unit) :
  never_exits m -> (forall e, always_completes (handler e)) ->
  always_completes (try_catch m handler).
Proof.
  intros Hm Hk h. rewrite try_catch_eq. specialize (Hm h).
  destruct (fst (m h)) as [[]|e|c]; cbn [fst]; [reflexivity | apply Hk | now elim (Hm c)].
Qed.

Lemma console_completes lvl args : always_completes (console lvl args).
Proof. intros h. reflexivity. Qed.

End Outcomes.

(** Shows that a step cannot exit the process by going through it. *)
Ltac never_exits_step :=
  lazymatch goal with
  | |- never_exits (bind _ _) => apply never_exits_bind; [| intros]
  | |- never_exits (try_catch _ _) => apply never_exits_try_catch; [| intros]
  | |- never_exits (perform _ _) => apply never_exits_perform
  | |- never_exits (console _ _) => apply never_exits_console
  | |- never_exits (ret _) => apply never_exits_ret
  | |- never_exits (throw _) => apply never_exits_throw
  | |- never_exits (lift _) => apply never_exits_lift
  | |- never_exits (for_range _ _ _) => apply never_exits_for_range; intros
  | |- never_exits (for_each _ _) => apply never_exits_for_each; intros
  | |- never_exits (match ?x with _ => _ end) => destruct x
  end.

Ltac never_exits_steps := repeat never_exits_step.

Section BestEffort.

Variable rt : Runtime.
Variable world : World.

Lemma login_button_completes p : always_completes (login_button world p).
Proof.
  unfold login_button. apply guarded_completes; [never_exits_steps|].
  intros e. apply console_completes.
Qed.

Lemma email_login_completes p : always_completes (email_login rt world p).
Proof.
  unfold email_login. apply guarded_completes; [never_exits_steps|].
  intros e. apply console_completes.
Qed.

Lemma create_project_completes p : always_completes (create_project world p).
Proof.
  unfold create_project. apply guarded_completes; [never_exits_steps|].
  intros e. apply console_completes.
Qed.

Lemma timeline_completes p payload : always_completes (timeline rt world p payload).
Proof.
  unfold timeline, captions, add_caption. apply guarded_completes; [never_exits_steps|].
  intros e. apply console_completes.
Qed.

Lemma export_completes p : always_completes (export world p).
Proof.
  unfold export. apply guarded_completes; [never_exits_steps|].
  intros e. apply console_completes.
Qed.

Lemma poll_and_download_completes p outputName :
  always_completes (poll_and_download world p outputName).
Proof.
  unfold poll_and_download. apply guarded_completes; [never_exits_steps|].
  intros e. apply console_completes.
Qed.

(** X2: the six best-effort steps (login button, email login, project creation,
    timeline and captions, export, polling and download) complete whatever
    the browser, the network and the file system answer: none of them ends
    the run or lets an error out. *)
Theorem best_effort_steps_always_complete p payload outputName :
  always_completes (login_button world p)
  /\ always_completes (email_login rt world p)
  /\ always_completes (create_project world p)
  /\ always_completes (timeline rt world p payload)
  /\ always_completes (export world p)
  /\ always_completes (poll_and_download world p outputName).
Proof.
  repeat split.
  - apply login_button_completes.
  - apply email_login_completes.
  - apply create_project_completes.
  - apply timeline_completes.
  - apply export_completes.
  - apply poll_and_download_completes.
Qed.

End BestEffort.

Lemma staging_call_no_close e : staging_call e -> close_of e = None /\ uploaded_of e = None.
Proof. destruct e as [X c r]. destruct c; simpl; intros H; try (now split); destruct H. Qed.

(** A step that always completes hands over to what follows it; a property
    of the run of what follows that survives a prefix of entries satisfying
    [Q] then holds of the whole. *)
Lemma step_through {B} (Q : event -> Prop) (Post : result B -> trace -> Prop)
      (m : M unit) (k : unit -> M B) h :
  always_completes m ->
  emits Q m ->
  (forall t1 r t2, Forall Q t1 -> Post r t2 -> Post r (t1 ++ t2)) ->
  (forall h', Post (fst (k tt h')) (snd (k tt h'))) ->
  Post (fst (bind m k h)) (snd (bind m k h)).
Proof.
  intros Hm Hq Hclosed Hk. rewrite bind_eq, (Hm h). cbn [fst snd].
  apply Hclosed; [apply Hq | apply Hk].
Qed.

Section Endings.

Variable rt : Runtime.
Variable world : World.

Lemma download_assets_exit assetUrls n :
  forall i localFiles h code,
    fst (download_assets world assetUrls n i localFiles h) = Exit code ->
    code = 1%Z
    /\ exists pre url st,
        snd (download_assets world assetUrls n i localFiles h) =
        pre ++ [Ev (Console LError [VStr "Failed to download asset"; url; st]) (inr tt)].
Proof.
  induction n as [|n IH]; intros i localFiles h code; [discriminate|].
  cbn [download_assets].
  rewrite lift_bind. destruct (JS.index assetUrls i) as [err|u]; [discriminate|].
  rewrite lift_bind. destruct (path_extname u) as [err|ext]; [discriminate|].
  rewrite perform_bind. destruct (world response h (Fetch u)) as [err|res]; [discriminate|].
  destruct (ok res); cbn [negb].
  - rewrite perform_bind. destruct (world _ _ (ResBuffer res)) as [err|data]; [discriminate|].
    rewrite perform_bind. destruct (world _ _ (WriteFileSync _ _)) as [err|[]]; [discriminate|].
    rewrite console_bind. cbn [fst snd]. intros Hexit.
    destruct (IH _ _ _ _ Hexit) as [-> (pre & url & st & ->)].
    split; [reflexivity|].
    eexists (_ :: _ :: _ :: _ :: pre), url, st. reflexivity.
  - rewrite console_bind. cbn [fst snd]. intros [= <-].
    split; [reflexivity|]. eexists [_], _, _. reflexivity.
Qed.

Lemma stage_assets_exit payload h code :
  fst (stage_assets rt world payload h) = Exit code ->
  code = 1%Z
  /\ exists pre url st,
      snd (stage_assets rt world payload h) =
      pre ++ [Ev (Console LError [VStr "Failed to download asset"; url; st]) (inr tt)].
Proof.
  unfold stage_assets.
  rewrite perform_bind. destruct (world bool h (ExistsSync tmpDir)) as [err|present];
    [discriminate|].
  rewrite bind_eq.
  assert (Hdir : forall h',
             (fst ((if present then ret tt else perform world (MkdirSync tmpDir true)) h')
              = Ok tt)
             \/ exists e, fst ((if present then ret tt
                                else perform world (MkdirSync tmpDir true)) h') = Throw e).
  { intros h'. destruct present; [now left|]. rewrite perform_run.
    destruct (world unit h' _) as [e|[]]; [right; now exists e | now left]. }
  destruct (Hdir (h ++ [Ev (ExistsSync tmpDir) (inr present)])) as [Hok|[e He]];
    [rewrite Hok | rewrite He; discriminate].
  rewrite console_bind, lift_bind.
  destruct (JS.prop payload "assetUrls") as [err|assetUrls]; [discriminate|].
  rewrite lift_bind.
  destruct (turns rt (fun len => len) assetUrls) as [err|n]; [discriminate|].
  cbn [fst snd]. intros Hexit.
  destruct (download_assets_exit _ _ _ _ _ _ Hexit) as [-> (pre & url & st & ->)].
  split; [reflexivity|].
  eexists (_ :: _ ++ _ :: pre), url, st.
  cbn [app]. rewrite <- app_assoc. reflexivity.
Qed.


Lemma open_editor_never_exits : never_exits (open_editor rt world).
Proof. unfold open_editor. never_exits_steps. Qed.

Lemma open_editor_no_close :
  emits (fun e => close_of e = None /\ uploaded_of e = None) (open_editor rt world).
Proof. unfold open_editor. emits_steps; now split. Qed.

(** Lines 136-159: the upload step either completes after a resolved
    uploadFile, or logs, closes the browser and exits with status 1. *)
Lemma upload_end b p localFiles h :
  (fst (upload world b p localFiles h) = Ok tt
   /\ pick uploaded_of (snd (upload world b p localFiles h)) <> []
   /\ pick close_of (snd (upload world b p localFiles h)) = [])
  \/ exists pre msg closed,
      snd (upload world b p localFiles h) =
        pre ++ [Ev (Console LError [VStr "Upload step failed:"; VStr msg]) (inr tt);
                Ev (BrowserClose b) closed]
      /\ fst (upload world b p localFiles h) = exit_after_close 1 closed
      /\ pick uploaded_of pre = []
      /\ pick close_of pre = [].
Proof.
  destruct (upload world b p localFiles h) as [r t] eqn:Hrun.
  cbn [fst snd]. unfold upload in Hrun.
  repeat run_inv world.
  all: cbn [app].
  all: try (left; split; [reflexivity | split; [now cbn | reflexivity]]).
  all: try (right;
           match goal with
           | |- exists pre msg closed, ?t = _ /\ _ =>
               exists (firstn (List.length t - 2) t)
           end;
           eexists _, _; cbn [List.length Nat.sub firstn app];
           repeat split; reflexivity).
Qed.

(** Lines 256-257. *)
Lemma finish_end b h :
  exists closed,
    finish world b h = (exit_after_close 0 closed, [Ev (BrowserClose b) closed]).
Proof.
  unfold finish. rewrite perform_bind.
  exists (world unit h (BrowserClose b)).
  now destruct (world unit h (BrowserClose b)) as [e|[]].
Qed.

Lemma closes_with_prefix b code t1 r t2 :
  Forall (fun e => close_of e = None) t1 ->
  closes_with b code r t2 -> closes_with b code r (t1 ++ t2).
Proof.
  intros Hq (pre & closed & -> & -> & Hpre).
  exists (t1 ++ pre), closed. split; [now rewrite app_assoc|]. split; [reflexivity|].
  now rewrite pick_app, Hpre, (pick_silent _ _ Hq).
Qed.

(** Lines 163-257: once the upload step is through, the run reaches
    browser.close() and process.exit(0). *)
Lemma after_upload_end b p payload outputName h :
  closes_with b 0
    (fst ((timeline rt world p payload ;; export world p ;;
           poll_and_download world p outputName ;; finish world b) h))
    (snd ((timeline rt world p payload ;; export world p ;;
           poll_and_download world p outputName ;; finish world b) h)).
Proof.
  apply step_through with (Q := fun e => close_of e = None);
    [apply timeline_completes | | apply closes_with_prefix | intros h1].
  { unfold timeline, captions, add_caption. emits_steps; reflexivity. }
  apply step_through with (Q := fun e => close_of e = None);
    [apply export_completes | | apply closes_with_prefix | intros h2].
  { unfold export. emits_steps; reflexivity. }
  apply step_through with (Q := fun e => close_of e = None);
    [apply poll_and_download_completes | | apply closes_with_prefix | intros h3].
  { unfold poll_and_download. emits_steps; reflexivity. }
  destruct (finish_end b h3) as [closed ->]. cbn [fst snd].
  now exists [], closed.
Qed.


Lemma editor_ending_prefix b t1 r t2 :
  Forall (fun e => close_of e = None /\ uploaded_of e = None) t1 ->
  editor_ending b r t2 -> editor_ending b r (t1 ++ t2).
Proof.
  intros Hq Hend.
  assert (Hc : pick close_of t1 = []).
  { apply pick_silent. eapply Forall_impl; [|exact Hq]. now intros e [He _]. }
  assert (Hu : pick uploaded_of t1 = []).
  { apply pick_silent. eapply Forall_impl; [|exact Hq]. now intros e [_ He]. }
  destruct Hend as [(pre & msg & closed & -> & -> & Hup & Hcl)
                   |(pre & closed & -> & -> & Hup & Hcl)].
  - left. exists (t1 ++ pre), msg, closed.
    rewrite !pick_app, Hc, Hu, Hup, Hcl, app_assoc. now repeat split.
  - right. exists (t1 ++ pre), closed.
    rewrite !pick_app, Hc, Hu, Hcl, app_assoc. now repeat split.
Qed.

(** Lines 88-257. *)
Lemma drive_editor_end b p payload outputName localFiles h :
  editor_ending b
    (fst (drive_editor rt world b p payload outputName localFiles h))
    (snd (drive_editor rt world b p payload outputName localFiles h)).
Proof.
  unfold drive_editor.
  apply step_through with (Q := fun e => close_of e = None /\ uploaded_of e = None);
    [apply login_button_completes | | apply editor_ending_prefix | intros h1].
  { unfold login_button. emits_steps; now split. }
  apply step_through with (Q := fun e => close_of e = None /\ uploaded_of e = None);
    [apply email_login_completes | | apply editor_ending_prefix | intros h2].
  { unfold email_login. emits_steps; now split. }
  apply step_through with (Q := fun e => close_of e = None /\ uploaded_of e = None);
    [apply create_project_completes | | apply editor_ending_prefix | intros h3].
  { unfold create_project. emits_steps; now split. }
  rewrite bind_eq.
  destruct (upload_end b p localFiles h3)
    as [(Hok & Hup & Hcl)|(pre & msg & closed & Ht & Hr & Hup & Hcl)].
  - rewrite Hok. cbn [fst snd].
    destruct (after_upload_end b p payload outputName
                (h3 ++ snd (upload world b p localFiles h3)))
      as (pre & closed & -> & -> & Hpre).
    right. exists (snd (upload world b p localFiles h3) ++ pre), closed.
    rewrite !pick_app, Hcl, Hpre, app_assoc. repeat split.
    intros Hnil. apply app_eq_nil in Hnil. now destruct Hnil.
  - rewrite Hr, Ht. left. exists pre, msg, closed.
    destruct closed as [e|[]]; cbn [exit_after_close fst snd]; now repeat split.
Qed.

(** Lines 35-257: every run ends in one of five ways. *)
Lemma run_ending payload :
  ending (fst (run rt world payload)) (snd (run rt world payload)).
Proof.
  unfold run, script.
  rewrite bind_eq, validate_run.
  assert (Hrej : ending (Exit 1)
                   [Ev (Console LError
                          [VStr "Payload missing required fields. Example: assetUrls[]"])
                       (inr tt)]) by constructor.
  destruct (JS.prop payload "assetUrls") as [e|urls]; cbn [fst snd]; [exact Hrej|].
  destruct (JS.truthy payload && JS.truthy urls); cbn [fst snd app]; [|exact Hrej].
  rewrite lift_bind.
  destruct (OUTPUT_NAME rt payload) as [e|outputName]; cbn [fst snd].
  { now constructor. }
  rewrite bind_eq.
  pose proof (stage_assets_calls rt world payload []) as Hstage.
  assert (Hsc : pick close_of (snd (stage_assets rt world payload [])) = []).
  { apply pick_silent. eapply Forall_impl; [|exact Hstage].
    intros e He. now apply staging_call_no_close. }
  assert (Hsu : pick uploaded_of (snd (stage_assets rt world payload [])) = []).
  { apply pick_silent. eapply Forall_impl; [|exact Hstage].
    intros e He. now apply staging_call_no_close. }
  destruct (fst (stage_assets rt world payload [])) as [localFiles|e|c] eqn:Hfst;
    cbn [fst snd].
  - rewrite bind_eq.
    pose proof (open_editor_no_close (snd (stage_assets rt world payload []))) as Hopen.
    rewrite app_nil_l in *.
    destruct (fst (open_editor rt world (snd (stage_assets rt world payload []))))
      as [[b p]|e|c] eqn:Hfst'; cbn [fst snd].
    + pose proof (drive_editor_end b p payload outputName localFiles
                    (snd (stage_assets rt world payload [])
                     ++ snd (open_editor rt world (snd (stage_assets rt world payload [])))))
        as Hend.
      apply (editor_ending_prefix b _ _ _ Hopen) in Hend.
      assert (Hs : Forall (fun e => close_of e = None /\ uploaded_of e = None)
                     (snd (stage_assets rt world payload []))).
      { eapply Forall_impl; [|exact Hstage]. intros e He. now apply staging_call_no_close. }
      apply (editor_ending_prefix b _ _ _ Hs) in Hend.
      destruct Hend as [(pre & msg & closed & -> & -> & Hup & Hcl)
                       |(pre & closed & -> & -> & Hup & Hcl)]; now constructor.
    + constructor. rewrite pick_app, Hsc. apply pick_silent.
      eapply Forall_impl; [|exact Hopen]. now intros ev [He _].
    + now elim (open_editor_never_exits _ _ Hfst').
  - now constructor.
  - destruct (stage_assets_exit payload [] c Hfst) as [-> (pre & url & st & Ht)].
    rewrite Ht in *. constructor.
    apply Forall_app in Hstage. now destruct Hstage.
Qed.

(** X3: every run ends in one of five ways: (1) the payload is rejected: one
    error line, status 1; (2) an asset download is refused: the error line
    comes last, after file-system, fetch and console calls only, status 1;
    (3) the upload step fails: its error line and then browser.close() come
    last, no uploadFile has resolved, status 1; (4) the script runs to its
    end: browser.close() comes last, an uploadFile has resolved before it,
    status 0; (5) an error escapes, and then browser.close() was never
    called.  In (3) and (4) browser.close() is called exactly once, and if
    it rejects the run ends with that rejection instead of the status. *)
Theorem run_ends_in_one_of_five_ways payload :
  ending (fst (run rt world payload)) (snd (run rt world payload)).
Proof. apply run_ending. Qed.

(** X4: the exit status tells whether the assets reached the editor: a run
    never ends without process.exit or an escaping error; it exits with
    status 0 only after an uploadFile call has resolved and with a resolved
    browser.close() as its last call; any other exit has status 1 and no
    resolved uploadFile. *)
Theorem exit_status_reports_upload payload :
  match fst (run rt world payload) with
  | Ok _ => False
  | Exit code =>
      (code = 0%Z
       /\ pick uploaded_of (snd (run rt world payload)) <> []
       /\ exists pre b, snd (run rt world payload) = pre ++ [Ev (BrowserClose b) (inr tt)])
      \/ (code = 1%Z /\ pick uploaded_of (snd (run rt world payload)) = [])
  | Throw _ => True
  end.
Proof.
  destruct (run_ending payload) as [|pre url st Hpre|pre msg b closed Hup Hcl
                                   |pre b closed Hup Hcl|err t Hcl].
  - right. now split.
  - right. split; [reflexivity|]. rewrite pick_app. cbn [pick uploaded_of app].
    rewrite app_nil_r. apply pick_silent. eapply Forall_impl; [|exact Hpre].
    intros e He. now apply staging_call_no_close.
  - destruct closed as [e|[]]; cbn [exit_after_close]; [exact I|].
    right. split; [reflexivity|]. rewrite pick_app, Hup. reflexivity.
  - destruct closed as [e|[]]; cbn [exit_after_close]; [exact I|].
    left. split; [reflexivity|]. split.
    + rewrite pick_app. intros Hnil. apply app_eq_nil in Hnil. now destruct Hnil.
    + now exists pre, b.
  - exact I.
Qed.

End Endings.

(** ** Session bootstrap (lines 67-85) *)

Section Bootstrap.

Variable rt : Runtime.
Variable world : World.

Lemma staging_call_no_bootstrap e :
  staging_call e -> bootstrap_failure_of e = None /\ close_of e = None.
Proof. destruct e as [X c r]. destruct c; simpl; intros H; try (now split); destruct H. Qed.

Lemma drive_editor_no_bootstrap b p payload outputName localFiles :
  emits (fun e => bootstrap_failure_of e = None)
        (drive_editor rt world b p payload outputName localFiles).
Proof.
  unfold drive_editor, login_button, email_login, create_project, upload, timeline,
    captions, add_caption, export, poll_and_download, finish.
  emits_steps; reflexivity.
Qed.

(** X5: lines 67-85 are outside every try block: when launching the browser,
    opening the page, sizing it or navigating to the editor fails, the run
    ends with that error as an uncaught rejection.  The failed call is the
    last entry of the trace, so none of the editor steps is attempted, and
    browser.close() is never called. *)
Theorem bootstrap_failure_is_uncaught (payload : value) (err : exn) :
  In err (pick bootstrap_failure_of (snd (run rt world payload))) ->
  fst (run rt world payload) = Throw err
  /\ (exists pre e, snd (run rt world payload) = pre ++ [e]
                    /\ bootstrap_failure_of e = Some err)
  /\ pick close_of (snd (run rt world payload)) = [].
Proof.
  set (Q := fun e => bootstrap_failure_of e = None /\ close_of e = None).
  set (Post := fun (r : result unit) (t : trace) =>
                 In err (pick bootstrap_failure_of t) ->
                 r = Throw err
                 /\ (exists pre e, t = pre ++ [e] /\ bootstrap_failure_of e = Some err)
                 /\ pick close_of t = []).
  assert (Hsilent : forall t, Forall Q t ->
            pick bootstrap_failure_of t = [] /\ pick close_of t = []).
  { intros t Ht. split; apply pick_silent; (eapply Forall_impl; [|exact Ht]); now intros e []. }
  assert (Hquiet : forall r t1, Forall Q t1 -> Post r t1).
  { intros r t1 Ht1 Hin. destruct (Hsilent _ Ht1) as [Hb _]. rewrite Hb in Hin. destruct Hin. }
  assert (Hclosed : forall t1 r t2, Forall Q t1 -> Post r t2 -> Post r (t1 ++ t2)).
  { intros t1 r t2 Ht1 Hpost Hin. destruct (Hsilent _ Ht1) as [Hb Hc].
    rewrite pick_app, Hb in Hin.
    destruct (Hpost Hin) as (Hr & (pre & e & -> & He) & Hcl).
    split; [exact Hr|]. split.
    - exists (t1 ++ pre), e. now rewrite app_assoc.
    - now rewrite pick_app, Hc, Hcl. }
  change (Post (fst (run rt world payload)) (snd (run rt world payload))).
  unfold run, script.
  apply step_over with (Q := Q); [|exact Hquiet|exact Hclosed|intros _ h1].
  { unfold validate. emits_steps; now split. }
  apply step_over with (Q := Q); [|exact Hquiet|exact Hclosed|intros outputName h2].
  { emits_steps. }
  apply step_over with (Q := Q); [|exact Hquiet|exact Hclosed|intros localFiles h3].
  { eapply emits_weaken; [apply staging_call_no_bootstrap | apply stage_assets_calls]. }
  match goal with |- Post (fst ?run) (snd ?run) => destruct run as [r t] eqn:Hrun end.
  cbn [fst snd]. unfold open_editor in Hrun.
  repeat run_inv world.
  all: intros Hin; cbn [pick bootstrap_failure_of app] in Hin.
  all: try (destruct Hin as [<-|[]]; split; [reflexivity|]; split;
            [first [ eexists [], _; now split
                   | eexists [_], _; now split
                   | eexists [_; _], _; now split
                   | eexists [_; _; _; _], _; now split ]
            | reflexivity ]).
  cbn [fst snd] in *.
  match goal with
  | H : drive_editor _ _ ?b ?p ?payload ?o ?l ?h = (_, ?t') |- _ =>
      pose proof (drive_editor_no_bootstrap b p payload o l h) as Hq;
      rewrite H in Hq; cbn [snd] in Hq
  end.
  rewrite (pick_silent _ _ Hq) in Hin. destruct Hin.
Qed.

End Bootstrap.

(** ** Authentication (lines 98-116) *)

(** What follows a step adds nothing that [f] recognises: the entries of
    the whole that [f] recognises are those of the step. *)
Lemma pick_bind_quiet {O A B} (f : event -> option O) (m : M A) (k : A -> M B) h :
  (forall a, emits (fun e => f e = None) (k a)) ->
  pick f (snd (bind m k h)) = pick f (snd (m h)).
Proof.
  intros Hk. rewrite bind_eq.
  destruct (fst (m h)) as [a|e|c]; cbn [snd]; try reflexivity.
  now rewrite pick_app, (pick_silent _ _ (Hk a _)), app_nil_r.
Qed.

Lemma pick_try_catch_quiet {O A} (f : event -> option O) (m : M A) (handler : exn -> M A) h :
  (forall e, emits (fun ev => f ev = None) (handler e)) ->
  pick f (snd (try_catch m handler h)) = pick f (snd (m h)).
Proof.
  intros Hk. rewrite try_catch_eq.
  destruct (fst (m h)) as [a|e|c]; cbn [snd]; try reflexivity.
  now rewrite pick_app, (pick_silent _ _ (Hk e _)), app_nil_r.
Qed.

Lemma env_truthy_some (v : option string) :
  env_truthy v = true -> exists s, v = Some s /\ s <> EmptyString /\ env_string v = s.
Proof.
  destruct v as [s|]; [|discriminate]. cbn. intros H. exists s.
  repeat split. intros ->. discriminate.
Qed.

Section Authentication.

Variable rt : Runtime.
Variable world : World.

Lemma email_login_types p h :
  credentials_typed rt (pick page_type_of (snd (email_login rt world p h)))
  /\ (pick page_type_of (snd (email_login rt world p h)) <> [] ->
      exists el, pick email_query_of (snd (email_login rt world p h)) = [inr (Some el)])
  /\ (forall el,
         pick email_query_of (snd (email_login rt world p h)) = [inr (Some el)] ->
         env_truthy (CAPCUT_EMAIL rt) = true ->
         env_truthy (CAPCUT_PASSWORD rt) = true ->
         pick page_type_of (snd (email_login rt world p h)) <> []).
Proof.
  destruct (email_login rt world p h) as [r t] eqn:Hrun.
  cbn [snd]. unfold email_login in Hrun.
  repeat run_inv world.
  all: repeat match goal with u : unit |- _ => destruct u end.
  all: try match goal with
           | H : match ?a with Some _ => true | None => false end && _ && _ = _ |- _ =>
               destruct a; cbn [andb] in H
           end.
  all: try discriminate.
  all: cbn [pick page_type_of email_query_of app].
  all: change (String.eqb submitSel emailSel) with false.
  all: rewrite ?String.eqb_refl.
  all: (split; [|split]).
  all: lazymatch goal with
       | |- credentials_typed _ _ =>
           first
             [ now left
             | right;
               repeat match goal with
                      | H : _ && _ = true |- _ => apply andb_prop in H; destruct H
                      end;
               destruct (env_truthy_some (CAPCUT_EMAIL rt)) as (email & He1 & He2 & He3);
               [assumption|];
               destruct (env_truthy_some (CAPCUT_PASSWORD rt)) as (pw & Hp1 & Hp2 & Hp3);
               [assumption|];
               rewrite ?He3, ?Hp3;
               exists email, pw; repeat (split; [assumption|]);
               first [left; now eexists | right; now eexists] ]
       | |- _ <> [] -> _ => intros Hne; first [now elim Hne | now eexists]
       | |- forall el, _ =>
           intros el Hq He Hp;
           first [ discriminate Hq
                 | discriminate
                 | match goal with
                   | H : _ && _ = false |- _ =>
                       rewrite He, Hp in H; discriminate H
                   end ]
       end.
Qed.

(** X6: the only page.type calls of a run are those of the email login: the
    configured email into the email field and then the configured password
    into the password field.  Neither is typed unless the email field was
    found and both credentials are configured and not empty; then the email
    is typed; and the password is typed only when typing the email
    resolved. *)
Theorem credentials_typed_only_when_configured (payload : value) :
  credentials_typed rt (pick page_type_of (snd (run rt world payload)))
  /\ (pick page_type_of (snd (run rt world payload)) <> [] ->
      exists el, pick email_query_of (snd (run rt world payload)) = [inr (Some el)])
  /\ (forall el email password,
         pick email_query_of (snd (run rt world payload)) = [inr (Some el)] ->
         CAPCUT_EMAIL rt = Some email -> email <> EmptyString ->
         CAPCUT_PASSWORD rt = Some password -> password <> EmptyString ->
         pick page_type_of (snd (run rt world payload)) <> []).
Proof.
  set (Q := fun e => page_type_of e = None /\ email_query_of e = None).
  set (Post := fun (r : result unit) (t : trace) =>
                 credentials_typed rt (pick page_type_of t)
                 /\ (pick page_type_of t <> [] ->
                     exists el, pick email_query_of t = [inr (Some el)])
                 /\ (forall el,
                        pick email_query_of t = [inr (Some el)] ->
                        env_truthy (CAPCUT_EMAIL rt) = true ->
                        env_truthy (CAPCUT_PASSWORD rt) = true ->
                        pick page_type_of t <> [])).
  assert (Hsilent : forall t, Forall Q t ->
            pick page_type_of t = [] /\ pick email_query_of t = []).
  { intros t Ht. split; apply pick_silent; (eapply Forall_impl; [|exact Ht]); now intros e []. }
  assert (Hquiet : forall r t1, Forall Q t1 -> Post r t1).
  { intros r t1 Ht1. unfold Post. destruct (Hsilent _ Ht1) as [-> ->].
    split; [now left|]. split; [intros Hne; now elim Hne | intros el Hq; discriminate Hq]. }
  assert (Hclosed : forall t1 r t2, Forall Q t1 -> Post r t2 -> Post r (t1 ++ t2)).
  { intros t1 r t2 Ht1 Hpost. unfold Post. rewrite !pick_app.
    destruct (Hsilent _ Ht1) as [-> ->]. exact Hpost. }
  assert (Hrun : Post (fst (run rt world payload)) (snd (run rt world payload))).
  { unfold run, script.
    apply step_over with (Q := Q); [|exact Hquiet|exact Hclosed|intros _ h1].
    { unfold validate. emits_steps; now split. }
    apply step_over with (Q := Q); [|exact Hquiet|exact Hclosed|intros outputName h2].
    { emits_steps. }
    apply step_over with (Q := Q); [|exact Hquiet|exact Hclosed|intros localFiles h3].
    { eapply emits_weaken; [|apply stage_assets_calls].
      intros [X c r]; destruct c; simpl; intros H; try (now split); destruct H. }
    apply step_over with (Q := Q); [|exact Hquiet|exact Hclosed|intros [b p] h4].
    { unfold open_editor. emits_steps; now split. }
    unfold drive_editor. cbn [fst snd].
    apply step_over with (Q := Q); [|exact Hquiet|exact Hclosed|intros _ h5].
    { unfold login_button. emits_steps; now split. }
    unfold Post.
    rewrite !pick_bind_quiet
      by (intros; unfold create_project, upload, timeline, captions, add_caption, export,
                    poll_and_download, finish;
          emits_steps; reflexivity).
    apply email_login_types. }
  destruct Hrun as (Htyped & Hfound & Hdone).
  split; [exact Htyped|]. split; [exact Hfound|].
  intros el email password Hq He Hne Hp Hnp. apply (Hdone el Hq).
  - rewrite He. cbn. destruct (String.eqb_spec email EmptyString); [now elim Hne | reflexivity].
  - rewrite Hp. cbn. destruct (String.eqb_spec password EmptyString);
      [now elim Hnp | reflexivity].
Qed.

End Authentication.

(** ** Thumbnails (lines 163-174) *)

Section Thumbnails.

Variable rt : Runtime.
Variable world : World.

(** Lines 169-174: the loop clicks every element it is given, in order,
    and completes whether the clicks go through or not. *)
Lemma thumb_loop p (thumbs : list handle) :
  forall h,
    fst (for_each thumbs
           (fun x => try_catch (perform world (ElClick x (Some 100%Z)) ;;
                                perform world (WaitForTimeout p 400%Z))
                               (fun _ => ret tt)) h) = Ok tt
    /\ pick thumb_click_of
            (snd (for_each thumbs
                    (fun x => try_catch (perform world (ElClick x (Some 100%Z)) ;;
                                         perform world (WaitForTimeout p 400%Z))
                                        (fun _ => ret tt)) h)) = thumbs.
Proof.
  induction thumbs as [|x thumbs IH]; intros h; [now split|].
  cbn [for_each]. rewrite bind_eq.
  match goal with |- context [fst (try_catch ?m ?k h)] =>
    assert (Hbody : fst (try_catch m k h) = Ok tt
                    /\ pick thumb_click_of (snd (try_catch m k h)) = [x])
  end.
  { destruct (try_catch _ _ h) as [r t] eqn:Hrun. cbn [fst snd].
    repeat run_inv world.
    all: repeat match goal with u : unit |- _ => destruct u end.
    all: now split. }
  destruct Hbody as [Hok Hclick]. rewrite Hok. cbn [fst snd].
  rewrite pick_app, Hclick.
  match goal with |- context [for_each thumbs _ ?h'] => destruct (IH h') as [IH1 IH2] end.
  now rewrite IH1, IH2.
Qed.

Lemma thumb_loop_finds_nothing p (thumbs : list handle) :
  emits (fun e => thumbs_found_of e = None /\ thumbs_failure_of e = None)
        (for_each thumbs
           (fun x => try_catch (perform world (ElClick x (Some 100%Z)) ;;
                                perform world (WaitForTimeout p 400%Z))
                               (fun _ => ret tt))).
Proof. emits_steps; now split. Qed.

Lemma captions_no_thumbs p payload :
  emits (fun e => thumbs_found_of e = None /\ thumb_click_of e = None
                  /\ thumbs_failure_of e = None)
        (captions rt world p payload).
Proof. unfold captions, add_caption. emits_steps; now repeat split. Qed.

Lemma timeline_thumbs p payload h :
  match pick thumbs_found_of (snd (timeline rt world p payload h)) with
  | [] => pick thumb_click_of (snd (timeline rt world p payload h)) = []
  | [thumbs] => pick thumb_click_of (snd (timeline rt world p payload h)) = firstn 12 thumbs
  | _ => False
  end.
Proof.
  unfold timeline.
  rewrite !pick_try_catch_quiet by (intros; emits_steps; reflexivity).
  rewrite perform_bind.
  destruct (world unit h (WaitForSelector p thumbSel 10000)) as [err|[]]; [reflexivity|].
  cbn [snd pick thumbs_found_of thumb_click_of].
  rewrite perform_bind.
  destruct (world (list handle) _ (QueryAll p thumbSel)) as [err|thumbs]; [reflexivity|].
  rewrite console_bind.
  cbn [snd pick thumbs_found_of thumb_click_of]. rewrite String.eqb_refl.
  rewrite !pick_bind_quiet
    by (intros; eapply emits_weaken; [|apply captions_no_thumbs]; now intros e (? & ? & ?)).
  match goal with |- context [for_each _ _ ?h'] =>
    destruct (thumb_loop p (firstn 12 thumbs) h') as [_ Hclicks];
    pose proof (thumb_loop_finds_nothing p (firstn 12 thumbs) h') as Hquiet
  end.
  assert (Hfound : forall t, Forall (fun e => thumbs_found_of e = None
                                              /\ thumbs_failure_of e = None) t ->
                             pick thumbs_found_of t = []).
  { intros t Ht. apply pick_silent. eapply Forall_impl; [|exact Ht]. now intros e []. }
  apply Hfound in Hquiet.
  now rewrite Hquiet, Hclicks.
Qed.

(** X7: whatever the clicks answer, a run clicks (with the 100 ms delay) the
    first twelve of the thumbnails that page.$$ found, each once and in
    order, and no other element; without a resolved page.$$ it clicks
    none.  page.$$ resolves at most once in a run. *)
Theorem thumbnails_clicked_up_to_cap (payload : value) :
  match pick thumbs_found_of (snd (run rt world payload)) with
  | [] => pick thumb_click_of (snd (run rt world payload)) = []
  | [thumbs] => pick thumb_click_of (snd (run rt world payload)) = firstn 12 thumbs
  | _ => False
  end.
Proof.
  set (Q := fun e => thumbs_found_of e = None /\ thumb_click_of e = None).
  set (Post := fun (r : result unit) (t : trace) =>
                 match pick thumbs_found_of t with
                 | [] => pick thumb_click_of t = []
                 | [thumbs] => pick thumb_click_of t = firstn 12 thumbs
                 | _ => False
                 end).
  assert (Hsilent : forall t, Forall Q t ->
            pick thumbs_found_of t = [] /\ pick thumb_click_of t = []).
  { intros t Ht. split; apply pick_silent; (eapply Forall_impl; [|exact Ht]); now intros e []. }
  assert (Hquiet : forall r t1, Forall Q t1 -> Post r t1).
  { intros r t1 Ht1. unfold Post. destruct (Hsilent _ Ht1) as [-> ->]. reflexivity. }
  assert (Hclosed : forall t1 r t2, Forall Q t1 -> Post r t2 -> Post r (t1 ++ t2)).
  { intros t1 r t2 Ht1 Hpost. unfold Post. rewrite !pick_app.
    destruct (Hsilent _ Ht1) as [-> ->]. exact Hpost. }
  change (Post (fst (run rt world payload)) (snd (run rt world payload))).
  unfold run, script.
  apply step_over with (Q := Q); [|exact Hquiet|exact Hclosed|intros _ h1].
  { unfold validate. emits_steps; now split. }
  apply step_over with (Q := Q); [|exact Hquiet|exact Hclosed|intros outputName h2].
  { emits_steps. }
  apply step_over with (Q := Q); [|exact Hquiet|exact Hclosed|intros localFiles h3].
  { eapply emits_weaken; [|apply stage_assets_calls].
    intros [X c r]; destruct c; simpl; intros H; try (now split); destruct H. }
  apply step_over with (Q := Q); [|exact Hquiet|exact Hclosed|intros [b p] h4].
  { unfold open_editor. emits_steps; now split. }
  unfold drive_editor. cbn [fst snd].
  apply step_over with (Q := Q); [|exact Hquiet|exact Hclosed|intros _ h5].
  { unfold login_button. emits_steps; now split. }
  apply step_over with (Q := Q); [|exact Hquiet|exact Hclosed|intros _ h6].
  { unfold email_login. emits_steps; now split. }
  apply step_over with (Q := Q); [|exact Hquiet|exact Hclosed|intros _ h7].
  { unfold create_project. emits_steps; now split. }
  apply step_over with (Q := Q); [|exact Hquiet|exact Hclosed|intros _ h8].
  { unfold upload. emits_steps; now split. }
  unfold Post.
  rewrite !pick_bind_quiet
    by (intros; unfold export, poll_and_download, finish; emits_steps; reflexivity).
  apply timeline_thumbs.
Qed.

Lemma pick_bind_incl {O A B} (f : event -> option O) (m : M A) (k : A -> M B) h x :
  In x (pick f (snd (m h))) -> In x (pick f (snd (bind m k h))).
Proof.
  intros Hin. rewrite bind_eq.
  destruct (fst (m h)) as [a|e|c]; cbn [snd]; try assumption.
  rewrite pick_app. apply in_or_app. now left.
Qed.

Lemma timeline_thumbs_failure p payload err h :
  In err (pick thumbs_failure_of (snd (timeline rt world p payload h))) ->
  pick thumb_click_of (snd (timeline rt world p payload h)) = []
  /\ pick caption_call_of (snd (timeline rt world p payload h)) = []
  /\ In [VStr "Timeline population step had issues:"; VStr (message err)]
        (pick warning_of (snd (timeline rt world p payload h))).
Proof.
  unfold timeline. rewrite try_catch_eq, perform_bind.
  destruct (world unit h (WaitForSelector p thumbSel 10000)) as [e|[]].
  { cbn. intros [<-|[]]. repeat split. now left. }
  rewrite perform_bind.
  destruct (world (list handle) _ (QueryAll p thumbSel)) as [e|thumbs].
  { cbn. intros [<-|[]]. repeat split. now left. }
  rewrite console_bind. cbn [fst snd].
  match goal with |- context [fst (?m ?h')] =>
    assert (Hrest : pick thumbs_failure_of (snd (m h')) = [])
  end.
  { apply pick_silent.
    match goal with |- Forall _ (snd (?m ?h')) =>
      generalize h'; change (emits (fun e => thumbs_failure_of e = None) m) end.
    apply emits_bind.
    - eapply emits_weaken; [|apply thumb_loop_finds_nothing]. now intros e [].
    - intros _. eapply emits_weaken; [|apply captions_no_thumbs]. now intros e (? & ? & ?). }
  match goal with |- context [fst (?m ?h')] => destruct (fst (m h')) end.
  all: cbn [fst snd console app pick thumbs_failure_of].
  all: rewrite ?pick_app, ?Hrest.
  all: cbn [pick thumbs_failure_of app]; rewrite ?String.eqb_refl.
  all: intros [].
Qed.

(** X8: the thumbnails and the captions share one try block: when the wait for
    the thumbnails or the query for them fails, no thumbnail is clicked and
    the caption part is skipped as a whole (no search for the text controls,
    no text entry, nothing typed); the failure is logged as the warning of
    the timeline step. *)
Theorem thumbnail_failure_skips_captions (payload : value) (err : exn) :
  In err (pick thumbs_failure_of (snd (run rt world payload))) ->
  pick thumb_click_of (snd (run rt world payload)) = []
  /\ pick caption_call_of (snd (run rt world payload)) = []
  /\ In [VStr "Timeline population step had issues:"; VStr (message err)]
        (pick warning_of (snd (run rt world payload))).
Proof.
  set (Q := fun e => thumbs_failure_of e = None /\ thumb_click_of e = None
                     /\ caption_call_of e = None).
  set (Post := fun (r : result unit) (t : trace) =>
                 In err (pick thumbs_failure_of t) ->
                 pick thumb_click_of t = []
                 /\ pick caption_call_of t = []
                 /\ In [VStr "Timeline population step had issues:"; VStr (message err)]
                       (pick warning_of t)).
  assert (Hsilent : forall t, Forall Q t ->
            pick thumbs_failure_of t = [] /\ pick thumb_click_of t = []
            /\ pick caption_call_of t = []).
  { intros t Ht. repeat split; apply pick_silent; (eapply Forall_impl; [|exact Ht]);
      now intros e (? & ? & ?). }
  assert (Hquiet : forall r t1, Forall Q t1 -> Post r t1).
  { intros r t1 Ht1 Hin. destruct (Hsilent _ Ht1) as (Hf & _). rewrite Hf in Hin.
    destruct Hin. }
  assert (Hclosed : forall t1 r t2, Forall Q t1 -> Post r t2 -> Post r (t1 ++ t2)).
  { intros t1 r t2 Ht1 Hpost Hin. destruct (Hsilent _ Ht1) as (Hf & Hc & Hk).
    rewrite pick_app, Hf in Hin. destruct (Hpost Hin) as (H1 & H2 & H3).
    rewrite !pick_app, Hc, Hk, H1, H2. repeat split. apply in_or_app. now right. }
  change (Post (fst (run rt world payload)) (snd (run rt world payload))).
  unfold run, script.
  apply step_over with (Q := Q); [|exact Hquiet|exact Hclosed|intros _ h1].
  { unfold validate. emits_steps; now repeat split. }
  apply step_over with (Q := Q); [|exact Hquiet|exact Hclosed|intros outputName h2].
  { emits_steps. }
  apply step_over with (Q := Q); [|exact Hquiet|exact Hclosed|intros localFiles h3].
  { eapply emits_weaken; [|apply stage_assets_calls].
    intros [X c r]; destruct c; simpl; intros H; try (now repeat split); destruct H. }
  apply step_over with (Q := Q); [|exact Hquiet|exact Hclosed|intros [b p] h4].
  { unfold open_editor. emits_steps; now repeat split. }
  unfold drive_editor. cbn [fst snd].
  apply step_over with (Q := Q); [|exact Hquiet|exact Hclosed|intros _ h5].
  { unfold login_button. emits_steps; now repeat split. }
  apply step_over with (Q := Q); [|exact Hquiet|exact Hclosed|intros _ h6].
  { unfold email_login. emits_steps; now repeat split. }
  apply step_over with (Q := Q); [|exact Hquiet|exact Hclosed|intros _ h7].
  { unfold create_project. emits_steps; now repeat split. }
  apply step_over with (Q := Q); [|exact Hquiet|exact Hclosed|intros _ h8].
  { unfold upload. emits_steps; now repeat split. }
  unfold Post.
  rewrite !pick_bind_quiet
    by (intros; unfold export, poll_and_download, finish; emits_steps; reflexivity).
  intros Hin. destruct (timeline_thumbs_failure p payload err h8 Hin) as (H1 & H2 & H3).
  repeat split; try assumption. now apply pick_bind_incl.
Qed.

End Thumbnails.

(** ** Where assets are staged (lines 46-64) *)

Section StagedNames.

Variable rt : Runtime.
Variable world : World.

Lemma asset_filename_shape (i : nat) (u : string) :
  exists ext,
    asset_filename i (Path.extname u) = (tmpDir ++ "/asset_" ++ JS.dec i ++ "." ++ ext)%string
    /\ Forall (fun c => c <> Path.slash) (Path.chars ext).
Proof.
  destruct (PathFacts.asset_suffix_chars u) as [Hplain [rest Hrest]].
  exists (Path.str rest). split.
  - rewrite PathFacts.asset_filename_eq. do 3 f_equal.
    apply PathFacts.chars_inj. rewrite Hrest.
    cbn. now rewrite PathFacts.chars_str.
  - rewrite PathFacts.chars_str. rewrite Hrest in Hplain. now inversion Hplain.
Qed.

Lemma download_assets_names assetUrls n :
  forall i localFiles h,
    staged_names i (pick write_of (snd (download_assets world assetUrls n i localFiles h))).
Proof.
  induction n as [|n IH]; intros i localFiles h; [exact I|].
  cbn [download_assets].
  rewrite lift_bind. destruct (JS.index assetUrls i) as [err|url]; [exact I|].
  rewrite lift_bind. destruct (path_extname url) as [err|ext] eqn:Hext; [exact I|].
  rewrite perform_bind. destruct (world response h (Fetch url)) as [err|res]; [exact I|].
  destruct (ok res); cbn [negb].
  - rewrite perform_bind. destruct (world _ _ (ResBuffer res)) as [err|data]; [exact I|].
    destruct url as [| | | |u| |]; try discriminate Hext. injection Hext as <-.
    rewrite perform_bind. destruct (world _ _ (WriteFileSync _ _)) as [err|[]].
    + cbn. split; [apply asset_filename_shape | exact I].
    + rewrite console_bind. cbn [snd pick write_of].
      split; [apply asset_filename_shape | apply IH].
  - rewrite console_bind. exact I.
Qed.

Lemma stage_assets_names payload h :
  staged_names 0 (pick write_of (snd (stage_assets rt world payload h))).
Proof.
  unfold stage_assets.
  rewrite perform_bind. destruct (world bool h (ExistsSync tmpDir)) as [err|present];
    [exact I|].
  cbn [snd pick write_of]. rewrite bind_eq.
  assert (Hdir : emits (fun e => write_of e = None)
                       (if present then ret tt else perform world (MkdirSync tmpDir true))).
  { emits_steps; reflexivity. }
  rewrite (surjective_pairing
             ((if present then ret tt else perform world (MkdirSync tmpDir true)) _)).
  destruct (fst _) as [[]|e|c]; cbn [fst snd]; rewrite ?pick_app, (pick_silent _ _ (Hdir _));
    try exact I.
  cbn [app]. rewrite console_bind. cbn [snd pick write_of].
  rewrite lift_bind. destruct (JS.prop payload "assetUrls") as [err|assetUrls]; [exact I|].
  rewrite lift_bind. destruct (turns rt (fun len => len) assetUrls) as [err|n]; [exact I|].
  apply download_assets_names.
Qed.

(** X9: whatever the payload holds and whatever the surroundings answer, the
    files a run writes before launching the browser are asset_0, asset_1,
    ... in this order, each with a dotted extension and directly inside
    /tmp/capcut_assets: no asset URL can steer a staged file elsewhere. *)
Theorem staged_files_stay_in_staging_directory (payload : value) :
  staged_names 0 (pick write_of (before_launch (snd (run rt world payload)))).
Proof.
  unfold run, script.
  rewrite bind_eq, validate_run.
  destruct (JS.prop payload "assetUrls") as [err|urls]; [exact I|].
  destruct (JS.truthy payload && JS.truthy urls); [|exact I].
  cbn [fst snd app]. rewrite lift_bind.
  destruct (OUTPUT_NAME rt payload) as [err|outputName]; [exact I|].
  rewrite bind_eq.
  pose proof (stage_assets_calls rt world payload []) as Hcalls.
  assert (Hquiet : Forall (fun e => launch_of e = None)
                          (snd (stage_assets rt world payload [])))
    by (eapply Forall_impl; [apply staging_call_no_launch | exact Hcalls]).
  pose proof (stage_assets_names payload []) as Hnames.
  destruct (fst (stage_assets rt world payload [])) as [files|err|code];
    cbn [fst snd]; try (rewrite before_launch_quiet by exact Hquiet; exact Hnames).
  rewrite before_launch_silent by exact Hquiet.
  match goal with |- context [bind (open_editor rt world) ?f ?h] =>
    destruct (open_editor_launches_first rt world f h) as (c & r & rest & -> & Hfirst)
  end.
  cbn [before_launch]. rewrite Hfirst, app_nil_r. exact Hnames.
Qed.

End StagedNames.

(** ** The caption loop (lines 188-204) *)

Section CaptionLoop.

Variable rt : Runtime.
Variable world : World.

Lemma add_caption_completes p scriptObj addTextBtn i :
  always_completes (add_caption world p scriptObj addTextBtn i).
Proof.
  unfold add_caption. apply guarded_completes; [never_exits_steps|].
  intros e. apply console_completes.
Qed.

Lemma add_caption_clicks p scriptObj btn rest i h :
  pick plain_click_of (snd (add_caption world p scriptObj (btn :: rest) i h)) = [btn].
Proof.
  destruct (add_caption world p scriptObj (btn :: rest) i h) as [r t] eqn:Hrun.
  cbn [snd]. unfold add_caption in Hrun.
  repeat run_inv world; reflexivity.
Qed.

(** X10: each caption failure is tolerated on its own: whatever the page answers
    in a turn (a rejected click, no text entry, a rejected focus or typing, an
    entry that cannot be read), the loop goes on to the next turn.  Over [n]
    turns with an add-text control it clicks that control [n] times and
    completes; without one it does nothing at all. *)
Theorem caption_loop_survives_failures p scriptObj (n : nat) :
  (forall start h,
      for_range n start (add_caption world p scriptObj []) h = (Ok tt, []))
  /\ (forall btn rest start h,
         fst (for_range n start (add_caption world p scriptObj (btn :: rest)) h) = Ok tt
         /\ pick plain_click_of
                 (snd (for_range n start (add_caption world p scriptObj (btn :: rest)) h))
            = repeat btn n).
Proof.
  split.
  - induction n as [|n IH]; intros start h; [reflexivity|].
    cbn [for_range]. rewrite bind_eq. cbn [add_caption try_catch ret fst snd].
    now rewrite IH.
  - intros btn rest. induction n as [|n IH]; intros start h; [now split|].
    cbn [for_range]. rewrite bind_eq.
    rewrite (add_caption_completes p scriptObj (btn :: rest) start h). cbn [fst snd].
    rewrite pick_app, add_caption_clicks.
    match goal with |- context [for_range n _ _ ?h'] =>
      destruct (IH (S start) h') as [IH1 IH2] end.
    now rewrite IH1, IH2.
Qed.

End CaptionLoop.

(** ** The browser that is launched (lines 43, 67-78) *)

Section LaunchConfig.

Variable rt : Runtime.
Variable world : World.

(** X11: a run launches at most one browser, always headless and with the six
    flags of the script; the executable is CHROME_EXEC when that is set and
    not empty, and /usr/bin/google-chrome-stable otherwise. *)
Theorem at_most_one_launch_with_fixed_flags (payload : value) :
  pick launch_config_of (snd (run rt world payload)) = []
  \/ exists exec,
      pick launch_config_of (snd (run rt world payload)) = [(exec, launch_args, true)]
      /\ ((CHROME_EXEC rt = Some exec /\ exec <> EmptyString)
          \/ (exec = "/usr/bin/google-chrome-stable"
              /\ (CHROME_EXEC rt = None \/ CHROME_EXEC rt = Some EmptyString))).
Proof.
  set (Q := fun e => launch_config_of e = None).
  set (Post := fun (r : result unit) (t : trace) =>
                 pick launch_config_of t = []
                 \/ exists exec,
                     pick launch_config_of t = [(exec, launch_args, true)]
                     /\ ((CHROME_EXEC rt = Some exec /\ exec <> EmptyString)
                         \/ (exec = "/usr/bin/google-chrome-stable"
                             /\ (CHROME_EXEC rt = None
                                 \/ CHROME_EXEC rt = Some EmptyString)))).
  assert (Hquiet : forall r t1, Forall Q t1 -> Post r t1).
  { intros r t1 Ht1. left. now apply pick_silent. }
  assert (Hclosed : forall t1 r t2, Forall Q t1 -> Post r t2 -> Post r (t1 ++ t2)).
  { intros t1 r t2 Ht1 Hpost. unfold Post. now rewrite pick_app, (pick_silent _ _ Ht1). }
  change (Post (fst (run rt world payload)) (snd (run rt world payload))).
  unfold run, script.
  apply step_over with (Q := Q); [|exact Hquiet|exact Hclosed|intros _ h1].
  { unfold validate. emits_steps; reflexivity. }
  apply step_over with (Q := Q); [|exact Hquiet|exact Hclosed|intros outputName h2].
  { emits_steps. }
  apply step_over with (Q := Q); [|exact Hquiet|exact Hclosed|intros localFiles h3].
  { eapply emits_weaken; [|apply stage_assets_calls].
    intros [X c r]; destruct c; simpl; intros H; try reflexivity; destruct H. }
  unfold Post. right.
  rewrite pick_bind_quiet.
  2:{ intros [b p]. unfold drive_editor, login_button, email_login, create_project, upload,
        timeline, captions, add_caption, export, poll_and_download, finish.
      emits_steps; reflexivity. }
  unfold open_editor.
  rewrite pick_bind_quiet by (intros; emits_steps; reflexivity).
  cbn [perform snd pick launch_config_of].
  eexists. split; [reflexivity|].
  destruct (CHROME_EXEC rt) as [s|]; cbn [env_truthy env_string negb].
  - destruct (String.eqb_spec s EmptyString) as [->|Hne]; cbn [negb].
    + right. split; [reflexivity | now right].
    + left. now split.
  - right. split; [reflexivity | now left].
Qed.

End LaunchConfig.

(** ** Errors during asset acquisition (lines 46-64) *)

Section StagingErrors.

Variable rt : Runtime.
Variable world : World.

Lemma download_assets_failure err assetUrls n :
  forall i localFiles h,
    In err (pick staging_failure_of (snd (download_assets world assetUrls n i localFiles h))) ->
    fst (download_assets world assetUrls n i localFiles h) = Throw err
    /\ exists pre e,
        snd (download_assets world assetUrls n i localFiles h) = pre ++ [e]
        /\ staging_failure_of e = Some err.
Proof.
  induction n as [|n IH]; intros i localFiles h; [intros []|].
  cbn [download_assets].
  rewrite lift_bind. destruct (JS.index assetUrls i) as [e|url]; [intros []|].
  rewrite lift_bind. destruct (path_extname url) as [e|ext]; [intros []|].
  rewrite perform_bind. destruct (world response h (Fetch url)) as [e|res].
  { cbn. intros [<-|[]]. split; [reflexivity|]. now eexists [], _. }
  destruct (ok res); cbn [negb].
  - rewrite perform_bind. destruct (world _ _ (ResBuffer res)) as [e|data].
    { cbn. intros [<-|[]]. split; [reflexivity|]. now eexists [_], _. }
    rewrite perform_bind. destruct (world _ _ (WriteFileSync _ _)) as [e|[]].
    { cbn. intros [<-|[]]. split; [reflexivity|]. now eexists [_; _], _. }
    rewrite console_bind. cbn [fst snd pick staging_failure_of]. intros Hin.
    destruct (IH _ _ _ Hin) as (Hr & pre & e & Ht & He).
    split; [exact Hr|]. rewrite Ht. eexists (_ :: _ :: _ :: _ :: pre), e. now split.
  - rewrite console_bind. cbn. intros [].
Qed.

Lemma stage_assets_failure err payload h :
  In err (pick staging_failure_of (snd (stage_assets rt world payload h))) ->
  fst (stage_assets rt world payload h) = Throw err
  /\ exists pre e,
      snd (stage_assets rt world payload h) = pre ++ [e]
      /\ staging_failure_of e = Some err.
Proof.
  unfold stage_assets.
  rewrite perform_bind. destruct (world bool h (ExistsSync tmpDir)) as [e|present].
  { cbn. intros [<-|[]]. split; [reflexivity|]. now eexists [], _. }
  destruct present.
  - rewrite ret_bind, console_bind, lift_bind.
    destruct (JS.prop payload "assetUrls") as [e|assetUrls]; [intros [] |].
    rewrite lift_bind.
    destruct (turns rt (fun len => len) assetUrls) as [e|n]; [intros [] |].
    cbn [fst snd pick staging_failure_of]. intros Hin.
    destruct (download_assets_failure _ _ _ _ _ _ Hin) as (Hr & pre & e & Ht & He).
    split; [exact Hr|]. rewrite Ht. eexists (_ :: _ :: pre), e. now split.
  - rewrite perform_bind. destruct (world unit _ (MkdirSync tmpDir true)) as [e|[]].
    { cbn. intros [<-|[]]. split; [reflexivity|]. now eexists [_], _. }
    rewrite console_bind, lift_bind.
    destruct (JS.prop payload "assetUrls") as [e|assetUrls]; [intros [] |].
    rewrite lift_bind.
    destruct (turns rt (fun len => len) assetUrls) as [e|n]; [intros [] |].
    cbn [fst snd pick staging_failure_of]. intros Hin.
    destruct (download_assets_failure _ _ _ _ _ _ Hin) as (Hr & pre & e & Ht & He).
    split; [exact Hr|]. rewrite Ht. eexists (_ :: _ :: _ :: pre), e. now split.
Qed.

(** X12: only a response that is not ok is turned into the logged exit with
    status 1.  When, before the launch, a fetch rejects (a network error),
    a body cannot be read, or the staging directory or a file cannot be
    checked, made or written, the error escapes the script: the run ends
    with it as an uncaught rejection, the failed call is the last entry of
    the trace, and the browser is never launched. *)
Theorem staging_error_is_uncaught (payload : value) (err : exn) :
  In err (pick staging_failure_of (before_launch (snd (run rt world payload)))) ->
  fst (run rt world payload) = Throw err
  /\ (exists pre e, snd (run rt world payload) = pre ++ [e]
                    /\ staging_failure_of e = Some err)
  /\ pick launch_of (snd (run rt world payload)) = [].
Proof.
  unfold run, script.
  rewrite bind_eq, validate_run.
  destruct (JS.prop payload "assetUrls") as [e|urls]; [intros []|].
  destruct (JS.truthy payload && JS.truthy urls); [|intros []].
  cbn [fst snd app]. rewrite lift_bind.
  destruct (OUTPUT_NAME rt payload) as [e|outputName]; [intros []|].
  rewrite bind_eq.
  pose proof (stage_assets_calls rt world payload []) as Hcalls.
  assert (Hquiet : Forall (fun e => launch_of e = None)
                          (snd (stage_assets rt world payload [])))
    by (eapply Forall_impl; [apply staging_call_no_launch | exact Hcalls]).
  pose proof (stage_assets_failure err payload []) as Hfail.
  destruct (fst (stage_assets rt world payload [])) as [files|e|code] eqn:Hfst;
    cbn [fst snd].
  - rewrite before_launch_silent by exact Hquiet.
    match goal with |- context [bind (open_editor rt world) ?f ?h] =>
      destruct (open_editor_launches_first rt world f h) as (c & r & rest & -> & Hfirst)
    end.
    cbn [before_launch]. rewrite Hfirst, app_nil_r. intros Hin.
    destruct (Hfail Hin) as [Hr _]. discriminate Hr.
  - rewrite before_launch_quiet by exact Hquiet. intros Hin.
    destruct (Hfail Hin) as [Hr Hlast]. injection Hr as ->.
    split; [reflexivity|]. split; [exact Hlast|].
    now apply pick_silent.
  - rewrite before_launch_quiet by exact Hquiet. intros Hin.
    destruct (Hfail Hin) as [Hr _]. discriminate Hr.
Qed.

End StagingErrors.

(** ** Retrieving the artifact (lines 235-244) *)

Section ArtifactRetrieval.

Variable rt : Runtime.
Variable world : World.

Lemma poll_and_download_retrieval p outputName h :
  pick fetched_url_of (snd (poll_and_download world p outputName h))
  = map (fun ref => JS.or (fst ref) (snd ref))
        (pick download_ref_of (snd (poll_and_download world p outputName h)))
  /\ pick body_request_of (snd (poll_and_download world p outputName h))
     = pick fetch_response_of (snd (poll_and_download world p outputName h))
  /\ (forall name,
         outputName = VStr name ->
         pick write_attempt_of (snd (poll_and_download world p outputName h))
         = map (fun rd => (Path.join "/tmp" name, snd rd))
               (pick body_of (snd (poll_and_download world p outputName h)))).
Proof.
  destruct (poll_and_download world p outputName h) as [r t] eqn:Hrun.
  cbn [snd]. unfold poll_and_download in Hrun.
  repeat run_inv world.
  all: split; [reflexivity|].
  all: split; [reflexivity|].
  all: intros name ->.
  all: try reflexivity.
  all: match goal with
       | H : path_join _ _ = _ |- _ => cbn in H; try discriminate H; injection H as <-
       end.
  all: reflexivity.
Qed.

(** X13: what the script does with the download link it finds.  After the
    launch, the only fetches of a run are of [href || data-url] as read off
    the link, one for each time that was read, whatever the value is.  The
    answer is never inspected: res.buffer() is called on every response
    that such a fetch resolved with, ok or not and whatever its status (and
    on nothing else); and with a string as output name, every body that was
    read is handed to fs.writeFileSync at path.join('/tmp', name), and
    nothing else is. *)
Theorem artifact_is_fetched_and_written_unchecked (payload : value) :
  pick fetched_url_of (since_launch (snd (run rt world payload)))
  = map (fun ref => JS.or (fst ref) (snd ref))
        (pick download_ref_of (since_launch (snd (run rt world payload))))
  /\ pick body_request_of (since_launch (snd (run rt world payload)))
     = pick fetch_response_of (since_launch (snd (run rt world payload)))
  /\ (forall name,
         OUTPUT_NAME rt payload = inr (VStr name) ->
         pick write_attempt_of (since_launch (snd (run rt world payload)))
         = map (fun rd => (Path.join "/tmp" name, snd rd))
               (pick body_of (since_launch (snd (run rt world payload))))).
Proof.
  unfold run, script.
  rewrite bind_eq, validate_run.
  destruct (JS.prop payload "assetUrls") as [e|urls]; [now repeat split|].
  destruct (JS.truthy payload && JS.truthy urls); [|now repeat split].
  cbn [fst snd app]. rewrite lift_bind.
  destruct (OUTPUT_NAME rt payload) as [e|outputName]; [now repeat split|].
  rewrite bind_eq.
  pose proof (stage_assets_calls rt world payload []) as Hcalls.
  assert (Hlaunch : Forall (fun e => launch_of e = None)
                           (snd (stage_assets rt world payload [])))
    by (eapply Forall_impl; [apply staging_call_no_launch | exact Hcalls]).
  destruct (fst (stage_assets rt world payload [])) as [files|e|code];
    cbn [fst snd]; try (rewrite since_launch_quiet by exact Hlaunch; now repeat split).
  rewrite since_launch_silent by exact Hlaunch.
  rewrite open_editor_since_launch.
  set (Q := fun e => fetched_url_of e = None /\ download_ref_of e = None
                     /\ write_attempt_of e = None /\ body_of e = None
                     /\ body_request_of e = None /\ fetch_response_of e = None).
  set (Post := fun (r : result unit) (t : trace) =>
                 pick fetched_url_of t
                 = map (fun ref => JS.or (fst ref) (snd ref)) (pick download_ref_of t)
                 /\ pick body_request_of t = pick fetch_response_of t
                 /\ (forall name,
                        inr outputName = inr (A := exn) (VStr name) ->
                        pick write_attempt_of t
                        = map (fun rd => (Path.join "/tmp" name, snd rd)) (pick body_of t))).
  assert (Hsilent : forall t, Forall Q t ->
            pick fetched_url_of t = [] /\ pick download_ref_of t = []
            /\ pick write_attempt_of t = [] /\ pick body_of t = []
            /\ pick body_request_of t = [] /\ pick fetch_response_of t = []).
  { intros t Ht. repeat split; apply pick_silent; (eapply Forall_impl; [|exact Ht]);
      now intros e (? & ? & ? & ? & ? & ?). }
  assert (Hquiet : forall r t1, Forall Q t1 -> Post r t1).
  { intros r t1 Ht1. unfold Post.
    destruct (Hsilent _ Ht1) as (-> & -> & -> & -> & -> & ->). now repeat split. }
  assert (Hclosed : forall t1 r t2, Forall Q t1 -> Post r t2 -> Post r (t1 ++ t2)).
  { intros t1 r t2 Ht1 Hpost. unfold Post. rewrite !pick_app.
    destruct (Hsilent _ Ht1) as (-> & -> & -> & -> & -> & ->). exact Hpost. }
  match goal with |- ?G1 /\ ?G2 =>
    change (Post (fst (bind (open_editor rt world)
                         (fun bp => drive_editor rt world (fst bp) (snd bp) payload
                                      outputName files)
                         ([] ++ snd (stage_assets rt world payload []))))
                 (snd (bind (open_editor rt world)
                         (fun bp => drive_editor rt world (fst bp) (snd bp) payload
                                      outputName files)
                         ([] ++ snd (stage_assets rt world payload [])))))
  end.
  apply step_over with (Q := Q); [|exact Hquiet|exact Hclosed|intros [b p] h4].
  { unfold open_editor. emits_steps; now repeat split. }
  unfold drive_editor. cbn [fst snd].
  apply step_over with (Q := Q); [|exact Hquiet|exact Hclosed|intros _ h5].
  { unfold login_button. emits_steps; now repeat split. }
  apply step_over with (Q := Q); [|exact Hquiet|exact Hclosed|intros _ h6].
  { unfold email_login. emits_steps; now repeat split. }
  apply step_over with (Q := Q); [|exact Hquiet|exact Hclosed|intros _ h7].
  { unfold create_project. emits_steps; now repeat split. }
  apply step_over with (Q := Q); [|exact Hquiet|exact Hclosed|intros _ h8].
  { unfold upload. emits_steps; now repeat split. }
  apply step_over with (Q := Q); [|exact Hquiet|exact Hclosed|intros _ h9].
  { unfold timeline, captions, add_caption. emits_steps; now repeat split. }
  apply step_over with (Q := Q); [|exact Hquiet|exact Hclosed|intros _ h10].
  { unfold export. emits_steps; now repeat split. }
  unfold Post.
  rewrite !pick_bind_quiet by (intros; unfold finish; emits_steps; reflexivity).
  destruct (poll_and_download_retrieval p outputName h10) as (Hurl & Hbody & Hwrite).
  split; [exact Hurl|]. split; [exact Hbody|]. intros name [= ->]. now apply Hwrite.
Qed.

End ArtifactRetrieval.

(** ** Where the payload comes from (lines 28-38) *)

Section Entry.

Variable rt : Runtime.
Variable world : World.

(** X14: without its input the script stops with status 1 before doing anything
    else.  When GITHUB_EVENT_PATH is unset or empty it logs that and exits
    without reading a file.  When the event file holds JSON whose
    [client_payload] is missing or falsy, the payload is taken to be the
    empty object, so after reading the file the run logs the missing
    payload fields and exits. *)
Theorem main_stops_without_input (h : trace) :
  (env_truthy (GITHUB_EVENT_PATH rt) = false ->
   main rt world h
   = (Exit 1,
      [Ev (Console LError
             [VStr "GITHUB_EVENT_PATH env var missing. Are you running in GH Actions?"])
          (inr tt)]))
  /\ (forall (path text : string) (ev v : value),
         GITHUB_EVENT_PATH rt = Some path ->
         path <> EmptyString ->
         world string h (ReadFileSync path) = inr text ->
         Json.parse text = inr ev ->
         JS.prop ev "client_payload" = inr v ->
         JS.truthy v = false ->
         main rt world h
         = (Exit 1,
            [Ev (ReadFileSync path) (inr text);
             Ev (Console LError [VStr "Payload missing required fields. Example: assetUrls[]"])
                (inr tt)])).
Proof.
  split.
  - intros Hpath. unfold main. rewrite Hpath. reflexivity.
  - intros path text ev v Hpath Hne Hread Hparse Hprop Hfalsy.
    unfold main. rewrite Hpath. cbn [env_truthy env_string].
    destruct (String.eqb_spec path EmptyString) as [->|_]; [now elim Hne|].
    cbn [negb]. rewrite perform_bind, Hread. unfold JSON_parse_text.
    rewrite Hparse. cbn [lift].
    rewrite ret_bind, Hprop. cbn [lift]. rewrite ret_bind.
    unfold JS.or. rewrite Hfalsy. unfold script.
    rewrite bind_eq, validate_run. reflexivity.
Qed.

End Entry.

(** ** The order of the downloads (lines 52-55) *)

Section FetchOrder.

Variable rt : Runtime.
Variable world : World.

Lemma download_assets_order assetUrls n :
  forall i localFiles h,
    fetched_in_order assetUrls i
      (pick fetched_url_of (snd (download_assets world assetUrls n i localFiles h)))
    /\ List.length
         (pick fetched_url_of (snd (download_assets world assetUrls n i localFiles h))) <= n.
Proof.
  induction n as [|n IH]; intros i localFiles h; [now split|].
  cbn [download_assets].
  rewrite lift_bind. destruct (JS.index assetUrls i) as [err|url] eqn:Hurl;
    [split; [exact I | cbn; lia]|].
  rewrite lift_bind. destruct (path_extname url) as [err|ext];
    [split; [exact I | cbn; lia]|].
  rewrite perform_bind. destruct (world response h (Fetch url)) as [err|res];
    [split; [now split | cbn; lia]|].
  destruct (ok res); cbn [negb].
  - rewrite perform_bind. destruct (world _ _ (ResBuffer res)) as [err|data];
      [split; [now split | cbn; lia]|].
    rewrite perform_bind. destruct (world _ _ (WriteFileSync _ _)) as [err|[]];
      [split; [now split | cbn; lia]|].
    rewrite console_bind. cbn [snd pick fetched_url_of fetched_in_order List.length].
    match goal with |- context [download_assets world assetUrls n (S i) ?l ?h'] =>
      destruct (IH (S i) l h') as [IH1 IH2] end.
    split; [now split | lia].
  - rewrite console_bind. split; [now split | cbn; lia].
Qed.

Lemma stage_assets_order payload assetUrls h :
  JS.prop payload "assetUrls" = inr assetUrls ->
  fetched_in_order assetUrls 0 (pick fetched_url_of (snd (stage_assets rt world payload h)))
  /\ (forall n, turns rt (fun len => len) assetUrls = inr n ->
                List.length (pick fetched_url_of (snd (stage_assets rt world payload h))) <= n).
Proof.
  intros Hprop. unfold stage_assets.
  rewrite perform_bind. destruct (world bool h (ExistsSync tmpDir)) as [err|present];
    [split; [exact I | intros; cbn; lia]|].
  cbn [snd pick fetched_url_of]. rewrite bind_eq.
  assert (Hdir : emits (fun e => fetched_url_of e = None)
                       (if present then ret tt else perform world (MkdirSync tmpDir true))).
  { emits_steps; reflexivity. }
  rewrite (surjective_pairing
             ((if present then ret tt else perform world (MkdirSync tmpDir true)) _)).
  destruct (fst _) as [[]|e|c]; cbn [fst snd]; rewrite ?pick_app, (pick_silent _ _ (Hdir _));
    try (split; [exact I | intros; cbn; lia]).
  cbn [app]. rewrite console_bind. cbn [snd pick fetched_url_of].
  rewrite lift_bind, Hprop, lift_bind.
  destruct (turns rt (fun len => len) assetUrls) as [err|n];
    [split; [exact I | discriminate]|].
  match goal with |- context [download_assets world assetUrls n 0 ?l ?h'] =>
    destruct (download_assets_order assetUrls n 0 l h') as [H1 H2] end.
  split; [exact H1|]. now intros n' [= <-].
Qed.

(** X15: input order is kept whatever [assetUrls] is (an array, a string, an
    object with a length) and however the run ends: before the launch, the
    k-th fetch of a run is of [assetUrls[k]], and there are no more fetches
    than [assetUrls.length] counts.  So a single URL given as a string
    passes the validation and is fetched character by character. *)
Theorem assets_are_fetched_in_order (payload assetUrls : value) :
  JS.prop payload "assetUrls" = inr assetUrls ->
  fetched_in_order assetUrls 0
    (pick fetched_url_of (before_launch (snd (run rt world payload))))
  /\ (forall n, turns rt (fun len => len) assetUrls = inr n ->
                List.length (pick fetched_url_of (before_launch (snd (run rt world payload))))
                <= n).
Proof.
  intros Hprop. unfold run, script.
  rewrite bind_eq, validate_run, Hprop.
  destruct (JS.truthy payload && JS.truthy assetUrls);
    [|split; [exact I | intros; cbn; lia]].
  cbn [fst snd app]. rewrite lift_bind.
  destruct (OUTPUT_NAME rt payload) as [err|outputName];
    [split; [exact I | intros; cbn; lia]|].
  rewrite bind_eq.
  pose proof (stage_assets_calls rt world payload []) as Hcalls.
  assert (Hquiet : Forall (fun e => launch_of e = None)
                          (snd (stage_assets rt world payload [])))
    by (eapply Forall_impl; [apply staging_call_no_launch | exact Hcalls]).
  pose proof (stage_assets_order payload assetUrls [] Hprop) as Horder.
  destruct (fst (stage_assets rt world payload [])) as [files|err|code];
    cbn [fst snd]; try (rewrite before_launch_quiet by exact Hquiet; exact Horder).
  rewrite before_launch_silent by exact Hquiet.
  match goal with |- context [bind (open_editor rt world) ?f ?h] =>
    destruct (open_editor_launches_first rt world f h) as (c & r & rest & -> & Hfirst)
  end.
  cbn [before_launch]. rewrite Hfirst, app_nil_r. exact Horder.
Qed.

End FetchOrder.

(** ** The order of the steps (lines 88-257) *)

Lemma pick_bind_completes {O B} (f : event -> option O) (m : M unit) (k : unit -> M B) h :
  always_completes m ->
  pick f (snd (bind m k h)) = pick f (snd (m h)) ++ pick f (snd (k tt (h ++ snd (m h)))).
Proof. intros Hm. rewrite bind_eq, (Hm h). cbn [snd]. apply pick_app. Qed.

Section StepOrder.

Variable rt : Runtime.
Variable world : World.

(** A step that opens with the call [c], when nothing after that call is
    the opening of a step. *)
Lemma opening_call {X} (c : call X) (k : X -> M unit) (handler : exn -> M unit) h :
  (forall a, emits (fun e => step_of e = None) (k a)) ->
  (forall e, emits (fun ev => step_of ev = None) (handler e)) ->
  pick step_of (snd (try_catch (bind (perform world c) k) handler h))
  = pick step_of [Ev c (world X h c)].
Proof.
  intros Hk Hh. rewrite pick_try_catch_quiet by exact Hh.
  rewrite pick_bind_quiet by exact Hk. reflexivity.
Qed.

Lemma login_button_step p h :
  pick step_of (snd (login_button world p h)) = [SLogin].
Proof.
  unfold login_button. rewrite opening_call; [reflexivity| |];
    intros; emits_steps; reflexivity.
Qed.

Lemma email_login_step p h :
  pick step_of (snd (email_login rt world p h)) = [SEmail].
Proof.
  unfold email_login. rewrite opening_call; [reflexivity| |];
    intros; emits_steps; reflexivity.
Qed.

Lemma create_project_step p h :
  pick step_of (snd (create_project world p h)) = [SProject].
Proof.
  unfold create_project. rewrite opening_call; [reflexivity| |];
    intros; emits_steps; reflexivity.
Qed.

Lemma timeline_step p payload h :
  pick step_of (snd (timeline rt world p payload h)) = [STimeline].
Proof.
  unfold timeline. rewrite opening_call; [reflexivity| |];
    intros; unfold captions, add_caption; emits_steps; reflexivity.
Qed.

Lemma export_step p h :
  pick step_of (snd (export world p h)) = [SExport].
Proof.
  unfold export. rewrite opening_call; [reflexivity| |];
    intros; emits_steps; reflexivity.
Qed.

Lemma poll_and_download_step p outputName h :
  pick step_of (snd (poll_and_download world p outputName h)) = [SPoll].
Proof.
  unfold poll_and_download. rewrite opening_call; [reflexivity| |];
    intros; emits_steps; reflexivity.
Qed.

Lemma finish_step b h : pick step_of (snd (finish world b h)) = [SClose].
Proof.
  unfold finish. rewrite pick_bind_quiet by (intros; emits_steps). reflexivity.
Qed.

(** Lines 136-159: one or two queries for the file input, and then either
    the step completes or it closes the browser and the run is over. *)
Lemma upload_steps b p localFiles h :
  exists k,
    (k = 1 \/ k = 2)
    /\ ((fst (upload world b p localFiles h) = Ok tt
         /\ pick step_of (snd (upload world b p localFiles h)) = repeat SUpload k)
        \/ (fst (upload world b p localFiles h) <> Ok tt
            /\ pick step_of (snd (upload world b p localFiles h))
               = repeat SUpload k ++ [SClose])).
Proof.
  destruct (upload world b p localFiles h) as [r t] eqn:Hrun.
  cbn [fst snd]. unfold upload in Hrun.
  repeat run_inv world.
  all: repeat match goal with u : unit |- _ => destruct u end.
  all: first
         [ exists 1; split; [now left|]; cbn;
           first [ left; split; [reflexivity | reflexivity]
                 | right; split; [discriminate | reflexivity] ]
         | exists 2; split; [now right|]; cbn;
           first [ left; split; [reflexivity | reflexivity]
                 | right; split; [discriminate | reflexivity] ] ].
Qed.

(** X16: a run that reaches the steps of the editor goes through them in the
    order of the script, opening each of them exactly once: login button,
    email login, project creation, upload (with one or two queries for the
    file input), and then either timeline, export, polling and
    browser.close(), or, when the upload step does not complete,
    browser.close() at once.  No step is skipped, repeated or taken out of
    order, whatever the page answers. *)
Theorem steps_run_in_script_order (payload : value) :
  pick step_of (snd (run rt world payload)) = []
  \/ exists k,
      (k = 1 \/ k = 2)
      /\ (pick step_of (snd (run rt world payload))
          = [SLogin; SEmail; SProject] ++ repeat SUpload k
            ++ [STimeline; SExport; SPoll; SClose]
          \/ pick step_of (snd (run rt world payload))
             = [SLogin; SEmail; SProject] ++ repeat SUpload k ++ [SClose]).
Proof.
  set (Q := fun e => step_of e = None).
  set (Post := fun (r : result unit) (t : trace) =>
                 pick step_of t = []
                 \/ exists k,
                     (k = 1 \/ k = 2)
                     /\ (pick step_of t
                         = [SLogin; SEmail; SProject] ++ repeat SUpload k
                           ++ [STimeline; SExport; SPoll; SClose]
                         \/ pick step_of t
                            = [SLogin; SEmail; SProject] ++ repeat SUpload k ++ [SClose])).
  assert (Hquiet : forall r t1, Forall Q t1 -> Post r t1).
  { intros r t1 Ht1. left. now apply pick_silent. }
  assert (Hclosed : forall t1 r t2, Forall Q t1 -> Post r t2 -> Post r (t1 ++ t2)).
  { intros t1 r t2 Ht1 Hpost. unfold Post. now rewrite pick_app, (pick_silent _ _ Ht1). }
  change (Post (fst (run rt world payload)) (snd (run rt world payload))).
  unfold run, script.
  apply step_over with (Q := Q); [|exact Hquiet|exact Hclosed|intros _ h1].
  { unfold validate. emits_steps; reflexivity. }
  apply step_over with (Q := Q); [|exact Hquiet|exact Hclosed|intros outputName h2].
  { emits_steps. }
  apply step_over with (Q := Q); [|exact Hquiet|exact Hclosed|intros localFiles h3].
  { eapply emits_weaken; [|apply stage_assets_calls].
    intros [X c r]; destruct c; simpl; intros H; try reflexivity; destruct H. }
  apply step_over with (Q := Q); [|exact Hquiet|exact Hclosed|intros [b p] h4].
  { unfold open_editor. emits_steps; reflexivity. }
  unfold Post, drive_editor. cbn [fst snd]. right.
  rewrite pick_bind_completes, login_button_step by apply login_button_completes.
  rewrite pick_bind_completes, email_login_step by apply email_login_completes.
  rewrite pick_bind_completes, create_project_step by apply create_project_completes.
  rewrite bind_eq.
  match goal with |- context [upload world b p localFiles ?h'] =>
    destruct (upload_steps b p localFiles h') as (k & Hk & [[Hok Hsteps]|[Hno Hsteps]])
  end.
  - exists k. split; [exact Hk|]. left.
    rewrite Hok. cbn [snd]. rewrite pick_app, Hsteps.
    rewrite pick_bind_completes, timeline_step by apply timeline_completes.
    rewrite pick_bind_completes, export_step by apply export_completes.
    rewrite pick_bind_completes, poll_and_download_step
      by apply poll_and_download_completes.
    rewrite finish_step. reflexivity.
  - exists k. split; [exact Hk|]. right.
    destruct (fst (upload world b p localFiles _)) as [[]|e|c]; [now elim Hno| |];
      cbn [snd]; now rewrite Hsteps.
Qed.

End StepOrder.

(** ** The upload call (lines 138-153) *)

Section UploadCall.

Variable rt : Runtime.
Variable world : World.

Lemma upload_call b p localFiles h :
  pick upload_call_of (snd (upload world b p localFiles h)) = []
  \/ exists first el,
      pick file_input_of (snd (upload world b p localFiles h)) = [inr first; inr (Some el)]
      /\ pick upload_call_of (snd (upload world b p localFiles h)) = [(el, localFiles)].
Proof.
  destruct (upload world b p localFiles h) as [r t] eqn:Hrun.
  cbn [snd]. unfold upload in Hrun.
  repeat run_inv world.
  all: first [ now left | right; eexists _, _; split; reflexivity ].
Qed.

(** X17: the files are attached in one batch: a run calls uploadFile at most
    once, and then on the element that the second query for the file input
    returned (the first query may have found one or not), after exactly two
    such queries. *)
Theorem upload_is_one_batch (payload : value) :
  pick upload_call_of (snd (run rt world payload)) = []
  \/ exists first el files,
      pick file_input_of (snd (run rt world payload)) = [inr first; inr (Some el)]
      /\ pick upload_call_of (snd (run rt world payload)) = [(el, files)].
Proof.
  set (Q := fun e => file_input_of e = None /\ upload_call_of e = None).
  set (Post := fun (r : result unit) (t : trace) =>
                 pick upload_call_of t = []
                 \/ exists first el files,
                     pick file_input_of t = [inr first; inr (Some el)]
                     /\ pick upload_call_of t = [(el, files)]).
  assert (Hsilent : forall t, Forall Q t ->
            pick file_input_of t = [] /\ pick upload_call_of t = []).
  { intros t Ht. split; apply pick_silent; (eapply Forall_impl; [|exact Ht]); now intros e []. }
  assert (Hquiet : forall r t1, Forall Q t1 -> Post r t1).
  { intros r t1 Ht1. left. now apply Hsilent. }
  assert (Hclosed : forall t1 r t2, Forall Q t1 -> Post r t2 -> Post r (t1 ++ t2)).
  { intros t1 r t2 Ht1 Hpost. unfold Post. rewrite !pick_app.
    destruct (Hsilent _ Ht1) as [-> ->]. exact Hpost. }
  change (Post (fst (run rt world payload)) (snd (run rt world payload))).
  unfold run, script.
  apply step_over with (Q := Q); [|exact Hquiet|exact Hclosed|intros _ h1].
  { unfold validate. emits_steps; now split. }
  apply step_over with (Q := Q); [|exact Hquiet|exact Hclosed|intros outputName h2].
  { emits_steps. }
  apply step_over with (Q := Q); [|exact Hquiet|exact Hclosed|intros localFiles h3].
  { eapply emits_weaken; [|apply stage_assets_calls].
    intros [X c r]; destruct c; simpl; intros H; try (now split); destruct H. }
  apply step_over with (Q := Q); [|exact Hquiet|exact Hclosed|intros [b p] h4].
  { unfold open_editor. emits_steps; now split. }
  unfold drive_editor. cbn [fst snd].
  apply step_over with (Q := Q); [|exact Hquiet|exact Hclosed|intros _ h5].
  { unfold login_button. emits_steps; now split. }
  apply step_over with (Q := Q); [|exact Hquiet|exact Hclosed|intros _ h6].
  { unfold email_login. emits_steps; now split. }
  apply step_over with (Q := Q); [|exact Hquiet|exact Hclosed|intros _ h7].
  { unfold create_project. emits_steps; now split. }
  unfold Post.
  rewrite !pick_bind_quiet
    by (intros; unfold timeline, captions, add_caption, export, poll_and_download, finish;
        emits_steps; reflexivity).
  destruct (upload_call b p localFiles h7) as [Hnone|(first & el & Hq & Hu)].
  - now left.
  - right. now exists first, el, localFiles.
Qed.

End UploadCall.

(** ** What the caption loop types (lines 186-199) *)

Lemma after_add_text_search_silent t1 t2 :
  Forall (fun e => add_text_search_of e = None) t1 ->
  after_add_text_search (t1 ++ t2) = after_add_text_search t2.
Proof.
  induction 1 as [|e t1 He _ IH]; cbn [app after_add_text_search]; [reflexivity|].
  now rewrite He.
Qed.

Lemma after_add_text_search_quiet t :
  Forall (fun e => add_text_search_of e = None) t -> after_add_text_search t = None.
Proof.
  intros H. rewrite <- (app_nil_r t). now rewrite after_add_text_search_silent.
Qed.

Lemma after_add_text_search_app t1 t2 r calls :
  after_add_text_search t1 = Some (r, calls) ->
  after_add_text_search (t1 ++ t2) = Some (r, calls ++ t2).
Proof.
  induction t1 as [|e t1 IH]; cbn [app after_add_text_search]; [discriminate|].
  destruct (add_text_search_of e); [now intros [= <- <-] | exact IH].
Qed.

Lemma before_export_search_silent t1 t2 :
  Forall (fun e => export_search_of e = None) t1 ->
  before_export_search (t1 ++ t2) = t1 ++ before_export_search t2.
Proof.
  induction 1 as [|e t1 He _ IH]; cbn [app before_export_search]; [reflexivity|].
  now rewrite He, IH.
Qed.

Lemma typed_in_turns_none scriptObj n : forall i, typed_in_turns scriptObj i n [].
Proof. induction n as [|n IH]; intros i; constructor. apply IH. Qed.

Section CaptionTexts.

Variable rt : Runtime.
Variable world : World.

(** Lines 189-203, one turn: it types nothing, or the text of its entry. *)
Lemma add_caption_types p scriptObj addTextBtn i h :
  pick typed_of (snd (add_caption world p scriptObj addTextBtn i h)) = []
  \/ exists entry text,
      JS.index scriptObj i = inr entry
      /\ caption_text entry = inr text
      /\ pick typed_of (snd (add_caption world p scriptObj addTextBtn i h)) = [text].
Proof.
  destruct (add_caption world p scriptObj addTextBtn i h) as [r t] eqn:Hrun.
  cbn [snd]. unfold add_caption in Hrun.
  repeat run_inv world.
  all: first [ now left | right; eexists _, _; repeat split; eassumption ].
Qed.

(** One turn in which every call resolved and the text entry was found:
    the text of the entry is typed, if the entry can be read. *)
Lemma add_caption_types_text p scriptObj btn rest i h :
  forallb went_well (snd (add_caption world p scriptObj (btn :: rest) i h)) = true ->
  pick typed_of (snd (add_caption world p scriptObj (btn :: rest) i h))
  = turn_text scriptObj i.
Proof.
  destruct (add_caption world p scriptObj (btn :: rest) i h) as [r t] eqn:Hrun.
  cbn [snd]. unfold add_caption in Hrun. unfold turn_text, entry_text.
  repeat run_inv world.
  all: cbn [app forallb went_well andb pick typed_of].
  all: try discriminate.
  all: intros _.
  all: repeat match goal with
              | H : JS.index _ _ = _ |- _ => rewrite H
              | H : caption_text _ = _ |- _ => rewrite H
              end.
  all: reflexivity.
Qed.

Lemma caption_loop_completes p scriptObj addTextBtn n :
  forall i, always_completes (for_range n i (add_caption world p scriptObj addTextBtn)).
Proof.
  induction n as [|n IH]; intros i h; [reflexivity|].
  cbn [for_range]. rewrite bind_eq, (add_caption_completes world p scriptObj addTextBtn i h).
  apply IH.
Qed.

Lemma caption_loop_in_turns p scriptObj addTextBtn n :
  forall i h,
    typed_in_turns scriptObj i n
      (pick typed_of (snd (for_range n i (add_caption world p scriptObj addTextBtn) h))).
Proof.
  induction n as [|n IH]; intros i h; [constructor|].
  cbn [for_range]. rewrite pick_bind_completes by apply add_caption_completes.
  destruct (add_caption_types p scriptObj addTextBtn i h)
    as [->|(entry & text & Hentry & Htext & ->)]; cbn [app].
  - apply turn_silent, IH.
  - eapply turn_types; [exact Hentry | exact Htext | apply IH].
Qed.

Lemma caption_loop_types p scriptObj btn rest n :
  forall i h,
    forallb went_well
      (snd (for_range n i (add_caption world p scriptObj (btn :: rest)) h)) = true ->
    pick typed_of (snd (for_range n i (add_caption world p scriptObj (btn :: rest)) h))
    = texts_from scriptObj i n.
Proof.
  induction n as [|n IH]; intros i h; [reflexivity|].
  cbn [for_range texts_from].
  rewrite bind_eq, (add_caption_completes world p scriptObj (btn :: rest) i h).
  cbn [snd]. rewrite forallb_app, pick_app. intros Hwell.
  apply andb_prop in Hwell. destruct Hwell as [Hturn Hrest].
  now rewrite add_caption_types_text, IH.
Qed.

Lemma after_add_text_search_none t :
  after_add_text_search t = None -> Forall (fun e => add_text_search_of e = None) t.
Proof.
  induction t as [|e t IH]; cbn [after_add_text_search]; [constructor|].
  destruct (add_text_search_of e) eqn:He; [discriminate|].
  intros H. constructor; [exact He | now apply IH].
Qed.

Lemma caption_loop_follows_quiet p scriptObj n r t :
  Forall (fun e => add_text_search_of e = None /\ typed_of e = None) t ->
  caption_loop_follows world p scriptObj n r t.
Proof.
  intros Hq btn rest calls Hsearch.
  rewrite after_add_text_search_quiet in Hsearch; [discriminate|].
  eapply Forall_impl; [|exact Hq]. now intros e [].
Qed.

Lemma caption_loop_follows_prefix p scriptObj n t1 r t2 :
  Forall (fun e => add_text_search_of e = None /\ typed_of e = None) t1 ->
  caption_loop_follows world p scriptObj n r t2 ->
  caption_loop_follows world p scriptObj n r (t1 ++ t2).
Proof.
  intros Hq Hpost btn rest calls Hsearch.
  rewrite after_add_text_search_silent in Hsearch
    by (eapply Forall_impl; [|exact Hq]; now intros e []).
  destruct (Hpost _ _ _ Hsearch) as (Hr & Hcalls & Htyped).
  split; [exact Hr|]. split; [exact Hcalls|].
  rewrite pick_app, pick_silent; [exact Htyped|].
  eapply Forall_impl; [|exact Hq]. now intros e [].
Qed.

Lemma caption_loop_follows_guarded p scriptObj n (m : M unit) (handler : exn -> M unit) h :
  (forall e, emits (fun ev => add_text_search_of ev = None /\ typed_of ev = None)
                   (handler e)) ->
  caption_loop_follows world p scriptObj n (fst (m h)) (snd (m h)) ->
  caption_loop_follows world p scriptObj n
    (fst (try_catch m handler h)) (snd (try_catch m handler h)).
Proof.
  intros Hh Hm. rewrite try_catch_eq.
  destruct (fst (m h)) as [a|e|c] eqn:Hfst; cbn [fst snd]; try exact Hm.
  intros btn rest calls Hsearch.
  assert (Hquiet : Forall (fun ev => add_text_search_of ev = None)
                          (snd (handler e (h ++ snd (m h))))).
  { eapply Forall_impl; [|apply Hh]. now intros ev []. }
  destruct (after_add_text_search (snd (m h))) as [[r0 calls0]|] eqn:Hbody.
  - rewrite (after_add_text_search_app _ _ _ _ Hbody) in Hsearch.
    injection Hsearch as -> _.
    destruct (Hm _ _ _ Hbody) as [Hr _]. discriminate Hr.
  - rewrite after_add_text_search_silent in Hsearch
      by now apply after_add_text_search_none.
    rewrite after_add_text_search_quiet in Hsearch by exact Hquiet.
    discriminate Hsearch.
Qed.

Section OverAPayload.

Variables (payload scriptText scriptObj : value) (n : nat).
Hypothesis Hprop : JS.prop payload "scriptText" = inr scriptText.
Hypothesis Hobj : scriptObj_of rt scriptText = inr scriptObj.
Hypothesis Hturns : turns rt JS.min6 scriptObj = inr n.

Lemma captions_reach_loop p h :
  caption_loop_follows world p scriptObj n
    (fst (captions rt world p payload h)) (snd (captions rt world p payload h)).
Proof.
  unfold captions. rewrite lift_bind, Hprop.
  destruct (JS.truthy scriptText); [|now apply caption_loop_follows_quiet].
  apply caption_loop_follows_guarded; [intros e; emits_steps; now split|].
  apply step_over with (Q := fun e => add_text_search_of e = None /\ typed_of e = None);
    [|intros; now apply caption_loop_follows_quiet
     |intros; now apply caption_loop_follows_prefix|intros textBtn h1].
  { emits_steps; now split. }
  apply step_over with (Q := fun e => add_text_search_of e = None /\ typed_of e = None);
    [|intros; now apply caption_loop_follows_quiet
     |intros; now apply caption_loop_follows_prefix|intros _ h2].
  { emits_steps; now split. }
  rewrite lift_bind, Hobj, perform_bind.
  destruct (world (list handle) h2 (XPath p addTextX)) as [e|btns].
  { intros btn rest calls Hsearch. cbn in Hsearch. discriminate Hsearch. }
  cbn [fst snd]. rewrite lift_bind, Hturns.
  intros btn rest calls Hsearch.
  cbn [after_add_text_search add_text_search_of] in Hsearch.
  rewrite String.eqb_refl in Hsearch. injection Hsearch as -> <-.
  split; [apply caption_loop_completes|]. split; [now eexists|].
  cbn [pick typed_of]. reflexivity.
Qed.

Lemma timeline_reaches_loop p h :
  caption_loop_follows world p scriptObj n
    (fst (timeline rt world p payload h)) (snd (timeline rt world p payload h)).
Proof.
  unfold timeline.
  apply caption_loop_follows_guarded; [intros e; emits_steps; now split|].
  do 4 (apply step_over
          with (Q := fun e => add_text_search_of e = None /\ typed_of e = None);
        [emits_steps; now split
        |intros; now apply caption_loop_follows_quiet
        |intros; now apply caption_loop_follows_prefix|intros ? ?]).
  apply captions_reach_loop.
Qed.

Lemma in_turns_quiet (r : result unit) t :
  Forall (fun e => typed_of e = None) t ->
  typed_in_turns scriptObj 0 n (pick typed_of t).
Proof. intros Hq. rewrite pick_silent by exact Hq. apply typed_in_turns_none. Qed.

Lemma in_turns_prefix t1 (r : result unit) t2 :
  Forall (fun e => typed_of e = None) t1 ->
  typed_in_turns scriptObj 0 n (pick typed_of t2) ->
  typed_in_turns scriptObj 0 n (pick typed_of (t1 ++ t2)).
Proof. intros Hq Ht. now rewrite pick_app, pick_silent. Qed.

(** Goes over a step that types nothing. *)
Ltac over_silent_step :=
  match goal with
  | |- typed_in_turns _ _ _ (pick typed_of (snd (bind ?m ?k ?h))) =>
      apply (step_over (fun e => typed_of e = None)
               (fun (_ : result unit) t => typed_in_turns scriptObj 0 n (pick typed_of t))
               m k h);
      [ | exact in_turns_quiet | exact in_turns_prefix | intros ? ? ]
  end.

Lemma captions_in_turns p h :
  typed_in_turns scriptObj 0 n (pick typed_of (snd (captions rt world p payload h))).
Proof.
  unfold captions. rewrite lift_bind, Hprop.
  destruct (JS.truthy scriptText); [|apply typed_in_turns_none].
  rewrite pick_try_catch_quiet by (intros; emits_steps; reflexivity).
  over_silent_step; [emits_steps; reflexivity|].
  over_silent_step; [emits_steps; reflexivity|].
  rewrite lift_bind, Hobj.
  over_silent_step; [emits_steps; reflexivity|].
  rewrite lift_bind, Hturns.
  apply caption_loop_in_turns.
Qed.

Lemma timeline_in_turns p h :
  typed_in_turns scriptObj 0 n (pick typed_of (snd (timeline rt world p payload h))).
Proof.
  unfold timeline.
  rewrite pick_try_catch_quiet by (intros; emits_steps; reflexivity).
  do 4 (over_silent_step; [emits_steps; reflexivity|]).
  apply captions_in_turns.
Qed.

(** Every run: what is typed is typed in the turns of the caption loop. *)
Lemma run_in_turns :
  typed_in_turns scriptObj 0 n (pick typed_of (snd (run rt world payload))).
Proof.
  unfold run, script.
  over_silent_step; [unfold validate; emits_steps; reflexivity|].
  over_silent_step; [emits_steps|].
  over_silent_step.
  { eapply emits_weaken; [apply staging_call_no_typing | apply stage_assets_calls]. }
  over_silent_step; [unfold open_editor; emits_steps; reflexivity|].
  unfold drive_editor.
  over_silent_step; [unfold login_button; emits_steps; reflexivity|].
  over_silent_step; [unfold email_login; emits_steps; reflexivity|].
  over_silent_step; [unfold create_project; emits_steps; reflexivity|].
  over_silent_step; [unfold upload; emits_steps; reflexivity|].
  rewrite pick_bind_quiet
    by (intros; unfold export, poll_and_download, finish; emits_steps; reflexivity).
  apply timeline_in_turns.
Qed.

Lemma export_opens_with_search p h :
  exists ans rest,
    snd (export world p h) = @Ev (list handle) (XPath p exportX) ans :: rest.
Proof.
  destruct (export world p h) as [r t] eqn:Hrun.
  cbn [snd]. unfold export in Hrun.
  repeat run_inv world; cbn [app]; now eexists _, _.
Qed.

Lemma caption_loop_before_export p addTextBtn k :
  forall i,
    emits (fun e => export_search_of e = None)
          (for_range k i (add_caption world p scriptObj addTextBtn)).
Proof. intros i. unfold add_caption. emits_steps; reflexivity. Qed.

(** A run in which the search for the add-text control found one, and in
    which every call from there to the export step resolved and found its
    text entry: the texts of all turns are typed, in order. *)
Lemma run_types_texts btn rest calls :
  after_add_text_search (snd (run rt world payload)) = Some (inr (btn :: rest), calls) ->
  forallb went_well (before_export_search calls) = true ->
  pick typed_of (snd (run rt world payload)) = texts_from scriptObj 0 n.
Proof.
  set (Q := fun e => add_text_search_of e = None /\ typed_of e = None).
  set (Post := fun (r : result unit) (t : trace) =>
                 forall btn rest calls,
                   after_add_text_search t = Some (inr (btn :: rest), calls) ->
                   forallb went_well (before_export_search calls) = true ->
                   pick typed_of t = texts_from scriptObj 0 n).
  assert (Hsilent : forall t, Forall Q t ->
            Forall (fun e => add_text_search_of e = None) t
            /\ Forall (fun e => typed_of e = None) t).
  { intros t Ht. split; (eapply Forall_impl; [|exact Ht]); now intros e []. }
  assert (Hquiet : forall r t1, Forall Q t1 -> Post r t1).
  { intros r t1 Ht1 b r' c Hsearch. destruct (Hsilent _ Ht1) as [Hs _].
    rewrite after_add_text_search_quiet in Hsearch by exact Hs. discriminate. }
  assert (Hclosed : forall t1 r t2, Forall Q t1 -> Post r t2 -> Post r (t1 ++ t2)).
  { intros t1 r t2 Ht1 Hpost b r' c Hsearch Hwell. destruct (Hsilent _ Ht1) as [Hs Ht].
    rewrite after_add_text_search_silent in Hsearch by exact Hs.
    rewrite pick_app, (pick_silent _ _ Ht). now apply (Hpost b r' c). }
  revert btn rest calls.
  change (Post (fst (run rt world payload)) (snd (run rt world payload))).
  unfold run, script.
  apply step_over with (Q := Q); [|exact Hquiet|exact Hclosed|intros _ h1].
  { unfold validate. emits_steps; now split. }
  apply step_over with (Q := Q); [|exact Hquiet|exact Hclosed|intros outputName h2].
  { emits_steps. }
  apply step_over with (Q := Q); [|exact Hquiet|exact Hclosed|intros localFiles h3].
  { eapply emits_weaken; [|apply stage_assets_calls].
    intros [X c r]; destruct c; simpl; intros H; try (now split); destruct H. }
  apply step_over with (Q := Q); [|exact Hquiet|exact Hclosed|intros [b p] h4].
  { unfold open_editor. emits_steps; now split. }
  unfold drive_editor. cbn [fst snd].
  apply step_over with (Q := Q); [|exact Hquiet|exact Hclosed|intros _ h5].
  { unfold login_button. emits_steps; now split. }
  apply step_over with (Q := Q); [|exact Hquiet|exact Hclosed|intros _ h6].
  { unfold email_login. emits_steps; now split. }
  apply step_over with (Q := Q); [|exact Hquiet|exact Hclosed|intros _ h7].
  { unfold create_project. emits_steps; now split. }
  apply step_over with (Q := Q); [|exact Hquiet|exact Hclosed|intros _ h8].
  { unfold upload. emits_steps; now split. }
  intros btn rest calls.
  rewrite bind_eq, (timeline_completes rt world p payload h8). cbn [fst snd].
  set (tl := snd (timeline rt world p payload h8)).
  set (post := snd ((export world p ;; poll_and_download world p outputName ;;
                     finish world b) (h8 ++ tl))).
  assert (Hpost : Forall Q post).
  { subst post.
    match goal with |- Forall Q (snd (?m ?h')) => generalize h'; change (emits Q m) end.
    unfold export, poll_and_download, finish. emits_steps; now split. }
  destruct (Hsilent _ Hpost) as [Hpost_search Hpost_typed].
  assert (Hfirst : exists ans rest', post = @Ev (list handle) (XPath p exportX) ans :: rest').
  { subst post. rewrite bind_eq, (export_completes world p). cbn [snd].
    destruct (export_opens_with_search p (h8 ++ tl)) as (ans & rest' & ->).
    now eexists _, _. }
  destruct Hfirst as (ans & rest' & Hfirst).
  intros Hsearch Hwell.
  destruct (after_add_text_search tl) as [[r0 calls0]|] eqn:Hbody.
  - rewrite (after_add_text_search_app _ _ _ _ Hbody) in Hsearch.
    injection Hsearch as -> <-.
    destruct (timeline_reaches_loop p h8 _ _ _ Hbody) as (_ & [h' Hcalls] & Htyped).
    rewrite pick_app, (pick_silent _ _ Hpost_typed), app_nil_r. fold tl in Htyped.
    rewrite Htyped, Hcalls. apply caption_loop_types.
    rewrite Hcalls, before_export_search_silent, Hfirst in Hwell
      by apply caption_loop_before_export.
    cbn [before_export_search export_search_of] in Hwell.
    rewrite String.eqb_refl, app_nil_r in Hwell. exact Hwell.
  - rewrite after_add_text_search_silent in Hsearch
      by now apply after_add_text_search_none.
    rewrite after_add_text_search_quiet in Hsearch by exact Hpost_search.
    discriminate Hsearch.
Qed.

End OverAPayload.

Lemma texts_from_array (entries : list value) :
  forall k i,
    i + k <= List.length entries ->
    texts_from (VArr entries) i k = flat_map entry_text (firstn k (skipn i entries)).
Proof.
  induction k as [|k IH]; intros i Hlen; [reflexivity|].
  cbn [texts_from]. rewrite IH by lia.
  unfold turn_text. cbn [JS.index].
  destruct (skipn i entries) as [|entry rest] eqn:Hskip.
  - apply (f_equal (@List.length value)) in Hskip. rewrite length_skipn in Hskip.
    cbn in Hskip. lia.
  - assert (Hnth : nth i entries VUndef = entry).
    { rewrite <- (firstn_skipn i entries), Hskip.
      rewrite app_nth2; rewrite length_firstn; [|lia].
      replace (i - Nat.min i (List.length entries)) with 0 by lia. reflexivity. }
    assert (Hnext : skipn (S i) entries = rest).
    { replace (S i) with (1 + i) by lia. rewrite <- skipn_skipn, Hskip. reflexivity. }
    rewrite Hnth, Hnext. reflexivity.
Qed.

(** C10: what the caption loop types is, turn by turn, the text of the
    turn's own entry: [entry.text] when that is truthy and the entry itself
    otherwise.  In every run the typed values are texts of entries taken in
    the order of the turns, at most one for each turn.  When the search for
    the add-text control found one, and every call from there to the export
    step resolved and found its text entry, then over a list of entries the
    run types the texts of its first six entries, all of them and in order
    (an entry that is null has no text: reading it throws, and the turn is
    given up).  A plain string entry is typed as it is, and an object whose
    [text] is missing or empty is handed over whole. *)
Theorem typed_caption_is_text_or_entry :
  (forall payload scriptText scriptObj n,
      JS.prop payload "scriptText" = inr scriptText ->
      scriptObj_of rt scriptText = inr scriptObj ->
      turns rt JS.min6 scriptObj = inr n ->
      typed_in_turns scriptObj 0 n (pick typed_of (snd (run rt world payload))))
  /\ (forall payload scriptText entries btn rest calls,
         JS.prop payload "scriptText" = inr scriptText ->
         scriptObj_of rt scriptText = inr (VArr entries) ->
         after_add_text_search (snd (run rt world payload))
         = Some (inr (btn :: rest), calls) ->
         forallb went_well (before_export_search calls) = true ->
         pick typed_of (snd (run rt world payload))
         = flat_map entry_text (firstn 6 entries))
  /\ (forall entry text,
         JS.prop entry "text" = inr text ->
         entry_text entry = [if JS.truthy text then text else entry])
  /\ (forall s, entry_text (VStr s) = [VStr s])
  /\ (forall fields,
        JS.lookup "text" fields = None \/ JS.lookup "text" fields = Some (VStr EmptyString) ->
        entry_text (VObj fields) = [VObj fields]).
Proof.
  split; [|split; [|split; [|split]]].
  - intros payload scriptText scriptObj n Hprop Hobj Hturns.
    now apply run_in_turns with (scriptText := scriptText).
  - intros payload scriptText entries btn rest calls Hprop Hobj Hsearch Hwell.
    rewrite (run_types_texts payload scriptText (VArr entries)
               (Nat.min 6 (List.length entries)) Hprop Hobj
               (turns_min6_array rt entries) btn rest calls Hsearch Hwell).
    rewrite texts_from_array by (cbn [Nat.add]; apply Nat.le_min_r).
    cbn [skipn]. f_equal.
    destruct (Nat.le_ge_cases 6 (List.length entries)) as [Hle|Hge].
    + now rewrite Nat.min_l.
    + rewrite Nat.min_r by exact Hge. now rewrite firstn_all, firstn_all2.
  - intros entry text Hprop. unfold entry_text, caption_text. rewrite Hprop.
    reflexivity.
  - reflexivity.
  - intros fields [Hnone|Hempty]; unfold entry_text, caption_text; cbn [JS.prop].
    + now rewrite Hnone.
    + now rewrite Hempty.
Qed.

End CaptionTexts.

(** ** Concrete runs *)

Lemma raw_script_round_trip_witness :
  run node_runtime happy_world demo_payload
  = run node_runtime happy_world (VObj demo_fields_structured)
  /\ List.length (pick typed_of (snd (run node_runtime happy_world demo_payload))) <= 1.
Proof.
  destruct (raw_script_round_trip node_runtime happy_world) as [Hsame Hbound].
  assert (Heq : run node_runtime happy_world demo_payload
                = run node_runtime happy_world (VObj demo_fields_structured)).
  { apply (Hsame _ _ hook_json [VObj [("text", VStr "Hook")]]).
    - intros k Hk. simpl.
      destruct (String.eqb_spec k "scriptText") as [->|_]; [now elim Hk | reflexivity].
    - reflexivity.
    - reflexivity.
    - vm_compute. reflexivity. }
  split; [exact Heq|].
  rewrite Heq.
  apply (Hbound (VObj demo_fields_structured) [VObj [("text", VStr "Hook")]]).
  reflexivity.
Defined.

Lemma failed_asset_fetch_is_fatal_witness :
  fst (run node_runtime (override second_asset_missing happy_world) three_assets) = Exit 1
  /\ (exists pre,
        snd (run node_runtime (override second_asset_missing happy_world) three_assets) =
        pre ++ [Ev (Fetch (VStr "http://x/b.mp4")) (inr (mkResponse 1 false 404));
                Ev (Console LError [VStr "Failed to download asset"; VStr "http://x/b.mp4";
                                    VNum (inject_Z (status (mkResponse 1 false 404)))])
                   (inr tt)])
  /\ pick launch_of
          (snd (run node_runtime (override second_asset_missing happy_world) three_assets)) = [].
Proof.
  apply (failed_asset_fetch_is_fatal
           node_runtime (override second_asset_missing happy_world) three_assets
           (Ev (Fetch (VStr "http://x/b.mp4")) (inr (mkResponse 1 false 404)))
           (VStr "http://x/b.mp4") (mkResponse 1 false 404)).
  - vm_compute. do 6 right. left. reflexivity.
  - reflexivity.
Defined.

Lemma happy_staging (urls : list string) : staging_succeeds happy_world urls.
Proof.
  intros h. repeat split; try (intros; eexists; split; reflexivity);
    intros; eexists; reflexivity.
Qed.

Lemma staged_files_follow_urls_witness :
  pick launch_of (snd (run node_runtime happy_world three_assets)) <> []
  /\ exists strs,
      [VStr "http://x/a.mp4"; VStr "http://x/b.mp4"; VStr "http://x/c.mov?dl=1"] = map VStr strs
      /\ pick written_of (before_launch (snd (run node_runtime happy_world three_assets)))
         = asset_files strs
      /\ List.length (asset_files strs) = 3
      /\ NoDup (asset_files strs)
      /\ pick upload_of (before_launch (snd (run node_runtime happy_world three_assets))) = []
      /\ Forall (fun files => files = asset_files strs)
                (pick upload_of (snd (run node_runtime happy_world three_assets))).
Proof.
  destruct (staged_files_follow_urls node_runtime happy_world three_assets
              [VStr "http://x/a.mp4"; VStr "http://x/b.mp4"; VStr "http://x/c.mov?dl=1"]
              eq_refl) as [Hfiles Hlaunch].
  assert (Hlaunched : pick launch_of (snd (run node_runtime happy_world three_assets)) <> []).
  { apply (Hlaunch ["http://x/a.mp4"; "http://x/b.mp4"; "http://x/c.mov?dl=1"]);
      [reflexivity | apply happy_staging]. }
  split; [exact Hlaunched | exact (Hfiles Hlaunched)].
Defined.

Lemma missing_upload_control_is_fatal_witness :
  exists p b,
    upload_fatal p b
      (fst (run node_runtime (override no_file_input happy_world) demo_payload))
      (snd (run node_runtime (override no_file_input happy_world) demo_payload)).
Proof.
  apply (missing_upload_control_is_fatal
           node_runtime (override no_file_input happy_world) demo_payload).
  vm_compute. reflexivity.
Defined.

Lemma completion_timeout_is_soft_witness :
  (exists p b,
      completion_timed_out p b TimeoutError
        (fst (run node_runtime (override render_never_finishes happy_world) demo_payload))
        (snd (run node_runtime (override render_never_finishes happy_world) demo_payload)))
  /\ pick write_of
          (since_launch
             (snd (run node_runtime (override render_never_finishes happy_world) demo_payload)))
     = [].
Proof.
  apply (completion_timeout_is_soft
           node_runtime (override render_never_finishes happy_world) demo_payload TimeoutError).
  vm_compute. reflexivity.
Defined.

(** C8 (as stated) fails when browser.close() rejects after the wait has
    timed out: line 256 is outside every try block, so the rejection
    escapes and process.exit(0) is never reached. *)
Lemma rejected_close_after_timeout_is_no_exit_0 :
  pick completion_wait_of
       (snd (run node_runtime
                 (override close_rejects (override render_never_finishes happy_world))
                 demo_payload))
  = [inl TimeoutError]
  /\ fst (run node_runtime
               (override close_rejects (override render_never_finishes happy_world))
               demo_payload)
     = Throw TargetClosed
  /\ fst (run node_runtime
               (override close_rejects (override render_never_finishes happy_world))
               demo_payload)
     <> Exit 0.
Proof. repeat split; [vm_compute; reflexivity.. | vm_compute; discriminate]. Qed.

Lemma unparsable_script_types_nothing_witness :
  pick typed_of (snd (run node_runtime happy_world plain_text_payload)) = [].
Proof.
  apply (unparsable_script_types_nothing node_runtime happy_world plain_text_payload
           "Hook line one" (SyntaxError "Unexpected token in JSON")).
  - reflexivity.
  - vm_compute. reflexivity.
Defined.

(** C2 (the code at the failing input): a plain-text script is no JSON, so
    JSON.parse throws, the catch of line 205 logs its warning, and nothing
    is typed: no caption is inserted. *)
Theorem plain_text_script_inserts_no_caption :
  Json.parse "Hook line one" = inl (SyntaxError "Unexpected token in JSON")
  /\ pick typed_of (snd (run node_runtime happy_world plain_text_payload)) = []
  /\ pick warning_of (snd (run node_runtime happy_world plain_text_payload))
     = [[VStr "Caption insertion partially failed. You may need to update selectors."]]
  /\ fst (run node_runtime happy_world plain_text_payload) = Exit 0.
Proof. repeat split; vm_compute; reflexivity. Qed.

(** C3 (as stated) fails for an output name that climbs out of the
    directory: path.join('/tmp', '../etc/passwd') is /etc/passwd, and that
    is where the artifact is written. *)
Lemma traversal_output_name_leaves_tmp :
  pick write_of (since_launch (snd (run node_runtime happy_world traversal_payload)))
  = ["/etc/passwd"]
  /\ ~ under_tmp "/etc/passwd".
Proof.
  split; [vm_compute; reflexivity|].
  intros [H|[rest H]]; discriminate H.
Qed.

Lemma bootstrap_failure_is_uncaught_witness :
  fst (run node_runtime (override editor_unreachable happy_world) demo_payload)
  = Throw NavigationTimeout
  /\ (exists pre e,
        snd (run node_runtime (override editor_unreachable happy_world) demo_payload)
        = pre ++ [e]
        /\ bootstrap_failure_of e = Some NavigationTimeout)
  /\ pick close_of
          (snd (run node_runtime (override editor_unreachable happy_world) demo_payload)) = [].
Proof.
  apply (bootstrap_failure_is_uncaught
           node_runtime (override editor_unreachable happy_world) demo_payload
           NavigationTimeout).
  vm_compute. left. reflexivity.
Defined.

Lemma thumbnail_failure_skips_captions_witness :
  pick thumb_click_of
       (snd (run node_runtime (override thumbnails_never_show happy_world) demo_payload)) = []
  /\ pick caption_call_of
          (snd (run node_runtime (override thumbnails_never_show happy_world) demo_payload)) = []
  /\ In [VStr "Timeline population step had issues:"; VStr (message TimeoutError)]
        (pick warning_of
              (snd (run node_runtime (override thumbnails_never_show happy_world)
                        demo_payload))).
Proof.
  apply (thumbnail_failure_skips_captions
           node_runtime (override thumbnails_never_show happy_world) demo_payload
           TimeoutError).
  vm_compute. left. reflexivity.
Defined.

Lemma staging_error_is_uncaught_witness :
  fst (run node_runtime (override second_asset_unreachable happy_world) three_assets)
  = Throw NetworkError
  /\ (exists pre e,
        snd (run node_runtime (override second_asset_unreachable happy_world) three_assets)
        = pre ++ [e]
        /\ staging_failure_of e = Some NetworkError)
  /\ pick launch_of
          (snd (run node_runtime (override second_asset_unreachable happy_world) three_assets))
     = [].
Proof.
  apply (staging_error_is_uncaught
           node_runtime (override second_asset_unreachable happy_world) three_assets
           NetworkError).
  vm_compute. left. reflexivity.
Defined.

Lemma main_stops_without_input_witness :
  main node_runtime happy_world []
  = (Exit 1,
     [Ev (ReadFileSync "/github/workflow/event.json") (inr "{}");
      Ev (Console LError [VStr "Payload missing required fields. Example: assetUrls[]"])
         (inr tt)]).
Proof.
  apply (proj2 (main_stops_without_input node_runtime happy_world [])
               "/github/workflow/event.json" "{}" (VObj []) VUndef).
  - reflexivity.
  - discriminate.
  - reflexivity.
  - vm_compute. reflexivity.
  - reflexivity.
  - reflexivity.
Defined.

Lemma artifact_is_fetched_and_written_unchecked_witness :
  pick write_attempt_of
       (since_launch (snd (run node_runtime (override artifact_gone happy_world) demo_payload)))
  = map (fun rd => (Path.join "/tmp" "out.mp4", snd rd))
        (pick body_of
              (since_launch
                 (snd (run node_runtime (override artifact_gone happy_world) demo_payload)))).
Proof.
  apply (proj2 (proj2 (artifact_is_fetched_and_written_unchecked
                         node_runtime (override artifact_gone happy_world) demo_payload))
               "out.mp4").
  reflexivity.
Defined.

(** With both credentials configured and the email field on the page, the
    email and the password go to their fields. *)
Lemma configured_credentials_are_typed :
  pick page_type_of (snd (run with_credentials happy_world demo_payload))
  = [(emailSel, "render@toonvibes.example", inr tt); (pwSel, "s3cret", inr tt)].
Proof. vm_compute. reflexivity. Qed.

Lemma credentials_typed_only_when_configured_witness :
  pick page_type_of (snd (run with_credentials happy_world demo_payload)) <> []
  /\ exists el,
       pick email_query_of (snd (run with_credentials happy_world demo_payload))
       = [inr (Some el)].
Proof.
  assert (Htyped : pick page_type_of (snd (run with_credentials happy_world demo_payload))
                   <> []).
  { apply (proj2 (proj2 (credentials_typed_only_when_configured
                           with_credentials happy_world demo_payload))
                 7 "render@toonvibes.example" "s3cret").
    - vm_compute. reflexivity.
    - reflexivity.
    - discriminate.
    - reflexivity.
    - discriminate. }
  split; [exact Htyped|].
  exact (proj1 (proj2 (credentials_typed_only_when_configured
                         with_credentials happy_world demo_payload)) Htyped).
Defined.

(** A 404 answer to the artifact request: its body is saved as the artifact
    and the run exits with status 0. *)
Lemma error_page_is_saved_as_artifact :
  pick fetch_response_of
       (since_launch (snd (run node_runtime (override artifact_gone happy_world) demo_payload)))
  = [mkResponse 9 false 404]
  /\ pick body_of
       (since_launch (snd (run node_runtime (override artifact_gone happy_world) demo_payload)))
  = [(mkResponse 9 false 404, "bytes")]
  /\ pick write_attempt_of
          (since_launch
             (snd (run node_runtime (override artifact_gone happy_world) demo_payload)))
     = [("/tmp/out.mp4", "bytes")]
  /\ fst (run node_runtime (override artifact_gone happy_world) demo_payload) = Exit 0.
Proof. repeat split; vm_compute; reflexivity. Qed.

Lemma assets_are_fetched_in_order_witness :
  fetched_in_order (VStr "http://x/a.mp4") 0
    (pick fetched_url_of
          (before_launch (snd (run node_runtime happy_world string_assets_payload))))
  /\ (forall n, turns node_runtime (fun len => len) (VStr "http://x/a.mp4") = inr n ->
                List.length
                  (pick fetched_url_of
                        (before_launch
                           (snd (run node_runtime happy_world string_assets_payload))))
                <= n).
Proof.
  apply (assets_are_fetched_in_order node_runtime happy_world string_assets_payload
           (VStr "http://x/a.mp4")).
  reflexivity.
Defined.

(** A single URL given as a string is taken apart: every character is
    fetched as an asset of its own. *)
Lemma string_assets_are_fetched_by_character :
  pick fetched_url_of
       (before_launch (snd (run node_runtime happy_world string_assets_payload)))
  = map (fun c => VStr (String c EmptyString)) (Path.chars "http://x/a.mp4").
Proof. vm_compute. reflexivity. Qed.

Lemma typed_caption_is_text_or_entry_witness :
  typed_in_turns
    (VArr [VStr "Plain line";
           VObj [("time", VNum 0%Q); ("text", VStr "Hook")];
           VObj [("time", VNum 3%Q)]])
    0 3
    (pick typed_of (snd (run node_runtime happy_world mixed_captions_payload)))
  /\ pick typed_of (snd (run node_runtime happy_world mixed_captions_payload))
     = flat_map entry_text
         (firstn 6 [VStr "Plain line";
                    VObj [("time", VNum 0%Q); ("text", VStr "Hook")];
                    VObj [("time", VNum 3%Q)]]).
Proof.
  split.
  - eapply (proj1 (typed_caption_is_text_or_entry node_runtime happy_world)
                  mixed_captions_payload).
    + reflexivity.
    + reflexivity.
    + vm_compute. reflexivity.
  - eapply (proj1 (proj2 (typed_caption_is_text_or_entry node_runtime happy_world))
                  mixed_captions_payload).
    + reflexivity.
    + reflexivity.
    + vm_compute. reflexivity.
    + vm_compute. reflexivity.
Defined.

(** The three kinds of entry: the plain string is typed as it is, the
    object with a text gives its text, the object without one is handed
    over whole. *)
Lemma mixed_captions_are_typed :
  pick typed_of (snd (run node_runtime happy_world mixed_captions_payload))
  = [VStr "Plain line"; VStr "Hook"; VObj [("time", VNum 3%Q)]].
Proof. vm_compute. reflexivity. Qed.
